(** * projekt-gutenberg-de-dl: the book downloader's URL normalizer, index
    parser and HTML-to-Markdown content extractor (main.go), embedded in Rocq.

    Conventions of the embedding.
    - A Go [string] is held as the sequence of its code points.  A byte
      that belongs to no valid UTF-8 encoding (a text that comes out of
      golang.org/x/net/html can hold such bytes) is held as an element that
      is no code point, the negative of the byte ([invalidByte]).  What Go does byte
      by byte ([==], the package [strings] with the ASCII separators of
      main.go, the package [path]) is done element by element.  [range]
      and [[]rune(s)] decode ([runesOf]): a code point is yielded as it is,
      bytes that stand side by side and form an encoding are yielded as
      its code point, and every other byte is yielded as [utf8.RuneError];
      [string(c)] of a rune so yielded is that rune.  A concatenation of
      main.go has an ASCII literal or a string made by [process] at each
      seam, so it joins no bytes into an encoding, and the string that the
      "spaced" effect converts holds code points only.
    - A Go function that returns [(T, error)] returns a [result T]; a panic
      is a result of its own.  An [error] is one of the four sentinel errors
      of main.go or [ErrForeign], an error made by net/url, net/http or
      goquery, which is never equal to a sentinel.
    - The [bytes.Buffer] behind [Extractor.W] is the string written so far.
    - Console output ([clearLine], [printWarn]) is a list of [ConsoleEvent]s
      returned next to the value.
    - An [int] that counts elements of a list in memory is a [Z]; it cannot
      wrap around. *)

From Stdlib Require Import ZArith List Bool Lia String Ascii.
Import ListNotations.
Open Scope Z_scope.
Set Warnings "-register-all".

(** ** Go strings *)

Definition rune := Z.
Definition gostring := list rune.

(** An ASCII literal as a Go string. *)
Definition str (s : string) : gostring :=
  map (fun a => Z.of_N (N_of_ascii a)) (list_ascii_of_string s).

Definition rune_eqb (a b : rune) : bool := Z.eqb a b.

(** [a == b] on strings. *)
Fixpoint streq (a b : gostring) : bool :=
  match a, b with
  | [], [] => true
  | x :: a', y :: b' => rune_eqb x y && streq a' b'
  | _, _ => false
  end.

(** ['\n'], [' '], ['/'], U+00A0 (no-break space) and U+00FC (u umlaut). *)
Definition NL : rune := 10.
Definition SP : rune := 32.
Definition SLASH : rune := 47.
Definition NBSP : rune := 160.
Definition UUML : rune := 252.

(** ** The package [unicode/utf8]: decoding, as [range] does it *)
Module utf8.

(** [utf8.RuneError] (U+FFFD) and [utf8.MaxRune]. *)
Definition RuneError : rune := 65533.
Definition MaxRune : rune := 1114111.

(** [utf8.ValidRune(r)]: a code point that is no surrogate. *)
Definition ValidRune (r : rune) : bool :=
  ((0 <=? r) && (r <? 55296)) || ((57343 <? r) && (r <=? MaxRune)).

(** The byte an element that is no code point stands for. *)
Definition rawByte (c : rune) : Z := - c.

(** The tables [first] and [acceptRanges]: for a leading byte the range
    accepted for the second byte and the number of bytes behind the second
    one; [None] for a byte that leads no encoding. *)
Definition leading (b0 : Z) : option (Z * Z * nat) :=
  if (194 <=? b0) && (b0 <=? 223) then Some (128, 191, 0%nat)
  else if b0 =? 224 then Some (160, 191, 1%nat)
  else if (225 <=? b0) && (b0 <=? 236) then Some (128, 191, 1%nat)
  else if b0 =? 237 then Some (128, 159, 1%nat)
  else if (238 <=? b0) && (b0 <=? 239) then Some (128, 191, 1%nat)
  else if b0 =? 240 then Some (144, 191, 2%nat)
  else if (241 <=? b0) && (b0 <=? 243) then Some (128, 191, 2%nat)
  else if b0 =? 244 then Some (128, 143, 2%nat)
  else None.

(** The element [c] is a byte of the range [lo..hi].  The first byte of
    the encoding of a code point is never a continuation byte, so a code
    point that follows is refused. *)
Definition follows (lo hi : Z) (c : rune) : bool :=
  negb (ValidRune c) && (lo <=? rawByte c) && (rawByte c <=? hi).

(** The code points of the encodings of two, three and four bytes: the
    payload bits of the bytes side by side ([s0&mask2<<6 | s1&maskx] and
    so on, for bytes of the ranges accepted). *)
Definition rune2 (b0 b1 : Z) : rune := (b0 - 192) * 64 + (b1 - 128).
Definition rune3 (b0 b1 b2 : Z) : rune :=
  (b0 - 224) * 4096 + (b1 - 128) * 64 + (b2 - 128).
Definition rune4 (b0 b1 b2 b3 : Z) : rune :=
  (b0 - 240) * 262144 + (b1 - 128) * 4096 + (b2 - 128) * 64 + (b3 - 128).

End utf8.

(** A byte that belongs to no valid encoding, as an element of a string. *)
Definition invalidByte (b : Z) : rune := - b.

(** [[]rune(s)], the runes [range] yields on [s] ([utf8.DecodeRuneInString]
    again and again): a failed decoding yields [utf8.RuneError] and goes
    on behind the first byte. *)
Fixpoint runesOf (s : gostring) : list rune :=
  match s with
  | [] => []
  | c :: rest =>
      if utf8.ValidRune c then c :: runesOf rest
      else
        let bad := utf8.RuneError :: runesOf rest in
        let b0 := utf8.rawByte c in
        match utf8.leading b0 with
        | None => bad
        | Some (lo, hi, more) =>
            match rest with
            | [] => bad
            | c1 :: rest1 =>
                let b1 := utf8.rawByte c1 in
                if negb (utf8.follows lo hi c1) then bad
                else
                  match more with
                  | O => utf8.rune2 b0 b1 :: runesOf rest1
                  | S more' =>
                      match rest1 with
                      | [] => bad
                      | c2 :: rest2 =>
                          let b2 := utf8.rawByte c2 in
                          if negb (utf8.follows 128 191 c2) then bad
                          else
                            match more' with
                            | O => utf8.rune3 b0 b1 b2 :: runesOf rest2
                            | S _ =>
                                match rest2 with
                                | [] => bad
                                | c3 :: rest3 =>
                                    let b3 := utf8.rawByte c3 in
                                    if negb (utf8.follows 128 191 c3)
                                    then bad
                                    else utf8.rune4 b0 b1 b2 b3
                                         :: runesOf rest3
                                end
                            end
                      end
                  end
            end
        end
  end.

(** ** The package [strings], as far as main.go calls it *)
Module strings.

(** [strings.HasPrefix(s, prefix)]. *)
Fixpoint HasPrefix (s prefix : gostring) {struct prefix} : bool :=
  match prefix, s with
  | [], _ => true
  | p :: prefix', c :: s' => rune_eqb p c && HasPrefix s' prefix'
  | _ :: _, [] => false
  end.

(** The scan behind [Split]: [skip] runes of a separator just matched are
    still to be passed over, [cur] is the piece being read, reversed. *)
Fixpoint split_scan (sep : gostring) (skip : nat) (cur s : gostring)
  : list gostring :=
  match s with
  | [] => [rev cur]
  | c :: s' =>
      match skip with
      | S k => split_scan sep k cur s'
      | O =>
          if HasPrefix s sep
          then rev cur :: split_scan sep (List.length sep - 1) [] s'
          else split_scan sep O (c :: cur) s'
      end
  end.

(** [strings.Split(s, sep)]: the pieces of [s] between the occurrences of
    [sep], read left to right without overlap; an empty [sep] splits after
    each rune. *)
Definition Split (s sep : gostring) : list gostring :=
  match sep with
  | [] => map (fun c => [c]) s
  | _ :: _ => split_scan sep O [] s
  end.

(** [strings.Join(elems, sep)]. *)
Fixpoint Join (elems : list gostring) (sep : gostring) : gostring :=
  match elems with
  | [] => []
  | e :: rest =>
      match rest with
      | [] => e
      | _ :: _ => e ++ sep ++ Join rest sep
      end
  end.

Fixpoint replace_scan (old new : gostring) (skip : nat) (s : gostring)
  : gostring :=
  match s with
  | [] => []
  | c :: s' =>
      match skip with
      | S k => replace_scan old new k s'
      | O =>
          if HasPrefix s old
          then new ++ replace_scan old new (List.length old - 1) s'
          else c :: replace_scan old new O s'
      end
  end.

(** [strings.ReplaceAll(s, old, new)]: every occurrence of [old], left to
    right without overlap, becomes [new]; an empty [old] matches before
    each rune and at the end. *)
Definition ReplaceAll (s old new : gostring) : gostring :=
  match old with
  | [] => new ++ flat_map (fun c => c :: new) s
  | _ :: _ => replace_scan old new O s
  end.

Definition in_cutset (cutset : gostring) (c : rune) : bool :=
  existsb (rune_eqb c) cutset.

Fixpoint TrimLeft (s cutset : gostring) : gostring :=
  match s with
  | [] => []
  | c :: s' => if in_cutset cutset c then TrimLeft s' cutset else s
  end.

Definition TrimRight (s cutset : gostring) : gostring :=
  rev (TrimLeft (rev s) cutset).

(** [strings.Trim(s, cutset)]: [s] without its leading and trailing runes
    that are in [cutset]. *)
Definition Trim (s cutset : gostring) : gostring :=
  TrimRight (TrimLeft s cutset) cutset.

End strings.

(** ** The package [path]: [path.Base] *)
Module path.

(** The part of [p] after its last slash ([p] itself when it has none). *)
Fixpoint afterLastSlash (p : gostring) : gostring :=
  match p with
  | [] => []
  | c :: p' =>
      if existsb (rune_eqb SLASH) p' then afterLastSlash p'
      else if rune_eqb c SLASH then p' else p
  end.

(** [path.Base(p)]: ["."] for the empty path; otherwise the trailing
    slashes are removed and the last element is returned, ["/"] when
    nothing is left. *)
Definition Base (p : gostring) : gostring :=
  match p with
  | [] => str "."
  | _ :: _ =>
      let p1 := strings.TrimRight p [SLASH] in
      let p2 := afterLastSlash p1 in
      match p2 with
      | [] => str "/"
      | _ :: _ => p2
      end
  end.

(** One turn of [path.Clean] over the elements between the slashes of a
    path: [out] holds the elements written so far, the last one first.  An
    empty element and "." are passed over; ".." takes back the element
    before it, stays when there is none to take back and the path is not
    rooted, and is dropped at the root. *)
Definition cleanStep (rooted : bool) (out : list gostring)
  (elem : gostring) : list gostring :=
  if streq elem [] || streq elem (str ".") then out
  else if streq elem (str "..")
  then match out with
       | top :: below => if streq top (str "..") then elem :: out else below
       | [] => if rooted then out else [elem]
       end
  else elem :: out.

(** [path.Clean(p)]: the shortest path equal to [p]; "." for the empty
    path and for a path that cleans to nothing. *)
Definition Clean (p : gostring) : gostring :=
  match p with
  | [] => str "."
  | c :: _ =>
      let rooted := rune_eqb c SLASH in
      let out := fold_left (cleanStep rooted) (strings.Split p (str "/")) [] in
      let body := strings.Join (rev out) (str "/") in
      if rooted then str "/" ++ body
      else match body with
           | [] => str "."
           | _ :: _ => body
           end
  end.

(** [path.Join(elem...)]: the elements from the first one that is not
    empty on, joined by slashes and cleaned; "" when all are empty. *)
Fixpoint Join (elem : list gostring) : gostring :=
  match elem with
  | [] => []
  | e :: rest =>
      match e with
      | [] => Join rest
      | _ :: _ => Clean (strings.Join elem (str "/"))
      end
  end.

End path.

(** ** The package [net/url]: the fields of a parsed URL *)
Module url.

Record URL := mkURL {
  Scheme : gostring;
  Opaque : gostring;
  Host : gostring;
  Path : gostring;
  RawQuery : gostring;
  Fragment : gostring
}.

(** What [url.Parse] returns: a URL, or the message of its [*url.Error]. *)
Inductive ParseResult :=
| Parsed (u : URL)
| ParseError (msg : gostring).

End url.

(** ** The packages [html] and [atom] of golang.org/x/net *)
Module atom.

(** The atoms main.go names, the atoms of the tags its selectors name, and
    [Other] for every other value (0 is the atom of an unknown tag). *)
Inductive Atom :=
| A | Body | Br | Div | H1 | H2 | H3 | H4 | H5 | H6 | Hr | I | Img | Li | P
| Span | Tt | Ul | Html | Head | Ol
| Other (code : Z).

End atom.

Module html.

Inductive NodeType :=
| ErrorNode | TextNode | DocumentNode | ElementNode | CommentNode
| DoctypeNode | RawNode.

Record Attribute := mkAttribute {
  Namespace : gostring;
  Key : gostring;
  Val : gostring
}.

(** [html.Node]: its kind, atom, data, attributes and children in order
    (the list [FirstChild], [NextSibling], ... walks). *)
Inductive Node := mkNode {
  Type' : NodeType;
  DataAtom : atom.Atom;
  Data : gostring;
  Attr : list Attribute;
  Kids : list Node
}.

Definition isElementNode (n : Node) : bool :=
  match Type' n with
  | ElementNode => true
  | _ => false
  end.

Definition isTextNode (n : Node) : bool :=
  match Type' n with
  | TextNode => true
  | _ => false
  end.

End html.

(** ** The packages goquery and cascadia, as far as main.go calls them *)
Module gq.

(** The selectors main.go writes: a tag, [[key]], [[key="val"]], their
    compounds, and the descendant combinator. *)
Inductive Selector :=
| SelTag (tag : gostring)
| SelAttr (key : gostring)
| SelAttrEq (key val : gostring)
| SelAnd (a b : Selector)
| SelDesc (ancestor descendant : Selector).

(** A node with the chain of its ancestors, nearest first (what the
    [Parent] pointers of the node give). *)
Definition Loc := (list html.Node * html.Node)%type.

(** [goquery.Selection]: the selected nodes in order. *)
Definition Selection := list Loc.

(** cascadia's [matchAttribute]: some attribute has the key and a value
    that [f] accepts. *)
Definition matchAttribute (n : html.Node) (key : gostring)
  (f : gostring -> bool) : bool :=
  existsb (fun a => streq (html.Key a) key && f (html.Val a)) (html.Attr n).

(** cascadia's [Match]: every selector matches element nodes only; the
    descendant combinator walks up the ancestors. *)
Fixpoint Match (sel : Selector) (anc : list html.Node) (n : html.Node)
  : bool :=
  match sel with
  | SelTag tag => html.isElementNode n && streq (html.Data n) tag
  | SelAttr key =>
      html.isElementNode n && matchAttribute n key (fun _ => true)
  | SelAttrEq key val =>
      html.isElementNode n && matchAttribute n key (fun s => streq s val)
  | SelAnd a b => Match a anc n && Match b anc n
  | SelDesc a d =>
      Match d anc n &&
      (fix up (ps : list html.Node) : bool :=
         match ps with
         | [] => false
         | p :: rest => Match a rest p || up rest
         end) anc
  end.

(** cascadia's [MatchAll]: [n] and its descendants that match, in document
    order. *)
Fixpoint MatchAll (sel : Selector) (anc : list html.Node) (n : html.Node)
  : Selection :=
  (if Match sel anc n then [(anc, n)] else [])
  ++ flat_map (MatchAll sel (n :: anc)) (html.Kids n).

(** [Find] on a selection of one node: the descendants that match, in
    document order.  (On such a selection goquery's removal of duplicates
    has nothing to remove; main.go calls [Find] on no other.) *)
Definition Find (sel : Selector) (s : Loc) : Selection :=
  let '(anc, n) := s in
  flat_map (fun c => if html.isElementNode c then MatchAll sel (n :: anc) c
                     else [])
           (html.Kids n).

(** [Children]: the element children of the selected nodes. *)
Definition Children (s : Selection) : Selection :=
  flat_map (fun '(anc, n) =>
              map (fun c => (n :: anc, c))
                  (filter html.isElementNode (html.Kids n))) s.

(** [Is] on a selection of one node. *)
Definition Is (s : Loc) (sel : Selector) : bool :=
  Match sel (fst s) (snd s).

(** The text of a node: its data when it is a text node, followed by the
    texts of its children. *)
Fixpoint nodeText (n : html.Node) : gostring :=
  (if html.isTextNode n then html.Data n else [])
  ++ flat_map nodeText (html.Kids n).

(** [Text] on a selection of one node. *)
Definition Text (s : Loc) : gostring := nodeText (snd s).

(** [getAttributeValue]: the value of the first attribute named [name]. *)
Fixpoint getAttributeValue (name : gostring) (attrs : list html.Attribute)
  : gostring * bool :=
  match attrs with
  | [] => ([], false)
  | a :: rest =>
      if streq (html.Key a) name then (html.Val a, true)
      else getAttributeValue name rest
  end.

(** [Attr]: the attribute of the first selected node. *)
Definition Attr (s : Selection) (name : gostring) : gostring * bool :=
  match s with
  | [] => ([], false)
  | (_, n) :: _ => getAttributeValue name (html.Attr n)
  end.

(** [FilterFunction]: the nodes for which the closure answers true, in
    order; the variables the closure captures are the state [St]. *)
Fixpoint FilterFunction {St : Type} (f : St -> Z -> Loc -> St * bool)
  (i : Z) (s : Selection) (st : St) : St * Selection :=
  match s with
  | [] => (st, [])
  | n :: rest =>
      let '(st1, keep) := f st i n in
      let '(st2, kept) := FilterFunction f (i + 1) rest st1 in
      (st2, if keep then n :: kept else kept)
  end.

(** [Filter]: the selected nodes that match, in order. *)
Definition Filter (s : Selection) (sel : Selector) : Selection :=
  filter (fun l => Match sel (fst l) (snd l)) s.

(** [AttrOr]: the attribute of the first selected node, or the default
    when there is no node or it has no such attribute. *)
Definition AttrOr (s : Selection) (name defaultValue : gostring)
  : gostring :=
  let '(v, ok) := Attr s name in
  if ok then v else defaultValue.

(** A document: the selection of its root node. *)
Definition Document := html.Node.
Definition root (doc : Document) : Loc := ([], doc).

End gq.

(** ** main.go *)

Inductive error :=
| ErrInvalidURL
| ErrNoChaptersFound
| ErrParsingPage
| ErrBookNotFound
| ErrForeign (msg : gostring).

Inductive result (T : Type) :=
| Ok (v : T)
| Err (e : error)
| Panic (msg : gostring).
Arguments Ok {T} v.
Arguments Err {T} e.
Arguments Panic {T} msg.

Inductive ConsoleEvent :=
| ClearLine
| WarnUnknownDataAtom (data : gostring)
| WarnUnknownType (t : html.NodeType).

(** A value with the console output made on the way to it. *)
Definition Console (T : Type) := (T * list ConsoleEvent)%type.
Definition ret {T} (v : T) : Console T := (v, []).
Definition bind {T U} (m : Console T) (f : T -> Console U) : Console U :=
  let '(v, out1) := m in
  let '(w, out2) := f v in
  (w, out1 ++ out2).
Definition emit (e : ConsoleEvent) : Console unit := (tt, [e]).

Notation "x <- m ;; k" := (bind m (fun x => k))
  (at level 61, m at next level, right associativity).
Notation "m ;;; k" := (bind m (fun _ => k))
  (at level 61, right associativity).

Definition clearLine : Console unit := emit ClearLine.

(** *** getBaseUrl *)

Section GetBaseUrl.

(** [url.Parse] of the Go library. *)
Variable url_Parse : gostring -> url.ParseResult.

Definition getBaseUrl (rawurl : gostring) : result gostring :=
  match url_Parse rawurl with
  | url.ParseError msg => Err (ErrForeign msg)
  | url.Parsed u =>
      if negb (streq (url.Scheme u) (str "http")
               || streq (url.Scheme u) (str "https"))
      then Err ErrInvalidURL
      else if negb (streq (url.Host u) (str "projekt-gutenberg.org")
                    || streq (url.Host u) (str "www.projekt-gutenberg.org"))
      then Err ErrInvalidURL
      else
        let spPath :=
          strings.Split (strings.Trim (url.Path u) (str "/")) (str "/") in
        if Z.of_nat (List.length spPath) <? 2
        then Err ErrInvalidURL
        else
          let basePath := strings.Join (firstn 2 spPath) (str "/") in
          Ok (url.Scheme u ++ str "://projekt-gutenberg.org/" ++ basePath)
  end.

End GetBaseUrl.

(** *** getChapters *)

(** ["body ul li"] and ["a[href]"]. *)
Definition sel_body_ul_li : gq.Selector :=
  gq.SelDesc (gq.SelDesc (gq.SelTag (str "body")) (gq.SelTag (str "ul")))
             (gq.SelTag (str "li")).
Definition sel_a_href : gq.Selector :=
  gq.SelAnd (gq.SelTag (str "a")) (gq.SelAttr (str "href")).

(** One call of the closure given to [Each]; after a panic no further call
    is made. *)
Definition chapterStep (baseUrl : gostring)
  (chapterUrls : result (list gostring)) (s : gq.Loc)
  : result (list gostring) :=
  match chapterUrls with
  | Ok urls =>
      let s := gq.Find sel_a_href s in
      if Z.of_nat (List.length s) =? 0
      then Panic (str "missing link in chapter index")
      else
        let relUrl := fst (gq.Attr s (str "href")) in
        Ok (urls ++ [baseUrl ++ str "/" ++ relUrl])
  | other => other
  end.

Definition getChapters (baseUrl : gostring) (doc : gq.Document)
  : result (list gostring) :=
  match fold_left (chapterStep baseUrl)
                  (gq.Find sel_body_ul_li (gq.root doc)) (Ok []) with
  | Ok chapterUrls =>
      if Z.of_nat (List.length chapterUrls) =? 0
      then Err ErrNoChaptersFound
      else Ok chapterUrls
  | other => other
  end.

(** *** parseAdditionalPage: isolating the content *)

(** [MetaInfo] and [Extractor]; [W] is what has been written to the writer. *)
Record MetaInfo := mkMetaInfo {
  Author : gostring;
  Title : gostring;
  Year : gostring
}.

Record Extractor := mkExtractor {
  BaseUrl : gostring;
  Meta : MetaInfo;
  ChapterUrls : list gostring;
  W : gostring
}.

(** [fmt.Fprint(e.W, s)] and [fmt.Fprintln(e.W, s)] with one string
    operand: [Fprintln] ends the line. *)
Definition Fprint (e : Extractor) (s : gostring) : Extractor :=
  mkExtractor (BaseUrl e) (Meta e) (ChapterUrls e) (W e ++ s).
Definition Fprintln (e : Extractor) (s : gostring) : Extractor :=
  mkExtractor (BaseUrl e) (Meta e) (ChapterUrls e) (W e ++ s ++ [NL]).

(** [hr[size="1"][color="#808080"]] and ["a"]. *)
Definition sel_hr : gq.Selector :=
  gq.SelAnd (gq.SelTag (str "hr"))
            (gq.SelAnd (gq.SelAttrEq (str "size") (str "1"))
                       (gq.SelAttrEq (str "color") (str "#808080"))).
Definition sel_a : gq.Selector := gq.SelTag (str "a").

(** The texts of the two buttons: "<<", U+00A0, "zurück" and
    "weiter", U+00A0, ">>". *)
Definition zurueck : gostring :=
  str "<<" ++ [NBSP] ++ str "zur" ++ [UUML] ++ str "ck".
Definition weiter : gostring := str "weiter" ++ [NBSP] ++ str ">>".

(** The variables the filter closure captures. *)
Record FilterVars := mkFilterVars {
  passedHrs : Z;
  err : option error
}.

(** The closure given to [FilterFunction]. *)
Definition contentFilter (v : FilterVars) (i : Z) (s : gq.Loc)
  : FilterVars * bool :=
  if gq.Is s sel_hr
  then (mkFilterVars (passedHrs v + 1) (err v), false)
  else if gq.Is s sel_a
          && (streq (gq.Text s) zurueck || streq (gq.Text s) weiter)
  then (v, false)
  else
    match passedHrs v with
    | 0 => (v, false)
    | 1 => (v, true)
    | 2 => (v, false)
    | _ => (mkFilterVars (passedHrs v) (Some ErrParsingPage), false)
    end.

(** [doc.Find("body").Children().FilterFunction(...)], with the variables
    as the closure leaves them. *)
Definition findContent (doc : gq.Document) : FilterVars * gq.Selection :=
  gq.FilterFunction contentFilter 0
    (gq.Children (gq.Find (gq.SelTag (str "body")) (gq.root doc)))
    (mkFilterVars 0 None).

(** *** parseAdditionalPage: the conversion into Markdown *)

(** [hasClass]: the first attribute named "class" decides. *)
Fixpoint hasClassIn (attrs : list html.Attribute) (class : gostring) : bool :=
  match attrs with
  | [] => false
  | v :: rest =>
      if streq (html.Key v) (str "class")
      then existsb (fun cl => streq cl class)
                   (strings.Split (html.Val v) (str " "))
      else hasClassIn rest class
  end.

Definition hasClass (n : html.Node) (class : gostring) : bool :=
  hasClassIn (html.Attr n) class.

(** One turn of the loop over the runes of a text: [prevWasSpace] and
    [newRet]. *)
Definition textStep (st : bool * gostring) (c : rune) : bool * gostring :=
  let '(prevWasSpace, newRet) := st in
  if rune_eqb c SP
  then if prevWasSpace then (prevWasSpace, newRet)
       else (true, newRet ++ [c])
  else (false, newRet ++ [c]).

(** The case [html.TextNode]: [for _, c := range ret] runs over the runes
    decoded from [ret], and [string(c)] is added for each one kept. *)
Definition processText (data : gostring) : gostring :=
  let ret := strings.ReplaceAll data [NL] [] in
  snd (fold_left textStep (runesOf ret) (false, [])).

(** The "spaced" effect: the loop over [i := 0; i < nRunes; i++].
    [[]rune(ret)] is [ret] itself, a string of code points. *)
Definition spacedStep (runes : gostring) (nRunes : Z) (newRet : gostring)
  (i : nat) : gostring :=
  let newRet := newRet ++ [nth i runes 0] in
  if Z.of_nat i <? nRunes - 1 then newRet ++ [SP] else newRet.

Definition addSpaced (ret : gostring) : gostring :=
  let runes := ret in
  let nRunes := Z.of_nat (List.length runes) in
  fold_left (spacedStep runes nRunes) (seq 0 (List.length runes)) [].

(** The switch on [n.DataAtom]; [processChildren] is the closure of that
    name. *)
Definition transformElement (n : html.Node)
  (processChildren : unit -> Console gostring) : Console gostring :=
  match html.DataAtom n with
  | atom.Br => ret [NL; NL]
  | atom.H1 => c <- processChildren tt ;; ret (str "# " ++ c ++ [NL])
  | atom.H2 => c <- processChildren tt ;; ret (str "## " ++ c ++ [NL])
  | atom.H3 => c <- processChildren tt ;; ret (str "### " ++ c ++ [NL])
  | atom.H4 => c <- processChildren tt ;; ret (str "#### " ++ c ++ [NL])
  | atom.H5 => c <- processChildren tt ;; ret (str "##### " ++ c ++ [NL])
  | atom.H6 => c <- processChildren tt ;; ret (str "###### " ++ c ++ [NL])
  | atom.P =>
      if hasClass n (str "centerbig")
      then c <- processChildren tt ;; ret (str "#### " ++ c ++ [NL; NL])
      else c <- processChildren tt ;; ret (c ++ [NL; NL])
  | atom.Div => processChildren tt
  | atom.Tt => c <- processChildren tt ;; ret (str "`" ++ c ++ str "`")
  | atom.I => c <- processChildren tt ;; ret (str "_" ++ c ++ str "_")
  | atom.A => processChildren tt
  | atom.Span => processChildren tt
  | atom.Img => ret []
  | _ =>
      clearLine ;;;
      emit (WarnUnknownDataAtom (html.Data n)) ;;;
      ret []
  end.

(** The body of [process], given the closure [processChildren]. *)
Definition processNode (n : html.Node)
  (processChildren : unit -> Console gostring) : Console gostring :=
  match html.Type' n with
  | html.TextNode => ret (processText (html.Data n))
  | html.ElementNode =>
      r <- transformElement n processChildren ;;
      if hasClass n (str "spaced") then ret (addSpaced r) else ret r
  | t =>
      clearLine ;;;
      emit (WarnUnknownType t) ;;;
      ret []
  end.

(** [process]; the closure [processChildren] adds up the conversions of the
    children in order. *)
Fixpoint process (n : html.Node) : Console gostring :=
  processNode n
    (fun _ =>
       fold_left (fun acc i => r <- acc ;; p <- process i ;; ret (r ++ p))
                 (html.Kids n) (ret [])).

Definition processChildren (n : html.Node) : Console gostring :=
  fold_left (fun acc i => r <- acc ;; p <- process i ;; ret (r ++ p))
            (html.Kids n) (ret []).

(** The loop [for _, n := range content.Nodes] and one turn of it. *)
Definition writeStep (acc : Console Extractor) (s : gq.Loc)
  : Console Extractor :=
  e1 <- acc ;; p <- process (snd s) ;; ret (Fprint e1 p).

Definition writeContent (e : Extractor) (content : gq.Selection)
  : Console Extractor :=
  fold_left writeStep content (ret e).

(** [parseAdditionalPage]: the extractor afterwards, the console output and
    the error ([None] is [nil]). *)
Definition parseAdditionalPage (e : Extractor) (doc : gq.Document)
  : Console (Extractor * option error) :=
  let '(v, content) := findContent doc in
  match err v with
  | Some er => ret (e, Some er)
  | None =>
      e1 <- writeContent e content ;;
      ret (e1, None)
  end.

(** *** FetchAndProcessChapter *)

Section Fetch.

(** [http.Get] followed by [gq.NewDocumentFromReader]: the document at a
    URL, or the message of the error of either. *)
Variable fetchDocument : gostring -> gq.Document + gostring.

Definition FetchAndProcessChapter (e : Extractor) (chapterUrl : gostring)
  : Console (Extractor * option error) :=
  match fetchDocument chapterUrl with
  | inr msg => ret (e, Some (ErrForeign msg))
  | inl doc =>
      r <- parseAdditionalPage e doc ;;
      match snd r with
      | Some er => ret (fst r, Some er)
      | None =>
          if streq (path.Base chapterUrl) (str "titlepage.html")
          then ret (Fprintln (fst r) ([NL] ++ str "----------------" ++ [NL]),
                    None)
          else ret (fst r, None)
      end
  end.

End Fetch.

(** ** Building documents *)

Definition attr (key val : gostring) : html.Attribute :=
  html.mkAttribute [] key val.

(** A text node; its atom is 0. *)
Definition text (s : gostring) : html.Node :=
  html.mkNode html.TextNode (atom.Other 0) s [] [].

Definition element (a : atom.Atom) (tag : gostring)
  (attrs : list html.Attribute) (kids : list html.Node) : html.Node :=
  html.mkNode html.ElementNode a tag attrs kids.

(** The marker: [<hr size="1" color="#808080">]. *)
Definition marker : html.Node :=
  element atom.Hr (str "hr")
          [attr (str "size") (str "1"); attr (str "color") (str "#808080")]
          [].

(** A page: the document node, [<html>], an empty [<head>] and the
    [<body>] with the given children. *)
Definition page (bodyKids : list html.Node) : gq.Document :=
  html.mkNode html.DocumentNode (atom.Other 0) [] []
    [element atom.Html (str "html") []
       [element atom.Head (str "head") [] [];
        element atom.Body (str "body") [] bodyKids]].

Definition e0 : Extractor :=
  mkExtractor (str "https://projekt-gutenberg.org/a/b")
              (mkMetaInfo [] [] []) [] [].

Definition el_p (attrs : list html.Attribute) (kids : list html.Node)
  : html.Node := element atom.P (str "p") attrs kids.
Definition el_a (attrs : list html.Attribute) (kids : list html.Node)
  : html.Node := element atom.A (str "a") attrs kids.
Definition el_i (attrs : list html.Attribute) (kids : list html.Node)
  : html.Node := element atom.I (str "i") attrs kids.
Definition el_li (kids : list html.Node) : html.Node :=
  element atom.Li (str "li") [] kids.
Definition el_ul (kids : list html.Node) : html.Node :=
  element atom.Ul (str "ul") [] kids.
Definition el_ol (kids : list html.Node) : html.Node :=
  element atom.Ol (str "ol") [] kids.

(** ** The notions the claims are stated with *)

(** *** Text *)

Definition stripNewlines (s : gostring) : gostring :=
  filter (fun c => negb (rune_eqb c NL)) s.

(** The maximal runs of equal runes of a string, each with its length. *)
Fixpoint runs (s : gostring) : list (rune * nat) :=
  match s with
  | [] => []
  | c :: s' =>
      match runs s' with
      | (d, k) :: rs =>
          if rune_eqb c d then (d, S k) :: rs else (c, 1%nat) :: (d, k) :: rs
      | [] => [(c, 1%nat)]
      end
  end.

(** A run of two or more spaces becomes one space; every other run stays. *)
Definition collapseRun (r : rune * nat) : gostring :=
  if rune_eqb (fst r) SP && (2 <=? snd r)%nat then [SP]
  else repeat (fst r) (snd r).

Definition collapseSpaces (s : gostring) : gostring :=
  flat_map collapseRun (runs s).

(** Two spaces in a row somewhere in [s]. *)
Fixpoint hasDoubleSpace (s : gostring) : bool :=
  match s with
  | [] => false
  | a :: t =>
      match t with
      | [] => false
      | b :: _ => (rune_eqb a SP && rune_eqb b SP) || hasDoubleSpace t
      end
  end.

(** [sep] between every two adjacent runes of [s], and nowhere else. *)
Fixpoint intersperse (sep : rune) (s : gostring) : gostring :=
  match s with
  | [] => []
  | c :: s' =>
      match s' with
      | [] => [c]
      | _ :: _ => c :: sep :: intersperse sep s'
      end
  end.

(** [needle] occurs in [s]. *)
Fixpoint contains (s needle : gostring) : bool :=
  strings.HasPrefix s needle
  || match s with
     | [] => false
     | _ :: s' => contains s' needle
     end.

(** *** The children of the body *)

Definition isMarker (s : gq.Loc) : bool := gq.Is s sel_hr.

Definition isNavLink (s : gq.Loc) : bool :=
  gq.Is s sel_a && (streq (gq.Text s) zurueck || streq (gq.Text s) weiter).

(** The children the filter of [parseAdditionalPage] scans. *)
Definition bodyChildren (doc : gq.Document) : gq.Selection :=
  gq.Children (gq.Find (gq.SelTag (str "body")) (gq.root doc)).

(** The number of markers among [cs]. *)
Definition markerCount (cs : gq.Selection) : Z :=
  Z.of_nat (List.length (filter isMarker cs)).

(** The Markdown of a list of nodes: their conversions in order. *)
Definition markdownOf (content : gq.Selection) : gostring :=
  flat_map (fun s => fst (process (snd s))) content.

(** The console output of converting a list of nodes. *)
Definition warningsOf (content : gq.Selection) : list ConsoleEvent :=
  flat_map (fun s => snd (process (snd s))) content.

(** A link element with the text of a button, at [n] or below it. *)
Fixpoint hasNavLinkWithin (anc : list html.Node) (n : html.Node) : bool :=
  isNavLink (anc, n) || existsb (hasNavLinkWithin (n :: anc)) (html.Kids n).

(** *** URLs *)

(** The path split on "/" with its empty leading and trailing segments
    dropped. *)
Fixpoint dropEmptyFront (l : list gostring) : list gostring :=
  match l with
  | [] => []
  | x :: rest =>
      match x with
      | [] => dropEmptyFront rest
      | _ :: _ => l
      end
  end.

Definition pathSegments (p : gostring) : list gostring :=
  rev (dropEmptyFront (rev (dropEmptyFront (strings.Split p (str "/"))))).

Definition schemeOk (u : url.URL) : bool :=
  streq (url.Scheme u) (str "http") || streq (url.Scheme u) (str "https").

Definition hostOk (u : url.URL) : bool :=
  streq (url.Host u) (str "projekt-gutenberg.org")
  || streq (url.Host u) (str "www.projekt-gutenberg.org").

(** [url.Parse] on the raw URLs of the examples below; its answer anywhere
    else is not used. *)
Definition url_zara : url.URL :=
  url.mkURL (str "https") [] (str "www.projekt-gutenberg.org")
            (str "/nietzsch/zara/zara.html") [] [].
Definition url_zara_book : url.URL :=
  url.mkURL (str "https") [] (str "projekt-gutenberg.org")
            (str "/nietzsch/zara") [] [].

Definition url_Parse_examples (rawurl : gostring) : url.ParseResult :=
  if streq rawurl
       (str "https://www.projekt-gutenberg.org/nietzsch/zara/zara.html")
  then url.Parsed url_zara
  else if streq rawurl (str "https://projekt-gutenberg.org/nietzsch/zara")
  then url.Parsed url_zara_book
  else if streq rawurl (str "ftp://projekt-gutenberg.org/nietzsch/zara")
  then url.Parsed (url.mkURL (str "ftp") [] (str "projekt-gutenberg.org")
                             (str "/nietzsch/zara") [] [])
  else if streq rawurl (str ":")
  then url.ParseError (str "missing protocol scheme")
  else url.ParseError (str "not an example").

(** *** Strings *)

(** [strings.Split] on a one-rune separator. *)
Fixpoint splitOn (c : rune) (s : gostring) : list gostring :=
  match s with
  | [] => [[]]
  | x :: s' =>
      if rune_eqb c x then [] :: splitOn c s'
      else match splitOn c s' with
           | h :: t => (x :: h) :: t
           | [] => [[x]]
           end
  end.

(** The loop of the text case as a recursion on the runes still to read. *)
Fixpoint squeeze (prevWasSpace : bool) (s : gostring) : gostring :=
  match s with
  | [] => []
  | c :: s' =>
      if rune_eqb c SP
      then if prevWasSpace then squeeze true s' else c :: squeeze true s'
      else c :: squeeze false s'
  end.

(** *** Example elements *)

(** A text that is the one byte 0xFF, which belongs to no encoding. *)
Definition textInvalid : html.Node :=
  html.mkNode html.TextNode (atom.Other 0) [invalidByte 255] [] [].

Definition class_spaced : list html.Attribute :=
  [attr (str "class") (str "spaced")].

(** [<i class="spaced">word</i>] and [<span class="spaced">ab</span>]. *)
Definition spacedItalic : html.Node := el_i class_spaced [text (str "word")].
Definition spacedSpan : html.Node :=
  element atom.Span (str "span") class_spaced [text (str "ab")].

(** [<p class="spaced">ab</p>], [<p>ab</p>] and
    [<p class="centerbig">ab</p>]. *)
Definition spacedParagraph : html.Node :=
  el_p class_spaced [text (str "ab")].
Definition plainParagraph : html.Node := el_p [] [text (str "ab")].
Definition bigParagraph : html.Node :=
  el_p [attr (str "class") (str "centerbig")] [text (str "ab")].

(** *** Example pages *)

Definition para_x : html.Node := el_p [] [text (str "x")].

(** Three markers, the third the last child of the body. *)
Definition pageThreeMarkers : gq.Document :=
  page [marker; para_x; marker; marker].

(** Three markers and a paragraph after the third. *)
Definition pageOverrun : gq.Document :=
  page [marker; marker; marker; para_x].

(** A "weiter" link inside a paragraph between the two markers, and the
    same link as a child of the body. *)
Definition navLink : html.Node :=
  el_a [attr (str "href") (str "chap002.html")] [text weiter].
Definition pageNestedNav : gq.Document :=
  page [marker; el_p [] [navLink]; marker].
Definition pageNav : gq.Document :=
  page [marker; navLink; para_x; marker].

(** The scan of [parseAdditionalPage] over a list of children. *)
Definition scanChildren (cs : gq.Selection) : FilterVars * gq.Selection :=
  gq.FilterFunction contentFilter 0 cs (mkFilterVars 0 None).

(** Some child that is neither a marker nor a button stands behind
    [3 - k] or more markers. *)
Fixpoint overrun (k : Z) (cs : gq.Selection) : bool :=
  match cs with
  | [] => false
  | c :: rest =>
      if isMarker c then overrun (k + 1) rest
      else if isNavLink c then overrun k rest
      else (3 <=? k) || overrun k rest
  end.

(** [e] with [w] as the contents of its writer. *)
Definition withW (e : Extractor) (w : gostring) : Extractor :=
  mkExtractor (BaseUrl e) (Meta e) (ChapterUrls e) w.

(** The separator the spec names: "\n----------------\n". *)
Definition separator : gostring := [NL] ++ str "----------------" ++ [NL].

(** A title page and its URL. *)
Definition pageTitle : gq.Document := page [marker; para_x; marker].
Definition titleUrl : gostring :=
  str "https://projekt-gutenberg.org/a/b/titlepage.html".
Definition chapterUrl1 : gostring :=
  str "https://projekt-gutenberg.org/a/b/chap001.html".

(** *** The index *)

(** ["body li"]: every list item below the body. *)
Definition sel_body_li : gq.Selector :=
  gq.SelDesc (gq.SelTag (str "body")) (gq.SelTag (str "li")).

(** The list items [getChapters] visits, the links it finds in one, and
    the URL it makes of one. *)
Definition listItems (doc : gq.Document) : gq.Selection :=
  gq.Find sel_body_ul_li (gq.root doc).
Definition chapterLinks (li : gq.Loc) : gq.Selection :=
  gq.Find sel_a_href li.
Definition chapterUrlOf (baseUrl : gostring) (li : gq.Loc) : gostring :=
  baseUrl ++ str "/" ++ fst (gq.Attr (chapterLinks li) (str "href")).
Definition hasChapterLink (li : gq.Loc) : bool :=
  negb (Z.of_nat (List.length (chapterLinks li)) =? 0).

(** An index with its two chapters in a [<ul>], the text of an item apart
    from its link, and the same index with an [<ol>]. *)
Definition chapterItem (href label : gostring) : html.Node :=
  el_li [el_a [attr (str "href") href] []; text label].
Definition indexItems : list html.Node :=
  [chapterItem (str "titlepage.html") (str "Titel");
   chapterItem (str "chap001.html") (str "Kapitel 1")].
Definition pageIndex : gq.Document := page [el_ul indexItems].
Definition pageIndexOrdered : gq.Document := page [el_ol indexItems].
Definition pageNoItems : gq.Document := page [para_x].

(** A list of segments without its empty trailing segments. *)
Definition dropEmptyBack (l : list gostring) : list gostring :=
  rev (dropEmptyFront (rev l)).

(** More raw URLs of the examples: a path with an empty second segment,
    and the result of [getBaseUrl] on it. *)
Definition url_Parse_examples2 (rawurl : gostring) : url.ParseResult :=
  if streq rawurl (str "https://projekt-gutenberg.org/nietzsch//zara")
  then url.Parsed (url.mkURL (str "https") [] (str "projekt-gutenberg.org")
                             (str "/nietzsch//zara") [] [])
  else if streq rawurl (str "https://projekt-gutenberg.org/nietzsch/")
  then url.Parsed (url.mkURL (str "https") [] (str "projekt-gutenberg.org")
                             (str "/nietzsch/") [] [])
  else url_Parse_examples rawurl.

(** *** Headings *)

(** ['#']. *)
Definition HASH : rune := 35.

(** The level of a heading atom. *)
Definition headingLevel (a : atom.Atom) : option nat :=
  match a with
  | atom.H1 => Some 1%nat
  | atom.H2 => Some 2%nat
  | atom.H3 => Some 3%nat
  | atom.H4 => Some 4%nat
  | atom.H5 => Some 5%nat
  | atom.H6 => Some 6%nat
  | _ => None
  end.

(** [<h3>x</h3>]. *)
Definition heading3 : html.Node :=
  element atom.H3 (str "h3") [] [text (str "x")].

(** The effect of the class "spaced" on a formatted string. *)
Definition spacedIf (n : html.Node) (formatted : gostring) : gostring :=
  if hasClass n (str "spaced") then intersperse SP formatted else formatted.

(** ** main.go: the index and the program *)

(** *** getMetaInfo and ToTitle *)

(** ["head meta"] and [[name="..."]]. *)
Definition sel_head_meta : gq.Selector :=
  gq.SelDesc (gq.SelTag (str "head")) (gq.SelTag (str "meta")).
Definition sel_name (value : gostring) : gq.Selector :=
  gq.SelAttrEq (str "name") value.

Definition getMetaInfo (doc : gq.Document) : MetaInfo :=
  let metas := gq.Find sel_head_meta (gq.root doc) in
  mkMetaInfo
    (gq.AttrOr (gq.Filter metas (sel_name (str "author")))
               (str "content") (str "Unknown"))
    (gq.AttrOr (gq.Filter metas (sel_name (str "title")))
               (str "content") (str "Unknown"))
    (gq.AttrOr (gq.Filter metas (sel_name (str "firstpub")))
               (str "content") (str "Unknown")).

(** [fmt.Sprintf("%s -- %s, %s", m.Author, m.Title, m.Year)]. *)
Definition ToTitle (m : MetaInfo) : gostring :=
  Author m ++ str " -- " ++ Title m ++ str ", " ++ Year m.

(** *** NewExtractor and FetchAndProcessIndex *)

(** What main.go reads of an [http.Response]: the status code and the
    bytes of the body. *)
Record Response := mkResponse {
  StatusCode : Z;
  Body : gostring
}.

Section Program.

(** [url.Parse], [http.Get] (a response or the message of its error) and
    [gq.NewDocumentFromReader] on the body of a response.  Within a run the
    site answers a URL the same way each time it is asked. *)
Variable url_Parse : gostring -> url.ParseResult.
Variable http_Get : gostring -> Response + gostring.
Variable NewDocumentFromReader : gostring -> gq.Document + gostring.

(** [NewExtractor]; [w] is what the writer given holds.  The other fields
    are zero. *)
Definition NewExtractor (rawurl w : gostring) : result Extractor :=
  match getBaseUrl url_Parse rawurl with
  | Ok baseUrl => Ok (mkExtractor baseUrl (mkMetaInfo [] [] []) [] w)
  | Err er => Err er
  | Panic msg => Panic msg
  end.

(** [FetchAndProcessIndex]: the extractor afterwards and the error
    ([Ok tt] is [nil]); a panic of [getChapters] passes through. *)
Definition FetchAndProcessIndex (e : Extractor) : Extractor * result unit :=
  match http_Get (BaseUrl e) with
  | inr msg => (e, Err (ErrForeign msg))
  | inl resp =>
      if StatusCode resp =? 404
      then (e, Err ErrBookNotFound)
      else
        match NewDocumentFromReader (Body resp) with
        | inr msg => (e, Err (ErrForeign msg))
        | inl doc =>
            let metaInfo := getMetaInfo doc in
            let e := mkExtractor (BaseUrl e) metaInfo (ChapterUrls e) (W e) in
            match getChapters (BaseUrl e) doc with
            | Ok chapterUrls =>
                (mkExtractor (BaseUrl e) (Meta e) chapterUrls (W e), Ok tt)
            | Err er => (e, Err er)
            | Panic msg => (e, Panic msg)
            end
        end
  end.

(** The first lines of [FetchAndProcessChapter]: the chapter page is read
    whatever the status of the response. *)
Definition fetchChapter (chapterUrl : gostring) : gq.Document + gostring :=
  match http_Get chapterUrl with
  | inr msg => inr msg
  | inl resp => NewDocumentFromReader (Body resp)
  end.

(** *** main *)

(** What the program does to the outside, in order: console output (the
    text without the colours), requests and the call of [os.WriteFile]. *)
Inductive MainEvent :=
| EvUsage (arg0 : gostring)
| EvInfo (text : gostring)
| EvErr (text : gostring)
| EvProgress (i n : Z)
| EvConsole (ev : ConsoleEvent)
| EvGet (rawurl : gostring)
| EvWriteFile (filename data : gostring).

(** How the program ends: [os.Exit], the return of [main] being
    [os.Exit(0)], or a panic. *)
Inductive Exit :=
| ExitCode (status : Z)
| GoPanic (msg : gostring).

(** A step of the program: the events and the value, or the end of the
    program. *)
Definition Prog (T : Type) := (list MainEvent * (T + Exit))%type.
Definition pret {T} (v : T) : Prog T := ([], inl v).
Definition pbind {T U} (m : Prog T) (f : T -> Prog U) : Prog U :=
  match snd m with
  | inl v => (fst m ++ fst (f v), snd (f v))
  | inr x => (fst m, inr x)
  end.
Definition say (ev : MainEvent) : Prog unit := ([ev], inl tt).
Definition os_Exit {T} (status : Z) : Prog T := ([], inr (ExitCode status)).

Notation "x <== m ;; k" := (pbind m (fun x => k))
  (at level 61, m at next level, right associativity).
Notation "m >>> k" := (pbind m (fun _ => k))
  (at level 61, right associativity).

(** [err.Error()]. *)
Definition errorText (er : error) : gostring :=
  match er with
  | ErrInvalidURL => str "invalid url"
  | ErrNoChaptersFound => str "no chapters found in index"
  | ErrParsingPage => str "error parsing page"
  | ErrBookNotFound => str "book not found"
  | ErrForeign msg => msg
  end.

Definition usage {T} (arg0 : gostring) (exitStatus : Z) : Prog T :=
  say (EvUsage arg0) >>> os_Exit exitStatus.
Definition printInfo (text : gostring) : Prog unit := say (EvInfo text).
Definition printErr {T} (text : gostring) : Prog T :=
  say (EvErr text) >>> os_Exit 1.

(** [len(arg) >= 1 && arg[0] == '-']. *)
Definition isOption (arg : gostring) : bool :=
  match arg with
  | [] => false
  | c :: _ => rune_eqb c 45
  end.

(** The loop over the command line, from the argument at [i] on: [args]
    are the arguments not yet read, [url] and [dir] the variables. *)
Fixpoint parseArgs (arg0 : gostring) (args : list gostring)
  (url dir : gostring) : Prog (gostring * gostring) :=
  match args with
  | [] => pret (url, dir)
  | arg :: rest =>
      if isOption arg
      then
        if streq arg (str "-dir")
        then match rest with
             | [] =>
                 printErr (str "Expected argument after option '"
                           ++ arg ++ str "'")
             | operand :: rest' => parseArgs arg0 rest' url operand
             end
        else if streq arg (str "--help") || streq arg (str "-h")
        then usage arg0 0
        else printErr (str "Unknown option: '" ++ arg ++ str "'")
      else
        if streq url []
        then parseArgs arg0 rest arg dir
        else printErr (str "Expected option, but got '" ++ arg ++ str "'")
  end.

(** The loop over the chapters, from the chapter of index [i] on. *)
Fixpoint downloadChapters (e : Extractor) (i n : Z)
  (chapters : list gostring) : Prog Extractor :=
  match chapters with
  | [] => pret e
  | chapter :: rest =>
      say (EvConsole ClearLine) >>>
      say (EvProgress (i + 1) n) >>>
      say (EvGet chapter) >>>
      let r := FetchAndProcessChapter fetchChapter e chapter in
      (map EvConsole (snd r), inl tt) >>>
      match snd (fst r) with
      | Some er => printErr (str "Error: " ++ errorText er)
      | None => downloadChapters (fst (fst r)) (i + 1) n rest
      end
  end.

(** [main] after the command line: from [NewExtractor] to the file. *)
Definition download (url dir : gostring) : Prog unit :=
  match NewExtractor url [] with
  | Err er => printErr (str "Error: " ++ errorText er)
  | Panic msg => ([], inr (GoPanic msg))
  | Ok e =>
      say (EvGet (BaseUrl e)) >>>
      let r := FetchAndProcessIndex e in
      match snd r with
      | Err er => printErr (str "Error: " ++ errorText er)
      | Panic msg => ([], inr (GoPanic msg))
      | Ok _ =>
          let e := fst r in
          let bookName := ToTitle (Meta e) in
          printInfo (str "Book: " ++ bookName) >>>
          e <== downloadChapters e 0 (Z.of_nat (List.length (ChapterUrls e)))
                                 (ChapterUrls e) ;;
          let filename := path.Join [dir; bookName ++ str ".md"] in
          say (EvWriteFile filename (W e)) >>>
          say (EvConsole ClearLine) >>>
          printInfo (str "Saved as: " ++ filename)
      end
  end.

(** [main] on [os.Args]; [os.Args[0]] panics on an empty list. *)
Definition main (Args : list gostring) : Prog unit :=
  match Args with
  | [] => ([], inr (GoPanic (str "index out of range [0] with length 0")))
  | arg0 :: args =>
      (if Z.of_nat (List.length Args) <? 2 then usage arg0 1 else pret tt)
      >>>
      a <== parseArgs arg0 args [] (str ".") ;;
      let '(url, dir) := a in
      (if streq url []
       then printInfo (str "Please specify a book URL") >>> os_Exit 1
       else pret tt) >>>
      printInfo (str "Book URL: " ++ url) >>>
      download url dir
  end.

(** How the process ends: a [main] that returns ends with status 0. *)
Definition run (Args : list gostring) : list MainEvent * Exit :=
  match snd (main Args) with
  | inl _ => (fst (main Args), ExitCode 0)
  | inr x => (fst (main Args), x)
  end.

End Program.

(** ** Notions for the properties of the library models and of [process] *)

(** [word] stands in [s] as a whole word between spaces: at the start or
    behind a space, and at the end or before a space. *)
Definition isWordOf (word s : gostring) : Prop :=
  exists l r,
    s = l ++ word ++ r
    /\ (l = [] \/ exists l', l = l' ++ [SP])
    /\ (r = [] \/ exists r', r = SP :: r').

(** [name] is the last element of [p]: [p] is [name] behind nothing or
    behind a slash, followed by slashes only. *)
Definition isLastElementOf (name p : gostring) : Prop :=
  exists pre k,
    p = pre ++ name ++ repeat SLASH k
    /\ (pre = [] \/ exists q, pre = q ++ [SLASH]).

(** The runes at the even places of a string. *)
Fixpoint everyOther (s : gostring) : gostring :=
  match s with
  | [] => []
  | c :: rest =>
      c :: match rest with
           | [] => []
           | _ :: rest' => everyOther rest'
           end
  end.

(** The atoms whose case of the switch writes a newline, and the nodes
    with an element of such an atom at or below them. *)
Definition breaksLine (a : atom.Atom) : bool :=
  match a with
  | atom.Br | atom.H1 | atom.H2 | atom.H3 | atom.H4 | atom.H5 | atom.H6
  | atom.P => true
  | _ => false
  end.

Fixpoint hasLineBreak (n : html.Node) : bool :=
  (html.isElementNode n && breaksLine (html.DataAtom n))
  || existsb hasLineBreak (html.Kids n).

(** The nodes [process] converts without a warning: texts, and elements of
    the atoms main.go names whose children, where they are converted, are
    such nodes. *)
Fixpoint quiet (n : html.Node) : bool :=
  match html.Type' n with
  | html.TextNode => true
  | html.ElementNode =>
      match html.DataAtom n with
      | atom.Br | atom.Img => true
      | atom.H1 | atom.H2 | atom.H3 | atom.H4 | atom.H5 | atom.H6 | atom.P
      | atom.Div | atom.Tt | atom.I | atom.A | atom.Span =>
          forallb quiet (html.Kids n)
      | _ => false
      end
  | _ => false
  end.

(** *** Notions for the index *)

(** The [meta] elements [getMetaInfo] looks at, whether one has a given
    name, and the field read for a name. *)
Definition metaElements (doc : gq.Document) : gq.Selection :=
  gq.Find sel_head_meta (gq.root doc).
Definition hasName (name : gostring) (m : gq.Loc) : bool :=
  gq.Match (sel_name name) (fst m) (snd m).
Definition metaField (doc : gq.Document) (name : gostring) : gostring :=
  gq.AttrOr (gq.Filter (metaElements doc) (sel_name name))
            (str "content") (str "Unknown").

(** *** Notions for the command line *)

(** The command line read from the left: "-dir" with its operand, "-dir"
    at the end, a call for help, another option, or an argument that is no
    option. *)
Inductive Token :=
| TDir (operand : gostring)
| TDangling
| THelp
| TUnknown (arg : gostring)
| TPos (arg : gostring).

Fixpoint tokens (args : list gostring) : list Token :=
  match args with
  | [] => []
  | arg :: rest =>
      if isOption arg
      then
        if streq arg (str "-dir")
        then match rest with
             | [] => [TDangling]
             | operand :: rest' => TDir operand :: tokens rest'
             end
        else if streq arg (str "--help") || streq arg (str "-h")
        then THelp :: tokens rest
        else TUnknown arg :: tokens rest
      else TPos arg :: tokens rest
  end.

Definition benign (t : Token) : bool :=
  match t with
  | TDir _ | TPos _ => true
  | _ => false
  end.

Fixpoint dirOperands (ts : list Token) : list gostring :=
  match ts with
  | [] => []
  | TDir d :: rest => d :: dirOperands rest
  | _ :: rest => dirOperands rest
  end.

Fixpoint positionals (ts : list Token) : list gostring :=
  match ts with
  | [] => []
  | TPos a :: rest => a :: positionals rest
  | _ :: rest => positionals rest
  end.

(** *** Notions for the run of the program *)

(** The URLs requested and the files written in a sequence of events. *)
Fixpoint gets (evs : list MainEvent) : list gostring :=
  match evs with
  | [] => []
  | EvGet u :: rest => u :: gets rest
  | _ :: rest => gets rest
  end.

Fixpoint writes (evs : list MainEvent) : list (gostring * gostring) :=
  match evs with
  | [] => []
  | EvWriteFile f d :: rest => (f, d) :: writes rest
  | _ :: rest => writes rest
  end.

Section World.

Variable http_Get : gostring -> Response + gostring.
Variable NewDocumentFromReader : gostring -> gq.Document + gostring.

(** A chapter converts: its page can be fetched and read and has no
    overrun. *)
Definition chapterOk (chapterUrl : gostring) : bool :=
  match fetchChapter http_Get NewDocumentFromReader chapterUrl with
  | inl doc => negb (overrun 0 (bodyChildren doc))
  | inr _ => false
  end.

(** What a chapter that converts adds to the buffer. *)
Definition chapterText (chapterUrl : gostring) : gostring :=
  match fetchChapter http_Get NewDocumentFromReader chapterUrl with
  | inl doc =>
      markdownOf (snd (findContent doc))
      ++ (if streq (path.Base chapterUrl) (str "titlepage.html")
          then separator ++ [NL] else [])
  | inr _ => []
  end.

End World.

(** *** An example run: the index of a book with one chapter *)

(** The atom of [meta], one of those main.go does not name. *)
Definition atom_Meta : atom.Atom := atom.Other 1.

Definition el_meta (name content : gostring) : html.Node :=
  element atom_Meta (str "meta")
          [attr (str "name") name; attr (str "content") content] [].

Definition faustIndex : gq.Document :=
  html.mkNode html.DocumentNode (atom.Other 0) [] []
    [element atom.Html (str "html") []
       [element atom.Head (str "head") []
          [el_meta (str "author") (str "Goethe");
           el_meta (str "title") (str "Faust");
           el_meta (str "firstpub") (str "1808")];
        element atom.Body (str "body") []
          [el_ul [el_li [el_a [attr (str "href") (str "teil1.html")]
                              [text (str "Teil 1")]]]]]].

Definition faustChapter : gq.Document :=
  page [marker; element atom.H1 (str "h1") [] [text (str "Faust")]; marker].

Definition faustIndexHtml : gostring :=
  str "<html><head><meta name='author' content='Goethe'><meta name='title' content='Faust'><meta name='firstpub' content='1808'></head><body><ul><li><a href='teil1.html'>Teil 1</a></li></ul></body></html>".
Definition faustChapterHtml : gostring :=
  str "<html><head></head><body><hr size='1' color='#808080'><h1>Faust</h1><hr size='1' color='#808080'></body></html>".

Definition faustRawUrl : gostring :=
  str "https://www.projekt-gutenberg.org/goethe/faust/faust.html".
Definition faustBaseUrl : gostring :=
  str "https://projekt-gutenberg.org/goethe/faust".

(** [url.Parse], the site and the HTML parser on what the example needs. *)
Definition url_Parse_faust (rawurl : gostring) : url.ParseResult :=
  if streq rawurl faustRawUrl
  then url.Parsed (url.mkURL (str "https") []
                             (str "www.projekt-gutenberg.org")
                             (str "/goethe/faust/faust.html") [] [])
  else url.ParseError (str "not an example").

Definition http_Get_faust (rawurl : gostring) : Response + gostring :=
  if streq rawurl faustBaseUrl
  then inl (mkResponse 200 faustIndexHtml)
  else if streq rawurl (faustBaseUrl ++ str "/teil1.html")
  then inl (mkResponse 200 faustChapterHtml)
  else inr (str "not an example").

Definition parse_faust (body : gostring) : gq.Document + gostring :=
  if streq body faustIndexHtml then inl faustIndex
  else if streq body faustChapterHtml then inl faustChapter
  else inr (str "not an example").
(** * Properties *)

(** ** Strings *)

Lemma rune_eqb_eq (a b : rune) : rune_eqb a b = true <-> a = b.
Proof. unfold rune_eqb. apply Z.eqb_eq. Qed.

Lemma rune_eqb_refl (a : rune) : rune_eqb a a = true.
Proof. apply rune_eqb_eq. reflexivity. Qed.

Lemma rune_eqb_neq (a b : rune) : rune_eqb a b = false <-> a <> b.
Proof. unfold rune_eqb. apply Z.eqb_neq. Qed.

Lemma rune_eqb_sym (a b : rune) : rune_eqb a b = rune_eqb b a.
Proof. unfold rune_eqb. apply Z.eqb_sym. Qed.

Lemma streq_eq (a b : gostring) : streq a b = true <-> a = b.
Proof.
  revert b. induction a as [|x a IH]; intros [|y b]; simpl; split;
    try congruence; try reflexivity.
  - rewrite andb_true_iff, rune_eqb_eq, IH. intros [-> ->]. reflexivity.
  - intros E. injection E as -> ->.
    rewrite rune_eqb_refl. simpl. apply IH. reflexivity.
Qed.

Lemma streq_refl (a : gostring) : streq a a = true.
Proof. apply streq_eq. reflexivity. Qed.

Lemma streq_neq (a b : gostring) : streq a b = false <-> a <> b.
Proof.
  split.
  - intros E H. apply streq_eq in H. congruence.
  - intros H. destruct (streq a b) eqn:E; [|reflexivity].
    apply streq_eq in E. contradiction.
Qed.

(** [strings.ReplaceAll(s, c, "")] with a one-rune [c] deletes the [c]s. *)
Lemma ReplaceAll_delete_rune (s : gostring) (c : rune) :
  strings.ReplaceAll s [c] [] = filter (fun x => negb (rune_eqb x c)) s.
Proof.
  unfold strings.ReplaceAll.
  induction s as [|x s IH]; [reflexivity|].
  cbn [strings.replace_scan strings.HasPrefix filter List.length Nat.sub app].
  rewrite andb_true_r, (rune_eqb_sym c x).
  destruct (rune_eqb x c); simpl; rewrite IH; reflexivity.
Qed.

Lemma splitOn_nonempty (c : rune) (s : gostring) : splitOn c s <> [].
Proof.
  destruct s as [|x s]; simpl; [discriminate|].
  destruct (rune_eqb c x); [discriminate|].
  destruct (splitOn c s); discriminate.
Qed.

Lemma split_scan_splitOn (c : rune) (s cur : gostring) :
  strings.split_scan [c] 0 cur s =
  match splitOn c s with
  | h :: t => (rev cur ++ h) :: t
  | [] => []
  end.
Proof.
  revert cur. induction s as [|x s IH]; intros cur.
  - simpl. rewrite app_nil_r. reflexivity.
  - cbn [strings.split_scan strings.HasPrefix List.length Nat.sub splitOn].
    rewrite andb_true_r.
    destruct (rune_eqb c x).
    + rewrite app_nil_r. f_equal. rewrite IH.
      destruct (splitOn c s); reflexivity.
    + rewrite IH. destruct (splitOn c s) as [|h t] eqn:E.
      * exfalso. exact (splitOn_nonempty c s E).
      * simpl. rewrite <- app_assoc. reflexivity.
Qed.

Lemma Split_rune (c : rune) (s : gostring) :
  strings.Split s [c] = splitOn c s.
Proof.
  unfold strings.Split. rewrite split_scan_splitOn.
  destruct (splitOn c s) eqn:E; [|reflexivity].
  exfalso. exact (splitOn_nonempty c s E).
Qed.

(** ** The text case of [process] *)

Lemma fold_textStep (s : gostring) (b : bool) (acc : gostring) :
  snd (fold_left textStep s (b, acc)) = acc ++ squeeze b s.
Proof.
  revert b acc. induction s as [|c s IH]; intros b acc.
  - simpl. rewrite app_nil_r. reflexivity.
  - simpl. destruct (rune_eqb c SP), b; rewrite IH;
      try rewrite <- app_assoc; reflexivity.
Qed.


Lemma runs_cons_head (c : rune) (s : gostring) :
  exists k rs, runs (c :: s) = (c, S k) :: rs.
Proof.
  simpl. destruct (runs s) as [|[d k] rs].
  - exists O, []. reflexivity.
  - destruct (rune_eqb c d) eqn:E.
    + apply rune_eqb_eq in E. subst d. exists k, rs. reflexivity.
    + exists O, ((d, k) :: rs). reflexivity.
Qed.

Lemma collapseRun_space (k : nat) : collapseRun (SP, S k) = [SP].
Proof. destruct k; reflexivity. Qed.

Lemma collapseRun_other (c : rune) (k : nat) :
  c <> SP -> collapseRun (c, k) = repeat c k.
Proof.
  intros H. unfold collapseRun. simpl.
  apply rune_eqb_neq in H. rewrite H. reflexivity.
Qed.

Lemma collapseSpaces_cons_other (c : rune) (s : gostring) :
  c <> SP -> collapseSpaces (c :: s) = c :: collapseSpaces s.
Proof.
  intros H. unfold collapseSpaces. simpl.
  destruct (runs s) as [|[d k] rs].
  - simpl. rewrite collapseRun_other by assumption. reflexivity.
  - destruct (rune_eqb c d) eqn:E.
    + apply rune_eqb_eq in E. subst d. simpl.
      rewrite !collapseRun_other by assumption. reflexivity.
    + simpl. rewrite (collapseRun_other c 1) by assumption. reflexivity.
Qed.

Lemma collapseSpaces_space_space (s : gostring) :
  collapseSpaces (SP :: SP :: s) = collapseSpaces (SP :: s).
Proof.
  unfold collapseSpaces.
  destruct (runs_cons_head SP s) as (k & rs & E).
  change (runs (SP :: SP :: s)) with
    (match runs (SP :: s) with
     | (d, k) :: rs =>
         if rune_eqb SP d then (d, S k) :: rs
         else (SP, 1%nat) :: (d, k) :: rs
     | [] => [(SP, 1%nat)]
     end).
  rewrite E, rune_eqb_refl. simpl flat_map.
  rewrite !collapseRun_space. reflexivity.
Qed.

Lemma collapseSpaces_space_other (c : rune) (s : gostring) :
  c <> SP -> collapseSpaces (SP :: c :: s) = SP :: collapseSpaces (c :: s).
Proof.
  intros H. unfold collapseSpaces.
  destruct (runs_cons_head c s) as (k & rs & E).
  change (runs (SP :: c :: s)) with
    (match runs (c :: s) with
     | (d, k) :: rs =>
         if rune_eqb SP d then (d, S k) :: rs
         else (SP, 1%nat) :: (d, k) :: rs
     | [] => [(SP, 1%nat)]
     end).
  rewrite E.
  assert (N : rune_eqb SP c = false) by (apply rune_eqb_neq; congruence).
  rewrite N. reflexivity.
Qed.

(** The loop collapses the runs of spaces, whether or not a space came
    just before. *)
Lemma squeeze_collapseSpaces (s : gostring) :
  squeeze false s = collapseSpaces s
  /\ SP :: squeeze true s = collapseSpaces (SP :: s).
Proof.
  induction s as [|c s [IHf IHt]].
  - split; reflexivity.
  - simpl squeeze. destruct (rune_eqb c SP) eqn:E.
    + apply rune_eqb_eq in E. subst c. split.
      * exact IHt.
      * rewrite collapseSpaces_space_space. exact IHt.
    + apply rune_eqb_neq in E. split.
      * rewrite collapseSpaces_cons_other by assumption. congruence.
      * rewrite collapseSpaces_space_other by assumption.
        rewrite collapseSpaces_cons_other by assumption. congruence.
Qed.

Lemma squeeze_incl (b : bool) (s : gostring) (x : rune) :
  In x (squeeze b s) -> In x s.
Proof.
  revert b. induction s as [|c s IH]; intros b; simpl; [tauto|].
  destruct (rune_eqb c SP), b; simpl; intros H;
    try (destruct H as [H|H]; [left; exact H|]); right; eapply IH; exact H.
Qed.

Lemma stripNewlines_no_newline (s : gostring) : ~ In NL (stripNewlines s).
Proof.
  unfold stripNewlines. intros H. apply filter_In in H. destruct H as [_ H].
  rewrite rune_eqb_refl in H. discriminate.
Qed.

Lemma stripNewlines_id (s : gostring) : ~ In NL s -> stripNewlines s = s.
Proof.
  unfold stripNewlines. induction s as [|c s IH]; intros H; [reflexivity|].
  simpl. destruct (rune_eqb c NL) eqn:E.
  - apply rune_eqb_eq in E. subst c. exfalso. apply H. left. reflexivity.
  - simpl. rewrite IH; [reflexivity|]. intros I. apply H. right. exact I.
Qed.

Lemma squeeze_no_double_space (s : gostring) :
  hasDoubleSpace (squeeze false s) = false
  /\ hasDoubleSpace (SP :: squeeze true s) = false.
Proof.
  induction s as [|c s [IHf IHt]].
  - split; reflexivity.
  - simpl squeeze. destruct (rune_eqb c SP) eqn:E.
    + apply rune_eqb_eq in E. subst c. split; exact IHt.
    + split.
      * destruct s as [|c' s]; [reflexivity|].
        change (hasDoubleSpace (c :: squeeze false (c' :: s))) with
          (match squeeze false (c' :: s) with
           | [] => false
           | b :: _ => (rune_eqb c SP && rune_eqb b SP)
                       || hasDoubleSpace (squeeze false (c' :: s))
           end).
        rewrite E, IHf. destruct (squeeze false (c' :: s)); reflexivity.
      * change (hasDoubleSpace (SP :: c :: squeeze false s)) with
          ((rune_eqb SP SP && rune_eqb c SP)
           || hasDoubleSpace (c :: squeeze false s)).
        rewrite E, andb_false_r. simpl orb.
        destruct (squeeze false s) as [|b t] eqn:Es; [reflexivity|].
        change (hasDoubleSpace (c :: b :: t)) with
          ((rune_eqb c SP && rune_eqb b SP) || hasDoubleSpace (b :: t)).
        rewrite E. exact IHf.
Qed.

Lemma squeeze_id (s : gostring) :
  (hasDoubleSpace s = false -> squeeze false s = s)
  /\ (hasDoubleSpace (SP :: s) = false -> squeeze true s = s).
Proof.
  induction s as [|c s [IHf IHt]].
  - split; reflexivity.
  - split.
    + intros H. simpl squeeze. destruct (rune_eqb c SP) eqn:E.
      * apply rune_eqb_eq in E. subst c. f_equal. apply IHt. exact H.
      * f_equal. apply IHf. destruct s as [|b t]; [reflexivity|].
        change (hasDoubleSpace (c :: b :: t)) with
          ((rune_eqb c SP && rune_eqb b SP) || hasDoubleSpace (b :: t)) in H.
        apply orb_false_iff in H. tauto.
    + intros H.
      change (hasDoubleSpace (SP :: c :: s)) with
        ((rune_eqb SP SP && rune_eqb c SP) || hasDoubleSpace (c :: s)) in H.
      apply orb_false_iff in H. destruct H as [H1 H2].
      rewrite rune_eqb_refl in H1. simpl in H1.
      simpl squeeze. rewrite H1. f_equal. apply IHf.
      destruct s as [|b t]; [reflexivity|].
      change (hasDoubleSpace (c :: b :: t)) with
        ((rune_eqb c SP && rune_eqb b SP) || hasDoubleSpace (b :: t)) in H2.
      apply orb_false_iff in H2. tauto.
Qed.

Lemma squeeze_last (s : gostring) (d : rune) :
  last (squeeze false s) d = last s d
  /\ last (SP :: squeeze true s) d = last (SP :: s) d.
Proof.
  induction s as [|c s [IHf IHt]].
  - split; reflexivity.
  - simpl squeeze. destruct (rune_eqb c SP) eqn:E.
    + apply rune_eqb_eq in E. subst c. split.
      * exact IHt.
      * rewrite IHt. reflexivity.
    + assert (L : last (c :: squeeze false s) d = last (c :: s) d).
      { destruct s as [|b t]; [reflexivity|].
        change (last (c :: b :: t) d) with (last (b :: t) d).
        rewrite <- IHf. simpl squeeze.
        destruct (rune_eqb b SP); reflexivity. }
      split; [exact L|].
      change (last (SP :: c :: s) d) with (last (c :: s) d).
      rewrite <- L. reflexivity.
Qed.

Lemma squeeze_keeps_other (b : bool) (s : gostring) :
  filter (fun c => negb (rune_eqb c SP)) (squeeze b s)
  = filter (fun c => negb (rune_eqb c SP)) s.
Proof.
  revert b. induction s as [|c s IH]; intros b; [reflexivity|].
  simpl. destruct (rune_eqb c SP) eqn:E.
  - destruct b; simpl; rewrite ?E; simpl; apply IH.
  - simpl. rewrite E. simpl. f_equal. apply IH.
Qed.

(** *** Decoding *)

Lemma ValidRune_spec (r : rune) :
  utf8.ValidRune r = true
  <-> (0 <= r < 55296) \/ (57343 < r <= 1114111).
Proof.
  unfold utf8.ValidRune, utf8.MaxRune.
  rewrite orb_true_iff, !andb_true_iff, !Z.leb_le, !Z.ltb_lt. tauto.
Qed.

Lemma follows_spec (lo hi : Z) (c : rune) :
  utf8.follows lo hi c = true -> lo <= utf8.rawByte c <= hi.
Proof.
  unfold utf8.follows. rewrite !andb_true_iff, !Z.leb_le. tauto.
Qed.

(** The leading bytes, with the second bytes that keep the code point
    above the shorter encodings, off the surrogates and within
    [utf8.MaxRune]. *)
Lemma leading_cases (b0 lo hi : Z) (more : nat) :
  utf8.leading b0 = Some (lo, hi, more) ->
  128 <= lo /\ hi <= 191
  /\ ((more = 0%nat /\ 194 <= b0 <= 223)
      \/ (more = 1%nat /\ 224 <= b0 <= 239
          /\ (b0 = 224 -> lo = 160) /\ (b0 = 237 -> hi = 159))
      \/ (more = 2%nat /\ 240 <= b0 <= 244
          /\ (b0 = 240 -> lo = 144) /\ (b0 = 244 -> hi = 143))).
Proof.
  unfold utf8.leading.
  repeat match goal with
         | |- context [if ?b then _ else _] => destruct b eqn:?
         end;
    intros H; try discriminate; injection H as <- <- <-;
    repeat match goal with
           | H : (_ && _) = true |- _ =>
               apply andb_true_iff in H; destruct H
           | H : (_ <=? _) = true |- _ => apply Z.leb_le in H
           | H : (_ =? _) = true |- _ => apply Z.eqb_eq in H
           end;
    lia.
Qed.

(** One decoding: a code point is yielded as it is; otherwise a rune that
    is no ASCII character is yielded, for one to four elements. *)
Lemma runesOf_step (c : rune) (rest : gostring) :
  exists r k,
    runesOf (c :: rest) = r :: runesOf (skipn k rest)
    /\ utf8.ValidRune r = true
    /\ ((utf8.ValidRune c = true /\ r = c /\ k = 0%nat)
        \/ (utf8.ValidRune c = false /\ 128 <= r)).
Proof.
  assert (Bad : forall tail,
             exists r k,
               utf8.RuneError :: runesOf rest = r :: runesOf (skipn k rest)
               /\ utf8.ValidRune r = true
               /\ ((utf8.ValidRune c = true /\ r = c /\ k = 0%nat)
                   \/ (tail = tt /\ 128 <= r))).
  { intros []. exists utf8.RuneError, 0%nat.
    split; [reflexivity|]. split; [reflexivity|]. right.
    split; [reflexivity|]. unfold utf8.RuneError. lia. }
  cbn [runesOf]. destruct (utf8.ValidRune c) eqn:V.
  { exists c, 0%nat. split; [reflexivity|]. split; [exact V|].
    left. repeat split. }
  assert (Bad' : exists r k,
             utf8.RuneError :: runesOf rest = r :: runesOf (skipn k rest)
             /\ utf8.ValidRune r = true
             /\ ((false = true /\ r = c /\ k = 0%nat)
                 \/ (false = false /\ 128 <= r))).
  { exists utf8.RuneError, 0%nat.
    split; [reflexivity|]. split; [reflexivity|]. right.
    split; [reflexivity|]. unfold utf8.RuneError. lia. }
  clear Bad. cbv zeta.
  destruct (utf8.leading (utf8.rawByte c)) as [[[lo hi] more]|] eqn:L;
    [|exact Bad'].
  apply leading_cases in L. destruct L as (Llo & Lhi & L).
  destruct rest as [|c1 rest1]; [exact Bad'|].
  destruct (utf8.follows lo hi c1) eqn:F1; cbn [negb]; [|exact Bad'].
  apply follows_spec in F1.
  destruct more as [|[|more]].
  - exists (utf8.rune2 (utf8.rawByte c) (utf8.rawByte c1)), 1%nat.
    split; [reflexivity|].
    destruct L as [[_ L]|[[X _]|[X _]]]; try discriminate.
    unfold utf8.rune2.
    split; [apply ValidRune_spec; lia|].
    right. split; [reflexivity|lia].
  - destruct L as [[X _]|[(_ & L & La & Lb)|[X _]]]; try discriminate.
    destruct rest1 as [|c2 rest2]; [exact Bad'|].
    destruct (utf8.follows 128 191 c2) eqn:F2; cbn [negb]; [|exact Bad'].
    apply follows_spec in F2.
    exists (utf8.rune3 (utf8.rawByte c) (utf8.rawByte c1) (utf8.rawByte c2)),
      2%nat.
    split; [reflexivity|]. unfold utf8.rune3.
    split; [apply ValidRune_spec; lia|].
    right. split; [reflexivity|lia].
  - destruct L as [[X _]|[[X _]|(X & L & La & Lb)]]; try discriminate.
    destruct rest1 as [|c2 rest2]; [exact Bad'|].
    destruct (utf8.follows 128 191 c2) eqn:F2; cbn [negb]; [|exact Bad'].
    apply follows_spec in F2.
    destruct rest2 as [|c3 rest3]; [exact Bad'|].
    destruct (utf8.follows 128 191 c3) eqn:F3; cbn [negb]; [|exact Bad'].
    apply follows_spec in F3.
    exists (utf8.rune4 (utf8.rawByte c) (utf8.rawByte c1) (utf8.rawByte c2)
                       (utf8.rawByte c3)), 3%nat.
    split; [reflexivity|]. unfold utf8.rune4.
    split; [apply ValidRune_spec; lia|].
    right. split; [reflexivity|lia].
Qed.

Lemma In_skipn {A} (x : A) (k : nat) (l : list A) :
  In x (skipn k l) -> In x l.
Proof.
  revert l. induction k as [|k IH]; intros l H; [exact H|].
  destruct l as [|a l]; [exact H|]. right. apply IH. exact H.
Qed.

(** Induction along the decodings. *)
Lemma runesOf_induction (P : gostring -> Prop) :
  P [] ->
  (forall c rest, (forall k, P (skipn k rest)) -> P (c :: rest)) ->
  forall s, P s.
Proof.
  intros P0 Pc.
  assert (G : forall n s, (List.length s <= n)%nat -> P s).
  { induction n as [|n IH]; intros s L.
    - destruct s; [exact P0|simpl in L; lia].
    - destruct s as [|c rest]; [exact P0|]. apply Pc. intros k.
      apply IH. rewrite length_skipn. simpl in L. lia. }
  intros s. exact (G (List.length s) s (Nat.le_refl _)).
Qed.

(** [range] yields code points only. *)
Lemma runesOf_valid (s : gostring) :
  Forall (fun r => utf8.ValidRune r = true) (runesOf s).
Proof.
  induction s as [|c rest IH] using runesOf_induction; [constructor|].
  destruct (runesOf_step c rest) as (r & k & E & V & _). rewrite E.
  constructor; [exact V|apply IH].
Qed.

(** An ASCII character is yielded only where it stands. *)
Lemma runesOf_ascii (x : rune) (s : gostring) :
  x < 128 -> In x (runesOf s) -> In x s.
Proof.
  intros X. induction s as [|c rest IH] using runesOf_induction;
    [intros []|].
  destruct (runesOf_step c rest) as (r & k & E & V & C). rewrite E.
  intros [<-|I].
  - destruct C as [(_ & -> & _)|[_ C]]; [left; reflexivity|lia].
  - right. apply (In_skipn x k). apply IH. exact I.
Qed.

Lemma runesOf_length (s : gostring) :
  (List.length (runesOf s) <= List.length s)%nat.
Proof.
  induction s as [|c rest IH] using runesOf_induction; [apply Nat.le_refl|].
  destruct (runesOf_step c rest) as (r & k & E & _). rewrite E.
  specialize (IH k). rewrite length_skipn in IH. simpl. lia.
Qed.

(** A string of code points is decoded to itself, and no other is. *)
Lemma runesOf_id (s : gostring) :
  runesOf s = s <-> forallb utf8.ValidRune s = true.
Proof.
  split.
  - intros E. apply forallb_forall. intros x I.
    pose proof (runesOf_valid s) as V. rewrite E in V.
    rewrite Forall_forall in V. exact (V x I).
  - induction s as [|c s IH]; [reflexivity|]. cbn [forallb].
    intros H. apply andb_true_iff in H. destruct H as [V H].
    cbn [runesOf]. rewrite V, (IH H). reflexivity.
Qed.

Lemma processText_squeeze (data : gostring) :
  processText data = squeeze false (runesOf (stripNewlines data)).
Proof.
  unfold processText. rewrite fold_textStep, ReplaceAll_delete_rune.
  reflexivity.
Qed.

Lemma processText_valid (data : gostring) :
  Forall (fun r => utf8.ValidRune r = true) (processText data).
Proof.
  rewrite processText_squeeze. apply Forall_forall. intros x I.
  apply squeeze_incl in I.
  pose proof (runesOf_valid (stripNewlines data)) as V.
  rewrite Forall_forall in V. exact (V x I).
Qed.

Lemma processText_no_newline (data : gostring) :
  ~ In NL (processText data).
Proof.
  rewrite processText_squeeze. intros H. apply squeeze_incl in H.
  apply runesOf_ascii in H; [|unfold NL; lia].
  exact (stripNewlines_no_newline data H).
Qed.

(** C2 as the claim states it fails: the text that is the one byte 0xFF
    holds no newline and no space, and it is not converted to itself but
    to U+FFFD. *)
Lemma C2_counterexample :
  html.Type' textInvalid = html.TextNode
  /\ ~ In NL (html.Data textInvalid)
  /\ ~ In SP (html.Data textInvalid)
  /\ hasDoubleSpace (html.Data textInvalid) = false
  /\ fst (process textInvalid) = [utf8.RuneError]
  /\ fst (process textInvalid) <> html.Data textInvalid.
Proof.
  split; [reflexivity|].
  split; [intros [H|[]]; discriminate|].
  split; [intros [H|[]]; discriminate|].
  split; [reflexivity|]. split; [reflexivity|]. discriminate.
Qed.

(** C2, amended. [process] on a text node prints nothing and returns the
    text without its newlines, decoded, with every run of two or more
    spaces turned into one space: [collapseSpaces] of the runes of
    [stripNewlines data].  The result holds no newline, no two spaces in a
    row and code points only, and keeps the runes that are no spaces in
    their order.  It is [data] itself exactly when [data] has no newline,
    no two spaces in a row and no byte outside a valid encoding.  Nothing
    is trimmed: the first and the last rune of the result are those of the
    decoded text without its newlines.  "a  b   c" becomes "a b c". *)
Theorem C2_text_conversion (n : html.Node) :
  html.Type' n = html.TextNode ->
  let data := html.Data n in
  let out := fst (process n) in
  snd (process n) = []
  /\ out = collapseSpaces (runesOf (stripNewlines data))
  /\ ~ In NL out
  /\ hasDoubleSpace out = false
  /\ Forall (fun r => utf8.ValidRune r = true) out
  /\ filter (fun c => negb (rune_eqb c SP)) out
     = filter (fun c => negb (rune_eqb c SP)) (runesOf (stripNewlines data))
  /\ (out = data
      <-> ~ In NL data /\ hasDoubleSpace data = false
          /\ forallb utf8.ValidRune data = true)
  /\ hd_error out = hd_error (runesOf (stripNewlines data))
  /\ (forall d, last out d = last (runesOf (stripNewlines data)) d)
  /\ fst (process (text (str "a  b   c"))) = str "a b c".
Proof.
  intros T.
  assert (E : process n = (processText (html.Data n), [])).
  { destruct n as [t a d attrs kids]. cbn [html.Type'] in T. subst t.
    reflexivity. }
  cbv zeta. rewrite E. cbn [fst snd]. set (data := html.Data n).
  pose proof (processText_no_newline data) as N.
  pose proof (processText_valid data) as V.
  rewrite processText_squeeze in *.
  assert (D : hasDoubleSpace (squeeze false (runesOf (stripNewlines data)))
              = false)
    by apply squeeze_no_double_space.
  split; [reflexivity|].
  split; [apply squeeze_collapseSpaces|].
  split; [exact N|]. split; [exact D|]. split; [exact V|].
  split; [apply squeeze_keeps_other|].
  split; [|split; [|split; [intros d; apply squeeze_last|reflexivity]]].
  - split.
    + intros H. rewrite H in N, D, V.
      split; [exact N|]. split; [exact D|].
      apply forallb_forall. rewrite Forall_forall in V. exact V.
    + intros (H1 & H2 & H3). rewrite (stripNewlines_id data H1).
      rewrite (proj2 (runesOf_id data) H3). apply squeeze_id. exact H2.
  - destruct (runesOf (stripNewlines data)) as [|c s]; [reflexivity|].
    simpl. destruct (rune_eqb c SP); reflexivity.
Qed.

Lemma C2_text_conversion_witness :
  fst (process (text ([SP] ++ str "a" ++ [NL; SP; SP] ++ str "b" ++ [SP])))
  = collapseSpaces (runesOf (stripNewlines
                               ([SP] ++ str "a" ++ [NL; SP; SP]
                                ++ str "b" ++ [SP]))).
Proof.
  exact (proj1 (proj2 (C2_text_conversion
                         (text ([SP] ++ str "a" ++ [NL; SP; SP]
                                ++ str "b" ++ [SP]))
                         eq_refl))).
Defined.

(** ** The console monad and the shape of [process] *)

Lemma fst_bind {T U} (m : Console T) (f : T -> Console U) :
  fst (bind m f) = fst (f (fst m)).
Proof.
  unfold bind. destruct m as [v out1]. simpl.
  destruct (f v). reflexivity.
Qed.

Lemma process_unfold (n : html.Node) :
  process n = processNode n (fun _ => processChildren n).
Proof. destruct n. reflexivity. Qed.

(** ** The "spaced" effect *)

Lemma spaced_loop (runes : gostring) (suf pre acc : gostring) :
  runes = pre ++ suf ->
  fold_left (spacedStep runes (Z.of_nat (List.length runes)))
            (seq (List.length pre) (List.length suf)) acc
  = acc ++ intersperse SP suf.
Proof.
  revert pre acc. induction suf as [|c suf IH]; intros pre acc E.
  - simpl. rewrite app_nil_r. reflexivity.
  - cbn [List.length seq fold_left].
    assert (E' : runes = (pre ++ [c]) ++ suf)
      by (rewrite <- app_assoc; exact E).
    specialize (IH (pre ++ [c])).
    rewrite length_app, Nat.add_1_r in IH.
    rewrite IH by exact E'.
    unfold spacedStep.
    assert (L : List.length runes
                = (List.length pre + S (List.length suf))%nat)
      by (rewrite E, length_app; reflexivity).
    assert (Nth : nth (List.length pre) runes 0 = c)
      by (rewrite E; apply nth_middle).
    rewrite Nth.
    destruct suf as [|c' suf].
    + replace (Z.of_nat (List.length pre) <?
               Z.of_nat (List.length runes) - 1) with false
        by (symmetry; apply Z.ltb_ge; simpl in L; lia).
      rewrite app_nil_r. reflexivity.
    + replace (Z.of_nat (List.length pre) <?
               Z.of_nat (List.length runes) - 1) with true
        by (symmetry; apply Z.ltb_lt; simpl in L; lia).
      change (intersperse SP (c :: c' :: suf))
        with (c :: SP :: intersperse SP (c' :: suf)).
      rewrite <- !app_assoc. reflexivity.
Qed.

(** The loop of the effect puts one space between adjacent runes. *)
Lemma addSpaced_intersperse (r : gostring) : addSpaced r = intersperse SP r.
Proof. unfold addSpaced. exact (spaced_loop r r [] [] eq_refl). Qed.

Lemma intersperse_length (sep : rune) (s : gostring) :
  List.length (intersperse sep s) = (2 * List.length s - 1)%nat.
Proof.
  induction s as [|c s IH]; [reflexivity|].
  destruct s as [|c' s]; [reflexivity|].
  change (intersperse sep (c :: c' :: s))
    with (c :: sep :: intersperse sep (c' :: s)).
  cbn [List.length] in *. lia.
Qed.

Lemma intersperse_nth_even (sep : rune) (s : gostring) (i : nat) (d : rune) :
  (i < List.length s)%nat -> nth (2 * i) (intersperse sep s) d = nth i s d.
Proof.
  revert i. induction s as [|c s IH]; intros i H; [simpl in H; lia|].
  destruct i as [|i].
  - destruct s; reflexivity.
  - destruct s as [|c' s]; [simpl in H; lia|].
    change (intersperse sep (c :: c' :: s))
      with (c :: sep :: intersperse sep (c' :: s)).
    replace (2 * S i)%nat with (S (S (2 * i))) by lia.
    cbn [nth]. apply IH. simpl in *. lia.
Qed.

Lemma intersperse_nth_odd (sep : rune) (s : gostring) (i : nat) (d : rune) :
  (i + 1 < List.length s)%nat -> nth (2 * i + 1) (intersperse sep s) d = sep.
Proof.
  revert i. induction s as [|c s IH]; intros i H; [simpl in H; lia|].
  destruct s as [|c' s]; [simpl in H; lia|].
  change (intersperse sep (c :: c' :: s))
    with (c :: sep :: intersperse sep (c' :: s)).
  destruct i as [|i]; [reflexivity|].
  replace (2 * S i + 1)%nat with (S (S (2 * i + 1))) by lia.
  cbn [nth]. apply IH. simpl in *. lia.
Qed.

(** What [process] returns for an element, before and after the effect. *)
Lemma process_element (n : html.Node) :
  html.Type' n = html.ElementNode ->
  fst (process n) =
  let formatted := fst (transformElement n (fun _ => processChildren n)) in
  if hasClass n (str "spaced") then addSpaced formatted else formatted.
Proof.
  intros T. rewrite process_unfold. unfold processNode. rewrite T.
  rewrite fst_bind. cbv zeta.
  destruct (hasClass n (str "spaced")); reflexivity.
Qed.

(** C3. An element that carries the class "spaced" converts to the output
    of the switch on its tag with exactly one space put between every two
    adjacent runes of that output and none before or after: a formatted
    output of [k] runes becomes one of [2k - 1] runes whose even places
    hold the runes of the formatted output and whose odd places hold a
    space.  [<span class="spaced">ab</span>], formatted "ab", gives "a b";
    [<i class="spaced">word</i>], formatted "_word_", gives
    "_ w o r d _". *)
Theorem C3_spaced_effect (n : html.Node) :
  html.Type' n = html.ElementNode ->
  hasClass n (str "spaced") = true ->
  let formatted := fst (transformElement n (fun _ => processChildren n)) in
  let out := fst (process n) in
  out = intersperse SP formatted
  /\ List.length out = (2 * List.length formatted - 1)%nat
  /\ (forall i d, (i < List.length formatted)%nat ->
                  nth (2 * i) out d = nth i formatted d)
  /\ (forall i d, (i + 1 < List.length formatted)%nat ->
                  nth (2 * i + 1) out d = SP)
  /\ fst (process spacedSpan) = str "a b"
  /\ fst (transformElement spacedItalic
            (fun _ => processChildren spacedItalic)) = str "_word_"
  /\ fst (process spacedItalic) = str "_ w o r d _".
Proof.
  intros T C formatted out.
  assert (E : out = intersperse SP formatted).
  { unfold out. rewrite (process_element n T). cbv zeta. rewrite C.
    apply addSpaced_intersperse. }
  rewrite E. repeat split.
  - apply intersperse_length.
  - intros i d H. apply intersperse_nth_even. exact H.
  - intros i d H. apply intersperse_nth_odd. exact H.
Qed.

Lemma C3_spaced_effect_witness :
  fst (process spacedItalic)
  = intersperse SP (fst (transformElement spacedItalic
                           (fun _ => processChildren spacedItalic))).
Proof.
  exact (proj1 (C3_spaced_effect spacedItalic eq_refl eq_refl)).
Defined.

(** ** Paragraphs *)

Lemma transformElement_P (n : html.Node)
  (pc : unit -> Console gostring) :
  html.DataAtom n = atom.P ->
  fst (transformElement n pc) =
  if hasClass n (str "centerbig")
  then str "#### " ++ fst (pc tt) ++ [NL; NL]
  else fst (pc tt) ++ [NL; NL].
Proof.
  intros A. unfold transformElement. rewrite A.
  destruct (hasClass n (str "centerbig")); rewrite fst_bind; reflexivity.
Qed.

(** C9 as the claim states it fails: [<p class="spaced">ab</p>] is a
    paragraph without the class "centerbig" whose children convert to
    "ab", and it converts to "a b \n \n", not to "ab\n\n". *)
Lemma C9_counterexample :
  html.Type' spacedParagraph = html.ElementNode
  /\ html.DataAtom spacedParagraph = atom.P
  /\ hasClass spacedParagraph (str "centerbig") = false
  /\ fst (processChildren spacedParagraph) = str "ab"
  /\ fst (process spacedParagraph) = str "a b " ++ [NL; SP; NL]
  /\ fst (process spacedParagraph)
     <> fst (processChildren spacedParagraph) ++ [NL; NL].
Proof.
  repeat split. vm_compute. discriminate.
Qed.

(** C9, amended. A paragraph element is formatted as "#### ", its
    converted children and two newlines when it carries the class
    "centerbig", and as its converted children and two newlines when it
    does not; that string is what the paragraph converts to unless it also
    carries the class "spaced", and then it converts to that string with
    one space between every two adjacent runes. *)
Theorem C9_paragraph (n : html.Node) :
  html.Type' n = html.ElementNode ->
  html.DataAtom n = atom.P ->
  let children := fst (processChildren n) in
  let formatted :=
    if hasClass n (str "centerbig")
    then str "#### " ++ children ++ [NL; NL]
    else children ++ [NL; NL] in
  fst (process n) =
  if hasClass n (str "spaced") then intersperse SP formatted else formatted.
Proof.
  intros T A children formatted.
  rewrite (process_element n T). cbv zeta.
  rewrite (transformElement_P n _ A).
  fold children. fold formatted.
  rewrite addSpaced_intersperse. reflexivity.
Qed.

Lemma C9_paragraph_witness :
  fst (process bigParagraph) = str "#### ab" ++ [NL; NL]
  /\ fst (process plainParagraph) = str "ab" ++ [NL; NL].
Proof.
  split.
  - exact (C9_paragraph bigParagraph eq_refl eq_refl).
  - exact (C9_paragraph plainParagraph eq_refl eq_refl).
Defined.

(** ** The scan of the children of the body *)

Lemma contentFilter_cases (v : FilterVars) (i : Z) (s : gq.Loc) :
  contentFilter v i s =
  if isMarker s then (mkFilterVars (passedHrs v + 1) (err v), false)
  else if isNavLink s then (v, false)
  else if passedHrs v =? 1 then (v, true)
  else if (passedHrs v =? 0) || (passedHrs v =? 2) then (v, false)
  else (mkFilterVars (passedHrs v) (Some ErrParsingPage), false).
Proof.
  unfold contentFilter, isMarker, isNavLink.
  destruct (gq.Is s sel_hr); [reflexivity|].
  destruct (gq.Is s sel_a
            && (streq (gq.Text s) zurueck || streq (gq.Text s) weiter));
    [reflexivity|].
  destruct (passedHrs v) as [|p|p]; [reflexivity| |reflexivity].
  destruct p as [q|q|]; [reflexivity| |reflexivity].
  destruct q; reflexivity.
Qed.

(** The closure does not look at the index. *)
Lemma FilterFunction_index (cs : gq.Selection) (i j : Z) (v : FilterVars) :
  gq.FilterFunction contentFilter i cs v
  = gq.FilterFunction contentFilter j cs v.
Proof.
  revert i j v. induction cs as [|c cs IH]; intros i j v; [reflexivity|].
  simpl. rewrite !contentFilter_cases.
  destruct (isMarker c); [rewrite (IH (i + 1) (j + 1)); reflexivity|].
  destruct (isNavLink c); [rewrite (IH (i + 1) (j + 1)); reflexivity|].
  destruct (passedHrs v =? 1); [rewrite (IH (i + 1) (j + 1)); reflexivity|].
  destruct ((passedHrs v =? 0) || (passedHrs v =? 2));
    rewrite (IH (i + 1) (j + 1)); reflexivity.
Qed.

Lemma FilterFunction_cons (c : gq.Loc) (cs : gq.Selection) (i : Z)
  (v : FilterVars) :
  gq.FilterFunction contentFilter i (c :: cs) v =
  let r := gq.FilterFunction contentFilter i cs (fst (contentFilter v i c)) in
  (fst r, if snd (contentFilter v i c) then c :: snd r else snd r).
Proof.
  simpl. destruct (contentFilter v i c) as [v1 keep]. simpl.
  rewrite (FilterFunction_index cs (i + 1) i).
  destruct (gq.FilterFunction contentFilter i cs v1). reflexivity.
Qed.

(** A link with the text of a button is not a marker. *)
Lemma navLink_not_marker (s : gq.Loc) :
  isNavLink s = true -> isMarker s = false.
Proof.
  unfold isNavLink, isMarker, gq.Is, sel_a, sel_hr. simpl.
  intros H. apply andb_true_iff in H. destruct H as [H _].
  apply andb_true_iff in H. destruct H as [_ H].
  apply streq_eq in H. rewrite H. rewrite !andb_false_r. reflexivity.
Qed.

Lemma markerCount_cons (c : gq.Loc) (cs : gq.Selection) :
  markerCount (c :: cs) = (if isMarker c then 1 else 0) + markerCount cs.
Proof.
  unfold markerCount. simpl. destruct (isMarker c); simpl List.length; lia.
Qed.

(** A child is kept only when exactly one marker stands before it, and it
    is neither a marker nor a button. *)
Lemma scan_kept (cs : gq.Selection) (i k : Z) (e : option error)
  (s : gq.Loc) :
  In s (snd (gq.FilterFunction contentFilter i cs (mkFilterVars k e))) ->
  exists pre post,
    cs = pre ++ s :: post /\ k + markerCount pre = 1
    /\ isMarker s = false /\ isNavLink s = false.
Proof.
  revert k e. induction cs as [|c cs IH]; intros k e H; [contradiction|].
  rewrite FilterFunction_cons, contentFilter_cases in H. cbv zeta in H.
  cbn [passedHrs err] in H.
  assert (Push : forall k' e',
             In s (snd (gq.FilterFunction contentFilter i cs
                          (mkFilterVars k' e'))) ->
             k' = k + (if isMarker c then 1 else 0) ->
             exists pre post,
               c :: cs = pre ++ s :: post /\ k + markerCount pre = 1
               /\ isMarker s = false /\ isNavLink s = false).
  { intros k' e' I K. destruct (IH k' e' I) as (pre & post & E & M & R).
    exists (c :: pre), post. split; [rewrite E; reflexivity|].
    split; [rewrite markerCount_cons; lia|exact R]. }
  destruct (isMarker c) eqn:Mc; simpl in H.
  - eapply Push; [exact H|lia].
  - destruct (isNavLink c) eqn:Nc; simpl in H.
    + eapply Push; [exact H|lia].
    + destruct (k =? 1) eqn:K1; simpl in H.
      * destruct H as [H|H].
        -- subst s. exists [], cs. apply Z.eqb_eq in K1.
           repeat split; try assumption. unfold markerCount. simpl. lia.
        -- eapply Push; [exact H|lia].
      * destruct ((k =? 0) || (k =? 2)); simpl in H;
          (eapply Push; [exact H|lia]).
Qed.


(** The error of the scan: [ErrParsingPage] exactly on an overrun. *)
Lemma scan_err (cs : gq.Selection) (i k : Z) (e : option error) :
  0 <= k ->
  err (fst (gq.FilterFunction contentFilter i cs (mkFilterVars k e)))
  = if overrun k cs then Some ErrParsingPage else e.
Proof.
  revert k e. induction cs as [|c cs IH]; intros k e K; [reflexivity|].
  rewrite FilterFunction_cons, contentFilter_cases. cbv zeta.
  cbn [passedHrs err overrun].
  destruct (isMarker c); simpl fst.
  - apply IH. lia.
  - destruct (isNavLink c); simpl fst; [apply IH; lia|].
    destruct (k =? 1) eqn:K1; simpl fst.
    + rewrite IH by lia.
      replace (3 <=? k) with false
        by (symmetry; apply Z.leb_gt; apply Z.eqb_eq in K1; lia).
      reflexivity.
    + destruct ((k =? 0) || (k =? 2)) eqn:K02; simpl fst.
      * rewrite IH by lia.
        replace (3 <=? k) with false; [reflexivity|].
        symmetry. apply Z.leb_gt. apply orb_true_iff in K02.
        destruct K02 as [H|H]; apply Z.eqb_eq in H; lia.
      * rewrite IH by lia.
        replace (3 <=? k) with true.
        -- simpl. destruct (overrun k cs); reflexivity.
        -- symmetry. apply Z.leb_le. apply orb_false_iff in K02.
           destruct K02 as [H0 H2].
           apply Z.eqb_neq in K1, H0, H2. lia.
Qed.


(** ** parseAdditionalPage *)

Lemma findContent_scan (doc : gq.Document) :
  findContent doc = scanChildren (bodyChildren doc).
Proof. reflexivity. Qed.

Lemma withW_W (e : Extractor) : withW e (W e) = e.
Proof. destruct e. reflexivity. Qed.

Lemma writeStep_spec (e : Extractor) (out : list ConsoleEvent) (s : gq.Loc) :
  writeStep (e, out) s
  = (Fprint e (fst (process (snd s))), out ++ snd (process (snd s))).
Proof.
  unfold writeStep, bind, ret. destruct (process (snd s)) as [p w].
  cbn [fst snd]. rewrite app_nil_r. reflexivity.
Qed.

Lemma writeContent_loop (content : gq.Selection) (e : Extractor)
  (out : list ConsoleEvent) :
  fold_left writeStep content (e, out)
  = (withW e (W e ++ markdownOf content), out ++ warningsOf content).
Proof.
  revert e out. induction content as [|s content IH]; intros e out.
  - simpl. rewrite !app_nil_r, withW_W. reflexivity.
  - cbn [fold_left]. rewrite writeStep_spec, IH.
    unfold markdownOf, warningsOf. cbn [flat_map].
    unfold Fprint, withW. cbn [W BaseUrl Meta ChapterUrls].
    rewrite <- !app_assoc. reflexivity.
Qed.

Lemma writeContent_spec (e : Extractor) (content : gq.Selection) :
  writeContent e content
  = (withW e (W e ++ markdownOf content), warningsOf content).
Proof. unfold writeContent, ret. apply writeContent_loop. Qed.

(** [parseAdditionalPage] in one equation: on an overrun the extractor is
    returned as it was with [ErrParsingPage]; otherwise the Markdown of the
    kept children is written. *)
Lemma parseAdditionalPage_spec (e : Extractor) (doc : gq.Document) :
  parseAdditionalPage e doc =
  if overrun 0 (bodyChildren doc)
  then ((e, Some ErrParsingPage), [])
  else ((withW e (W e ++ markdownOf (snd (findContent doc))), None),
        warningsOf (snd (findContent doc))).
Proof.
  unfold parseAdditionalPage.
  pose proof (scan_err (bodyChildren doc) 0 0 None (Z.le_refl 0)) as E.
  fold (scanChildren (bodyChildren doc)) in E.
  rewrite <- findContent_scan in E.
  destruct (findContent doc) as [v content]. cbn [fst snd] in *.
  rewrite E. destruct (overrun 0 (bodyChildren doc)); [reflexivity|].
  rewrite writeContent_spec. unfold bind, ret.
  rewrite app_nil_r. reflexivity.
Qed.

(** C1, the case the code misses: a page whose body is marker, paragraph,
    marker, marker has three markers, and [parseAdditionalPage] returns no
    error on it and writes the paragraph. *)
Theorem C1_third_marker_last_child :
  markerCount (bodyChildren pageThreeMarkers) = 3
  /\ parseAdditionalPage e0 pageThreeMarkers
     = ((withW e0 (str "x" ++ [NL; NL]), None), []).
Proof. split; reflexivity. Qed.



(** C10. When [parseAdditionalPage] fails with [ErrParsingPage] it has
    written nothing: the extractor, and with it the buffer behind its
    writer, is returned as it was, and nothing went to the console.
    [FetchAndProcessChapter] on such a page returns the same, so the
    chapter leaves the buffer unchanged. *)
Theorem C10_failure_writes_nothing
  (fetchDocument : gostring -> gq.Document + gostring)
  (e : Extractor) (chapterUrl : gostring) (doc : gq.Document) :
  snd (fst (parseAdditionalPage e doc)) = Some ErrParsingPage ->
  parseAdditionalPage e doc = ((e, Some ErrParsingPage), [])
  /\ W (fst (fst (parseAdditionalPage e doc))) = W e
  /\ (fetchDocument chapterUrl = inl doc ->
      FetchAndProcessChapter fetchDocument e chapterUrl
      = ((e, Some ErrParsingPage), [])).
Proof.
  intros H.
  assert (P : parseAdditionalPage e doc = ((e, Some ErrParsingPage), [])).
  { rewrite parseAdditionalPage_spec in *.
    destruct (overrun 0 (bodyChildren doc)); [reflexivity|discriminate]. }
  split; [exact P|]. split; [rewrite P; reflexivity|].
  intros F. unfold FetchAndProcessChapter. rewrite F, P. reflexivity.
Qed.

Lemma C10_failure_writes_nothing_witness :
  parseAdditionalPage e0 pageOverrun = ((e0, Some ErrParsingPage), [])
  /\ FetchAndProcessChapter (fun _ => inl pageOverrun) e0
       (str "https://projekt-gutenberg.org/a/b/chap001.html")
     = ((e0, Some ErrParsingPage), []).
Proof.
  pose proof (C10_failure_writes_nothing (fun _ => inl pageOverrun) e0
                (str "https://projekt-gutenberg.org/a/b/chap001.html")
                pageOverrun eq_refl) as H.
  split; [exact (proj1 H)|exact (proj2 (proj2 H) eq_refl)].
Defined.

(** ** The buttons *)

(** The scan gives the same result with and without the buttons among the
    children. *)
Lemma scan_skips_navLinks (cs : gq.Selection) (i : Z) (v : FilterVars) :
  gq.FilterFunction contentFilter i cs v
  = gq.FilterFunction contentFilter i
      (filter (fun s => negb (isNavLink s)) cs) v.
Proof.
  revert v. induction cs as [|c cs IH]; intros v; [reflexivity|].
  rewrite FilterFunction_cons. cbn [filter].
  destruct (isNavLink c) eqn:N; cbn [negb].
  - rewrite contentFilter_cases, (navLink_not_marker c N), N.
    cbv zeta. cbn [fst snd]. rewrite <- IH.
    destruct (gq.FilterFunction contentFilter i cs v). reflexivity.
  - rewrite FilterFunction_cons. cbv zeta. rewrite <- IH. reflexivity.
Qed.

(** C5 as the claim states it fails: on the page marker, paragraph,
    marker whose paragraph holds a link with the text of the "weiter"
    button, the link lies between the two markers, extraction succeeds,
    and the text of the link is the Markdown returned (followed by the two
    newlines of the paragraph). *)
Lemma C5_counterexample :
  gq.Is ([], navLink) sel_a = true
  /\ gq.Text ([], navLink) = weiter
  /\ existsb (fun s => hasNavLinkWithin (fst s) (snd s))
             (snd (findContent pageNestedNav)) = true
  /\ snd (fst (parseAdditionalPage e0 pageNestedNav)) = None
  /\ W (fst (fst (parseAdditionalPage e0 pageNestedNav)))
     = weiter ++ [NL; NL]
  /\ contains (W (fst (fst (parseAdditionalPage e0 pageNestedNav))))
              weiter = true.
Proof. repeat split. Qed.

(** C5, amended. A child of the body that is a link element whose text is
    exactly the text of one of the two buttons is discarded wherever it
    stands among the children of the body: the scan returns what it
    returns on the children without these links, no such link is among the
    converted nodes, and a successful extraction appends exactly the
    Markdown of the converted nodes.  (Links below a child of the body are
    not looked at.) *)
Theorem C5_buttons_among_body_children (e : Extractor)
  (doc : gq.Document) :
  findContent doc
  = scanChildren (filter (fun s => negb (isNavLink s)) (bodyChildren doc))
  /\ (forall s, In s (snd (findContent doc)) -> isNavLink s = false)
  /\ (forall pre s post,
        bodyChildren doc = pre ++ s :: post -> isNavLink s = true ->
        findContent doc = scanChildren (pre ++ post))
  /\ (snd (fst (parseAdditionalPage e doc)) = None ->
      W (fst (fst (parseAdditionalPage e doc)))
      = W e ++ markdownOf (snd (findContent doc))).
Proof.
  split; [|split; [|split]].
  - rewrite findContent_scan. apply scan_skips_navLinks.
  - intros s H. rewrite findContent_scan in H. apply scan_kept in H.
    destruct H as (pre & post & _ & _ & _ & N). exact N.
  - intros pre s post E N. rewrite findContent_scan, E. unfold scanChildren.
    rewrite scan_skips_navLinks, (scan_skips_navLinks (pre ++ post)).
    rewrite !filter_app. cbn [filter]. rewrite N. reflexivity.
  - rewrite parseAdditionalPage_spec.
    destruct (overrun 0 (bodyChildren doc)); [discriminate|].
    intros _. reflexivity.
Qed.

Lemma C5_buttons_among_body_children_witness :
  W (fst (fst (parseAdditionalPage e0 pageNav))) = str "x" ++ [NL; NL].
Proof.
  exact (proj2 (proj2 (proj2 (C5_buttons_among_body_children e0 pageNav)))
           eq_refl).
Defined.

(** ** FetchAndProcessChapter *)

(** C4 as the claim states it fails: for the URL of a title page the text
    appended after the content "x\n\n" of the chapter is the separator and
    one more newline, so the buffer is not the content followed by exactly
    "\n----------------\n". *)
Lemma C4_counterexample :
  path.Base titleUrl = str "titlepage.html"
  /\ markdownOf (snd (findContent pageTitle)) = str "x" ++ [NL; NL]
  /\ W (fst (fst (FetchAndProcessChapter (fun _ => inl pageTitle) e0
                    titleUrl)))
     = W e0 ++ (str "x" ++ [NL; NL]) ++ separator ++ [NL]
  /\ W (fst (fst (FetchAndProcessChapter (fun _ => inl pageTitle) e0
                    titleUrl)))
     <> W e0 ++ (str "x" ++ [NL; NL]) ++ separator.
Proof. repeat split. vm_compute. discriminate. Qed.

(** C4, amended. When the page of a chapter is fetched and extracted
    without error, [FetchAndProcessChapter] leaves in the buffer what was
    there, then the converted content of the chapter, and then, when
    [path.Base] of the chapter URL is exactly "titlepage.html", the
    separator "\n----------------\n" followed by one newline (the line
    end of [Fprintln]); for every other URL nothing follows the content. *)
Theorem C4_separator_after_title_page
  (fetchDocument : gostring -> gq.Document + gostring)
  (e : Extractor) (chapterUrl : gostring) (doc : gq.Document) :
  fetchDocument chapterUrl = inl doc ->
  snd (fst (parseAdditionalPage e doc)) = None ->
  let content := markdownOf (snd (findContent doc)) in
  W (fst (fst (parseAdditionalPage e doc))) = W e ++ content
  /\ FetchAndProcessChapter fetchDocument e chapterUrl
     = ((withW e (W e ++ content
                  ++ (if streq (path.Base chapterUrl) (str "titlepage.html")
                      then separator ++ [NL] else [])),
         None),
        warningsOf (snd (findContent doc))).
Proof.
  intros F P content. unfold FetchAndProcessChapter. rewrite F.
  rewrite parseAdditionalPage_spec in *.
  destruct (overrun 0 (bodyChildren doc)); [discriminate|].
  split; [reflexivity|].
  unfold bind, ret. cbn [fst snd].
  destruct (streq (path.Base chapterUrl) (str "titlepage.html")).
  - unfold Fprintln, withW, separator. cbn [W BaseUrl Meta ChapterUrls].
    fold content. rewrite !app_nil_r, <- !app_assoc. reflexivity.
  - fold content. rewrite !app_nil_r. reflexivity.
Qed.

Lemma C4_separator_after_title_page_witness :
  FetchAndProcessChapter (fun _ => inl pageTitle) e0 titleUrl
  = ((withW e0 (str "x" ++ [NL; NL] ++ separator ++ [NL]), None), [])
  /\ FetchAndProcessChapter (fun _ => inl pageTitle) e0 chapterUrl1
     = ((withW e0 (str "x" ++ [NL; NL]), None), []).
Proof.
  split.
  - exact (proj2 (C4_separator_after_title_page (fun _ => inl pageTitle)
                    e0 titleUrl pageTitle eq_refl eq_refl)).
  - exact (proj2 (C4_separator_after_title_page (fun _ => inl pageTitle)
                    e0 chapterUrl1 pageTitle eq_refl eq_refl)).
Defined.

(** ** Trees and selections *)

(** Induction on a node with the property in hand for all its children. *)
Lemma Node_forall_ind (P : html.Node -> Prop)
  (step : forall t a d attrs kids,
      Forall P kids -> P (html.mkNode t a d attrs kids)) :
  forall n, P n.
Proof.
  fix F 1. intros [t a d attrs kids]. apply step.
  induction kids as [|c kids IH]; constructor; [apply F|exact IH].
Qed.

(** Every node [MatchAll] returns matches the selector where it stands. *)
Lemma MatchAll_sound (sel : gq.Selector) (n : html.Node) :
  forall anc x, In x (gq.MatchAll sel anc n) ->
                gq.Match sel (fst x) (snd x) = true.
Proof.
  induction n as [t a d attrs kids IH] using Node_forall_ind.
  intros anc x H. cbn [gq.MatchAll html.Kids] in H.
  apply in_app_or in H. destruct H as [H|H].
  - destruct (gq.Match sel anc (html.mkNode t a d attrs kids)) eqn:M;
      [|contradiction].
    destruct H as [<-|[]]. exact M.
  - apply in_flat_map in H. destruct H as (c & Ic & Hx).
    rewrite Forall_forall in IH. exact (IH c Ic _ x Hx).
Qed.

Lemma Find_sound (sel : gq.Selector) (s x : gq.Loc) :
  In x (gq.Find sel s) -> gq.Match sel (fst x) (snd x) = true.
Proof.
  destruct s as [anc n]. unfold gq.Find. intros H.
  apply in_flat_map in H. destruct H as (c & _ & Hx).
  destruct (html.isElementNode c); [|contradiction].
  exact (MatchAll_sound sel c _ x Hx).
Qed.

Lemma getAttributeValue_found (name : gostring)
  (attrs : list html.Attribute) :
  existsb (fun a => streq (html.Key a) name && true) attrs = true ->
  exists x, In x attrs /\ html.Key x = name
            /\ gq.getAttributeValue name attrs = (html.Val x, true).
Proof.
  induction attrs as [|a attrs IH]; [discriminate|].
  cbn [existsb gq.getAttributeValue]. rewrite andb_true_r.
  destruct (streq (html.Key a) name) eqn:E.
  - intros _. exists a. apply streq_eq in E.
    split; [left; reflexivity|]. split; [exact E|reflexivity].
  - cbn [orb]. intros H. destruct (IH H) as (x & I & K & G).
    exists x. split; [right; exact I|]. split; [exact K|exact G].
Qed.

(** ** getChapters *)

Lemma chapterStep_Ok (baseUrl : gostring) (urls : list gostring)
  (li : gq.Loc) :
  chapterStep baseUrl (Ok urls) li =
  if hasChapterLink li then Ok (urls ++ [chapterUrlOf baseUrl li])
  else Panic (str "missing link in chapter index").
Proof.
  unfold chapterStep, hasChapterLink, chapterUrlOf, chapterLinks.
  destruct (Z.of_nat (List.length (gq.Find sel_a_href li)) =? 0);
    reflexivity.
Qed.

Lemma chapterStep_loop_Panic (baseUrl msg : gostring)
  (items : gq.Selection) :
  fold_left (chapterStep baseUrl) items (Panic msg) = Panic msg.
Proof. induction items as [|li items IH]; [reflexivity|exact IH]. Qed.

Lemma chapterStep_loop (baseUrl : gostring) (items : gq.Selection)
  (urls : list gostring) :
  fold_left (chapterStep baseUrl) items (Ok urls) =
  if forallb hasChapterLink items
  then Ok (urls ++ map (chapterUrlOf baseUrl) items)
  else Panic (str "missing link in chapter index").
Proof.
  revert urls. induction items as [|li items IH]; intros urls.
  - simpl. rewrite app_nil_r. reflexivity.
  - cbn [fold_left forallb map]. rewrite chapterStep_Ok.
    destruct (hasChapterLink li); cbn [andb].
    + rewrite IH. rewrite <- app_assoc. reflexivity.
    + apply chapterStep_loop_Panic.
Qed.

(** [getChapters] in one equation. *)
Lemma getChapters_spec (baseUrl : gostring) (doc : gq.Document) :
  getChapters baseUrl doc =
  if forallb hasChapterLink (listItems doc)
  then match listItems doc with
       | [] => Err ErrNoChaptersFound
       | _ :: _ => Ok (map (chapterUrlOf baseUrl) (listItems doc))
       end
  else Panic (str "missing link in chapter index").
Proof.
  unfold getChapters. fold (listItems doc). rewrite chapterStep_loop.
  destruct (forallb hasChapterLink (listItems doc)); [|reflexivity].
  destruct (listItems doc); reflexivity.
Qed.

Lemma hasChapterLink_true (li : gq.Loc) :
  hasChapterLink li = true <-> chapterLinks li <> [].
Proof.
  unfold hasChapterLink. destruct (chapterLinks li); simpl; split;
    congruence.
Qed.

(** The URL made of a list item ends in the value of an [href] attribute
    of the first link found in it. *)
Lemma chapterUrlOf_href (baseUrl : gostring) (li : gq.Loc) :
  chapterLinks li <> [] ->
  exists anc a rest x,
    chapterLinks li = (anc, a) :: rest
    /\ html.isElementNode a = true /\ html.Data a = str "a"
    /\ In x (html.Attr a) /\ html.Key x = str "href"
    /\ chapterUrlOf baseUrl li = baseUrl ++ str "/" ++ html.Val x.
Proof.
  intros N. unfold chapterUrlOf.
  destruct (chapterLinks li) as [|[anc a] rest] eqn:E; [congruence|].
  assert (M : gq.Match sel_a_href anc a = true).
  { apply (Find_sound sel_a_href li (anc, a)).
    fold (chapterLinks li). rewrite E. left. reflexivity. }
  cbn [sel_a_href gq.Match] in M.
  apply andb_true_iff in M. destruct M as [M1 M2].
  apply andb_true_iff in M1. destruct M1 as [El Tag].
  apply andb_true_iff in M2. destruct M2 as [_ At].
  apply streq_eq in Tag.
  destruct (getAttributeValue_found _ _ At) as (x & I & K & G).
  exists anc, a, rest, x. cbn [gq.Attr]. rewrite G.
  repeat split; assumption.
Qed.

(** C6 as the claim states it fails: the body of the index whose chapters
    are the items of an [<ol>] holds two list items, each with a link that
    has an [href], and [getChapters] returns [ErrNoChaptersFound], not two
    URLs. *)
Lemma C6_counterexample :
  List.length (gq.Find sel_body_li (gq.root pageIndexOrdered)) = 2%nat
  /\ forallb hasChapterLink
             (gq.Find sel_body_li (gq.root pageIndexOrdered)) = true
  /\ getChapters (str "https://projekt-gutenberg.org/a/b") pageIndexOrdered
     = Err ErrNoChaptersFound
  /\ getChapters (str "https://projekt-gutenberg.org/a/b") pageIndexOrdered
     <> Ok (map (chapterUrlOf (str "https://projekt-gutenberg.org/a/b"))
                (gq.Find sel_body_li (gq.root pageIndexOrdered))).
Proof. repeat split. discriminate. Qed.

(** C6, amended. Let the list items be the [li] elements below a [ul]
    below the body (the selector "body ul li"), [N] of them, in document
    order.  When each has a descendant link element with an [href], the
    index parser returns, for [N >= 1], exactly [N] URLs in that order,
    the one of an item being baseURL, "/" and the [href] of the first such
    link of the item; for [N = 0] it fails with [ErrNoChaptersFound]. *)
Theorem C6_chapters_of_unordered_lists (baseUrl : gostring)
  (doc : gq.Document) :
  (forall li, In li (listItems doc) -> chapterLinks li <> []) ->
  (forall li, In li (listItems doc) ->
              gq.Match sel_body_ul_li (fst li) (snd li) = true)
  /\ (listItems doc = [] -> getChapters baseUrl doc = Err ErrNoChaptersFound)
  /\ (listItems doc <> [] ->
      getChapters baseUrl doc
      = Ok (map (chapterUrlOf baseUrl) (listItems doc)))
  /\ List.length (map (chapterUrlOf baseUrl) (listItems doc))
     = List.length (listItems doc)
  /\ (forall li, In li (listItems doc) ->
      exists anc a rest x,
        chapterLinks li = (anc, a) :: rest
        /\ html.isElementNode a = true /\ html.Data a = str "a"
        /\ In x (html.Attr a) /\ html.Key x = str "href"
        /\ chapterUrlOf baseUrl li = baseUrl ++ str "/" ++ html.Val x).
Proof.
  intros L.
  assert (A : forallb hasChapterLink (listItems doc) = true).
  { apply forallb_forall. intros li I. apply hasChapterLink_true.
    exact (L li I). }
  split; [intros li I; exact (Find_sound _ _ _ I)|].
  rewrite getChapters_spec, A.
  split; [intros ->; reflexivity|].
  split; [destruct (listItems doc); [congruence|reflexivity]|].
  split; [apply length_map|].
  intros li I. apply chapterUrlOf_href. exact (L li I).
Qed.

Lemma C6_chapters_of_unordered_lists_witness :
  getChapters (str "B") pageIndex
  = Ok [str "B/titlepage.html"; str "B/chap001.html"]
  /\ getChapters (str "B") pageNoItems = Err ErrNoChaptersFound.
Proof.
  split.
  - refine (proj1 (proj2 (proj2
      (C6_chapters_of_unordered_lists (str "B") pageIndex _))) _).
    + intros li [<-|[<-|[]]]; discriminate.
    + discriminate.
  - refine (proj1 (proj2
      (C6_chapters_of_unordered_lists (str "B") pageNoItems _)) eq_refl).
    intros li [].
Defined.

(** ** The segments of a path *)

Lemma TrimLeft_cons (c x : rune) (s : gostring) :
  strings.TrimLeft (x :: s) [c] =
  if rune_eqb x c then strings.TrimLeft s [c] else x :: s.
Proof.
  cbn [strings.TrimLeft strings.in_cutset existsb].
  rewrite orb_false_r. reflexivity.
Qed.

Lemma TrimLeft_snoc_other (c x : rune) (s : gostring) :
  x <> c -> strings.TrimLeft (s ++ [x]) [c] <> [].
Proof.
  intros N. induction s as [|y s IH].
  - simpl app. rewrite TrimLeft_cons.
    apply rune_eqb_neq in N. rewrite N. discriminate.
  - simpl app. rewrite TrimLeft_cons.
    destruct (rune_eqb y c); [exact IH|discriminate].
Qed.

Lemma TrimRight_snoc (c x : rune) (s : gostring) :
  strings.TrimRight (s ++ [x]) [c] =
  if rune_eqb x c then strings.TrimRight s [c] else s ++ [x].
Proof.
  unfold strings.TrimRight. rewrite rev_app_distr. simpl app.
  rewrite TrimLeft_cons. destruct (rune_eqb x c); [reflexivity|].
  simpl. rewrite rev_involutive. reflexivity.
Qed.

Lemma TrimRight_cons_other (c x : rune) (s : gostring) :
  x <> c -> strings.TrimRight (x :: s) [c] <> [].
Proof.
  intros N H. unfold strings.TrimRight in H. simpl rev in H.
  apply (f_equal (@rev rune)) in H. rewrite rev_involutive in H.
  simpl in H. exact (TrimLeft_snoc_other c x (rev s) N H).
Qed.

Lemma TrimLeft_head (c : rune) (s : gostring) :
  match strings.TrimLeft s [c] with
  | [] => True
  | x :: _ => x <> c
  end.
Proof.
  induction s as [|y s IH]; [exact I|].
  rewrite TrimLeft_cons. destruct (rune_eqb y c) eqn:E; [exact IH|].
  apply rune_eqb_neq. exact E.
Qed.

Lemma dropEmptyFront_splitOn (c : rune) (s : gostring) :
  dropEmptyFront (splitOn c s) =
  match strings.TrimLeft s [c] with
  | [] => []
  | _ :: _ => splitOn c (strings.TrimLeft s [c])
  end.
Proof.
  induction s as [|x s IH]; [reflexivity|].
  rewrite TrimLeft_cons. cbn [splitOn]. rewrite (rune_eqb_sym c x).
  destruct (rune_eqb x c) eqn:E; [exact IH|].
  cbn [splitOn]. rewrite (rune_eqb_sym c x), E.
  destruct (splitOn c s); reflexivity.
Qed.

Lemma splitOn_snoc_sep (c : rune) (s : gostring) :
  splitOn c (s ++ [c]) = splitOn c s ++ [[]].
Proof.
  induction s as [|x s IH].
  - simpl. rewrite rune_eqb_refl. reflexivity.
  - simpl. destruct (rune_eqb c x); rewrite IH; [reflexivity|].
    destruct (splitOn c s) as [|h t] eqn:E;
      [exfalso; exact (splitOn_nonempty c s E)|reflexivity].
Qed.

Lemma splitOn_snoc_other (c x : rune) (s : gostring) :
  x <> c ->
  exists init lst,
    splitOn c s = init ++ [lst]
    /\ splitOn c (s ++ [x]) = init ++ [lst ++ [x]].
Proof.
  intros N. induction s as [|y s (init & lst & E1 & E2)].
  - exists [], []. simpl.
    assert (F : rune_eqb c x = false) by (apply rune_eqb_neq; congruence).
    rewrite F. split; reflexivity.
  - simpl. destruct (rune_eqb c y).
    + exists ([] :: init), lst. rewrite E1, E2. split; reflexivity.
    + rewrite E1, E2. destruct init as [|h t].
      * exists [], (y :: lst). split; reflexivity.
      * exists ((y :: h) :: t), lst. split; reflexivity.
Qed.

Lemma dropEmptyBack_snoc_empty (l : list gostring) :
  dropEmptyBack (l ++ [[]]) = dropEmptyBack l.
Proof. unfold dropEmptyBack. rewrite rev_app_distr. reflexivity. Qed.

Lemma dropEmptyBack_snoc_full (l : list gostring) (x : gostring) :
  x <> [] -> dropEmptyBack (l ++ [x]) = l ++ [x].
Proof.
  intros N. unfold dropEmptyBack. rewrite rev_app_distr. simpl app.
  destruct x as [|a x]; [congruence|].
  cbn [dropEmptyFront rev]. rewrite rev_involutive. reflexivity.
Qed.

Lemma dropEmptyBack_splitOn (c : rune) (s : gostring) :
  dropEmptyBack (splitOn c s) =
  match strings.TrimRight s [c] with
  | [] => []
  | _ :: _ => splitOn c (strings.TrimRight s [c])
  end.
Proof.
  induction s as [|x s IH] using rev_ind; [reflexivity|].
  rewrite TrimRight_snoc. destruct (rune_eqb x c) eqn:E.
  - apply rune_eqb_eq in E. subst x.
    rewrite splitOn_snoc_sep, dropEmptyBack_snoc_empty. exact IH.
  - apply rune_eqb_neq in E.
    destruct (splitOn_snoc_other c x s E) as (init & lst & _ & E2).
    rewrite E2, dropEmptyBack_snoc_full
      by (destruct lst; discriminate).
    destruct (s ++ [x]) eqn:A; [|reflexivity].
    destruct s; discriminate.
Qed.

(** The segments [getBaseUrl] computes are the segments of the path without
    the empty ones at both ends, except on a path of slashes only, where it
    computes one empty segment and there is none. *)
Lemma spPath_pathSegments (p : gostring) :
  let spPath := strings.Split (strings.Trim p (str "/")) (str "/") in
  (spPath = [[]] /\ pathSegments p = [])
  \/ (spPath = pathSegments p /\ pathSegments p <> []).
Proof.
  cbv zeta. change (str "/") with [SLASH]. rewrite Split_rune.
  unfold pathSegments. change (str "/") with [SLASH]. rewrite Split_rune.
  fold (dropEmptyBack (dropEmptyFront (splitOn SLASH p))).
  rewrite dropEmptyFront_splitOn. unfold strings.Trim.
  pose proof (TrimLeft_head SLASH p) as H.
  destruct (strings.TrimLeft p [SLASH]) as [|x q].
  - left. split; reflexivity.
  - right. rewrite dropEmptyBack_splitOn.
    pose proof (TrimRight_cons_other SLASH x q H) as N.
    destruct (strings.TrimRight (x :: q) [SLASH]) as [|y r] eqn:E;
      [congruence|].
    split; [reflexivity|apply splitOn_nonempty].
Qed.

Lemma Join_two (a b : gostring) (rest : list gostring) (sep : gostring) :
  strings.Join (firstn 2 (a :: b :: rest)) sep = a ++ sep ++ b.
Proof. reflexivity. Qed.

(** [getBaseUrl] in one equation, in the segments of the path. *)
Lemma getBaseUrl_spec (url_Parse : gostring -> url.ParseResult)
  (rawurl : gostring) :
  getBaseUrl url_Parse rawurl =
  match url_Parse rawurl with
  | url.ParseError msg => Err (ErrForeign msg)
  | url.Parsed u =>
      if schemeOk u && hostOk u
      then match pathSegments (url.Path u) with
           | seg0 :: seg1 :: _ =>
               Ok (url.Scheme u ++ str "://projekt-gutenberg.org/"
                   ++ seg0 ++ str "/" ++ seg1)
           | _ => Err ErrInvalidURL
           end
      else Err ErrInvalidURL
  end.
Proof.
  unfold getBaseUrl. destruct (url_Parse rawurl) as [u|msg]; [|reflexivity].
  fold (schemeOk u). fold (hostOk u).
  destruct (schemeOk u); [|reflexivity].
  destruct (hostOk u); [|reflexivity]. cbn [negb andb].
  destruct (spPath_pathSegments (url.Path u)) as [[E1 E2]|[E1 E2]];
    cbv zeta in E1; rewrite E1.
  - rewrite E2. reflexivity.
  - destruct (pathSegments (url.Path u)) as [|a [|b rest]];
      [congruence|reflexivity|].
    replace (Z.of_nat (List.length (a :: b :: rest)) <? 2) with false
      by (symmetry; apply Z.ltb_ge; simpl List.length; lia).
    rewrite Join_two. reflexivity.
Qed.

(** ** getBaseUrl *)

Lemma schemeOk_false (u : url.URL) :
  schemeOk u = false <->
  url.Scheme u <> str "http" /\ url.Scheme u <> str "https".
Proof.
  unfold schemeOk. rewrite orb_false_iff, !streq_neq. reflexivity.
Qed.

Lemma hostOk_false (u : url.URL) :
  hostOk u = false <->
  url.Host u <> str "projekt-gutenberg.org"
  /\ url.Host u <> str "www.projekt-gutenberg.org".
Proof.
  unfold hostOk. rewrite orb_false_iff, !streq_neq. reflexivity.
Qed.

(** C7 as the claim states it fails: [url.Parse] rejects ":" (missing
    protocol scheme), and [getBaseUrl] then returns that error, which is
    not [ErrInvalidURL]. *)
Lemma C7_counterexample :
  url_Parse_examples (str ":")
  = url.ParseError (str "missing protocol scheme")
  /\ getBaseUrl url_Parse_examples (str ":")
     = Err (ErrForeign (str "missing protocol scheme"))
  /\ getBaseUrl url_Parse_examples (str ":") <> Err ErrInvalidURL.
Proof. repeat split. discriminate. Qed.

(** C7, amended. When the raw URL cannot be parsed [getBaseUrl] fails with
    the error of [url.Parse], not with [ErrInvalidURL].  It fails with
    [ErrInvalidURL] exactly when the raw URL parses and its scheme is
    neither "http" nor "https", or its host is neither the site host nor
    the site host behind "www.", or fewer than 2 segments remain of its
    path split on "/" without the empty segments at both ends; on every
    other parsed URL it succeeds. *)
Theorem C7_invalid_url (url_Parse : gostring -> url.ParseResult)
  (rawurl : gostring) :
  (forall msg, url_Parse rawurl = url.ParseError msg ->
               getBaseUrl url_Parse rawurl = Err (ErrForeign msg))
  /\ (getBaseUrl url_Parse rawurl = Err ErrInvalidURL <->
      exists u,
        url_Parse rawurl = url.Parsed u
        /\ ((url.Scheme u <> str "http" /\ url.Scheme u <> str "https")
            \/ (url.Host u <> str "projekt-gutenberg.org"
                /\ url.Host u <> str "www.projekt-gutenberg.org")
            \/ (List.length (pathSegments (url.Path u)) < 2)%nat))
  /\ (forall u, url_Parse rawurl = url.Parsed u ->
                getBaseUrl url_Parse rawurl = Err ErrInvalidURL
                \/ exists b, getBaseUrl url_Parse rawurl = Ok b).
Proof.
  rewrite getBaseUrl_spec.
  destruct (url_Parse rawurl) as [u|msg].
  - split; [discriminate|].
    split.
    + split.
      * intros H. exists u. split; [reflexivity|].
        destruct (schemeOk u) eqn:S;
          [|left; apply schemeOk_false; exact S].
        destruct (hostOk u) eqn:Hs;
          [|right; left; apply hostOk_false; exact Hs].
        right; right. cbn [andb] in H.
        destruct (pathSegments (url.Path u)) as [|a [|b r]];
          simpl; try lia. discriminate.
      * intros (u' & E & H). injection E as <-.
        destruct H as [H|[H|H]].
        -- apply schemeOk_false in H. rewrite H. reflexivity.
        -- apply hostOk_false in H. rewrite H, andb_false_r. reflexivity.
        -- destruct (schemeOk u && hostOk u); [|reflexivity].
           destruct (pathSegments (url.Path u)) as [|a [|b r]];
             try reflexivity. simpl in H. lia.
    + intros u' E. injection E as <-.
      destruct (schemeOk u && hostOk u); [|left; reflexivity].
      destruct (pathSegments (url.Path u)) as [|a [|b r]];
        try (left; reflexivity). right. eexists. reflexivity.
  - split; [intros m E; injection E as <-; reflexivity|].
    split; [|discriminate].
    split; [discriminate|]. intros (u & E & _). discriminate.
Qed.

Lemma C7_invalid_url_witness :
  getBaseUrl url_Parse_examples
    (str "ftp://projekt-gutenberg.org/nietzsch/zara") = Err ErrInvalidURL.
Proof.
  apply (proj2 (proj1 (proj2
    (C7_invalid_url url_Parse_examples
       (str "ftp://projekt-gutenberg.org/nietzsch/zara"))))).
  eexists. split; [reflexivity|]. left. split; discriminate.
Defined.

Lemma splitOn_no_sep_inside (c : rune) (s seg : gostring) :
  In seg (splitOn c s) -> ~ In c seg.
Proof.
  revert seg. induction s as [|x s IH]; intros seg H.
  - destruct H as [<-|[]]. intros [].
  - cbn [splitOn] in H. destruct (rune_eqb c x) eqn:E.
    + destruct H as [<-|H]; [intros []|exact (IH seg H)].
    + apply rune_eqb_neq in E.
      destruct (splitOn c s) as [|h t] eqn:S.
      * exfalso. exact (splitOn_nonempty c s S).
      * destruct H as [<-|H].
        -- intros [A|A]; [congruence|].
           exact (IH h (or_introl eq_refl) A).
        -- exact (IH seg (or_intror H)).
Qed.

Lemma splitOn_without_sep (c : rune) (s : gostring) :
  ~ In c s -> splitOn c s = [s].
Proof.
  induction s as [|x s IH]; intros N; [reflexivity|].
  cbn [splitOn].
  assert (E : rune_eqb c x = false)
    by (apply rune_eqb_neq; intros ->; apply N; left; reflexivity).
  rewrite E, IH; [reflexivity|].
  intros I. apply N. right. exact I.
Qed.

Lemma splitOn_app_sep (c : rune) (s t : gostring) :
  ~ In c s -> splitOn c (s ++ c :: t) = s :: splitOn c t.
Proof.
  induction s as [|x s IH]; intros N.
  - simpl. rewrite rune_eqb_refl. reflexivity.
  - simpl app. cbn [splitOn].
    assert (E : rune_eqb c x = false)
      by (apply rune_eqb_neq; intros ->; apply N; left; reflexivity).
    rewrite E, IH; [reflexivity|].
    intros I. apply N. right. exact I.
Qed.

Lemma dropEmptyFront_suffix (l : list gostring) :
  exists pre, l = pre ++ dropEmptyFront l.
Proof.
  induction l as [|x l (pre & E)]; [exists []; reflexivity|].
  destruct x as [|a x].
  - exists ([] :: pre). simpl. rewrite <- E. reflexivity.
  - exists []. reflexivity.
Qed.

Lemma dropEmptyFront_head (l : list gostring) (x : gostring)
  (rest : list gostring) :
  dropEmptyFront l = x :: rest -> x <> [].
Proof.
  induction l as [|y l IH]; [discriminate|].
  destruct y as [|a y]; simpl; [exact IH|].
  intros E. injection E as <- _. discriminate.
Qed.

Lemma dropEmptyBack_prefix (l : list gostring) :
  exists post, l = dropEmptyBack l ++ post.
Proof.
  unfold dropEmptyBack.
  destruct (dropEmptyFront_suffix (rev l)) as (pre & E).
  exists (rev pre). rewrite <- rev_app_distr, <- E, rev_involutive.
  reflexivity.
Qed.

Lemma pathSegments_in_split (p seg : gostring) :
  In seg (pathSegments p) -> In seg (splitOn SLASH p).
Proof.
  unfold pathSegments. change (str "/") with [SLASH]. rewrite Split_rune.
  fold (dropEmptyBack (dropEmptyFront (splitOn SLASH p))).
  intros H.
  destruct (dropEmptyBack_prefix (dropEmptyFront (splitOn SLASH p)))
    as (post & E).
  destruct (dropEmptyFront_suffix (splitOn SLASH p)) as (pre & F).
  rewrite F, E. apply in_or_app. right. apply in_or_app. left. exact H.
Qed.

(** A segment holds no slash, and the first segment is not empty. *)
Lemma pathSegments_no_slash (p seg : gostring) :
  In seg (pathSegments p) -> ~ In SLASH seg.
Proof.
  intros H. apply (splitOn_no_sep_inside SLASH p).
  apply pathSegments_in_split. exact H.
Qed.

Lemma pathSegments_head (p seg0 : gostring) (rest : list gostring) :
  pathSegments p = seg0 :: rest -> seg0 <> [].
Proof.
  unfold pathSegments. change (str "/") with [SLASH]. rewrite Split_rune.
  fold (dropEmptyBack (dropEmptyFront (splitOn SLASH p))).
  intros H.
  destruct (dropEmptyBack_prefix (dropEmptyFront (splitOn SLASH p)))
    as (post & E).
  rewrite H in E. simpl in E.
  exact (dropEmptyFront_head _ _ _ E).
Qed.

(** The path "/seg0/seg1" has exactly the segments [seg0] and [seg1]. *)
Lemma pathSegments_two (seg0 seg1 : gostring) :
  seg0 <> [] -> seg1 <> [] -> ~ In SLASH seg0 -> ~ In SLASH seg1 ->
  pathSegments (str "/" ++ seg0 ++ str "/" ++ seg1) = [seg0; seg1].
Proof.
  intros N0 N1 S0 S1. unfold pathSegments.
  change (str "/") with [SLASH]. rewrite Split_rune.
  cbn [app splitOn]. rewrite rune_eqb_refl.
  rewrite (splitOn_app_sep SLASH seg0 seg1 S0).
  rewrite (splitOn_without_sep SLASH seg1 S1).
  destruct seg0 as [|a seg0]; [congruence|].
  destruct seg1 as [|b seg1]; [congruence|].
  reflexivity.
Qed.

(** C8. For an accepted raw URL the result is the scheme, "://", the site
    host without "www.", "/", the first segment of the path, "/" and the
    second segment; nothing else of the URL enters it.  Hence every raw
    URL that parses with the same scheme, an accepted host and the same
    first two segments gives the same result, whatever its deeper
    segments, query and fragment; in particular the URL whose path has
    exactly these two segments does, and, the book segment not being
    empty, that is every URL whose path is "/", the first segment, "/" and
    the second. *)
Theorem C8_base_url (url_Parse : gostring -> url.ParseResult)
  (rawurl : gostring) (u : url.URL) (baseURL : gostring) :
  url_Parse rawurl = url.Parsed u ->
  getBaseUrl url_Parse rawurl = Ok baseURL ->
  exists seg0 seg1 rest,
    pathSegments (url.Path u) = seg0 :: seg1 :: rest
    /\ baseURL = url.Scheme u ++ str "://projekt-gutenberg.org/"
                 ++ seg0 ++ str "/" ++ seg1
    /\ (forall raw2 u2,
          url_Parse raw2 = url.Parsed u2 ->
          url.Scheme u2 = url.Scheme u -> hostOk u2 = true ->
          firstn 2 (pathSegments (url.Path u2)) = [seg0; seg1] ->
          getBaseUrl url_Parse raw2 = Ok baseURL)
    /\ (forall raw2 u2,
          url_Parse raw2 = url.Parsed u2 ->
          url.Scheme u2 = url.Scheme u -> hostOk u2 = true ->
          pathSegments (url.Path u2) = [seg0; seg1] ->
          getBaseUrl url_Parse raw2 = Ok baseURL)
    /\ (seg1 <> [] ->
        forall raw2 u2,
          url_Parse raw2 = url.Parsed u2 ->
          url.Scheme u2 = url.Scheme u -> hostOk u2 = true ->
          url.Path u2 = str "/" ++ seg0 ++ str "/" ++ seg1 ->
          getBaseUrl url_Parse raw2 = Ok baseURL).
Proof.
  intros E H. rewrite getBaseUrl_spec, E in H.
  destruct (schemeOk u) eqn:S; [|discriminate].
  destruct (hostOk u) eqn:Hs; [|discriminate]. cbn [andb] in H.
  destruct (pathSegments (url.Path u)) as [|seg0 [|seg1 rest]] eqn:P;
    try discriminate.
  injection H as <-. exists seg0, seg1, rest.
  assert (G : forall raw2 u2,
             url_Parse raw2 = url.Parsed u2 ->
             url.Scheme u2 = url.Scheme u -> hostOk u2 = true ->
             firstn 2 (pathSegments (url.Path u2)) = [seg0; seg1] ->
             getBaseUrl url_Parse raw2
             = Ok (url.Scheme u ++ str "://projekt-gutenberg.org/"
                   ++ seg0 ++ str "/" ++ seg1)).
  { intros raw2 u2 E2 Sc Ho F. rewrite getBaseUrl_spec, E2.
    unfold schemeOk in *. rewrite Sc, S, Ho. cbn [andb].
    destruct (pathSegments (url.Path u2)) as [|a [|b r]];
      try discriminate.
    injection F as -> ->. reflexivity. }
  split; [reflexivity|]. split; [reflexivity|]. split; [exact G|].
  split.
  - intros raw2 u2 E2 Sc Ho F. apply (G raw2 u2 E2 Sc Ho).
    rewrite F. reflexivity.
  - intros N1 raw2 u2 E2 Sc Ho F. apply (G raw2 u2 E2 Sc Ho).
    rewrite F, pathSegments_two; [reflexivity| |exact N1| |].
    + exact (pathSegments_head _ _ _ P).
    + apply (pathSegments_no_slash (url.Path u)). rewrite P.
      left. reflexivity.
    + apply (pathSegments_no_slash (url.Path u)). rewrite P.
      right. left. reflexivity.
Qed.

Lemma C8_base_url_witness :
  getBaseUrl url_Parse_examples
    (str "https://www.projekt-gutenberg.org/nietzsch/zara/zara.html")
  = Ok (str "https://projekt-gutenberg.org/nietzsch/zara")
  /\ getBaseUrl url_Parse_examples
       (str "https://projekt-gutenberg.org/nietzsch/zara")
     = getBaseUrl url_Parse_examples
         (str "https://www.projekt-gutenberg.org/nietzsch/zara/zara.html").
Proof.
  destruct (C8_base_url url_Parse_examples
              (str "https://www.projekt-gutenberg.org/nietzsch/zara/zara.html")
              url_zara (str "https://projekt-gutenberg.org/nietzsch/zara")
              eq_refl eq_refl)
    as (seg0 & seg1 & rest & P & B & _ & _ & Two).
  split; [reflexivity|].
  injection P as <- <- _.
  refine (Two _ (str "https://projekt-gutenberg.org/nietzsch/zara")
              url_zara_book eq_refl eq_refl eq_refl eq_refl).
  discriminate.
Defined.

(** The book segment can be empty: "/nietzsch//zara" is accepted with the
    segments "nietzsch" and "", and the result, whose path is
    "/nietzsch/", is itself rejected. *)
Example empty_book_segment :
  getBaseUrl url_Parse_examples2
    (str "https://projekt-gutenberg.org/nietzsch//zara")
  = Ok (str "https://projekt-gutenberg.org/nietzsch/")
  /\ getBaseUrl url_Parse_examples2
       (str "https://projekt-gutenberg.org/nietzsch/")
     = Err ErrInvalidURL.
Proof. split; reflexivity. Qed.

(** ** The other tags *)

Lemma process_element_spacedIf (n : html.Node) :
  html.Type' n = html.ElementNode ->
  fst (process n)
  = spacedIf n (fst (transformElement n (fun _ => processChildren n))).
Proof.
  intros T. rewrite (process_element n T). cbv zeta. unfold spacedIf.
  rewrite addSpaced_intersperse. reflexivity.
Qed.

(** X3. A heading element of level [k] converts to [k] times '#', a space, its
    converted children and one newline (letter-spaced when it carries the
    class "spaced"). *)
Theorem heading_conversion (n : html.Node) (k : nat) :
  html.Type' n = html.ElementNode ->
  headingLevel (html.DataAtom n) = Some k ->
  fst (process n)
  = spacedIf n (repeat HASH k ++ [SP] ++ fst (processChildren n) ++ [NL]).
Proof.
  intros T L. rewrite (process_element_spacedIf n T). f_equal.
  unfold transformElement.
  destruct (html.DataAtom n); try discriminate;
    injection L as <-; rewrite fst_bind; reflexivity.
Qed.

Lemma heading_conversion_witness :
  fst (process heading3) = str "### x" ++ [NL].
Proof. exact (heading_conversion heading3 3 eq_refl eq_refl). Defined.

(** X4. The conversion of the other elements main.go names: a line break gives
    two newlines, [div], [a] and [span] give their converted children,
    [tt] and [i] wrap them in backticks and underscores, an image gives
    nothing (each letter-spaced when the element carries the class
    "spaced"). *)
Theorem inline_conversion (n : html.Node) :
  html.Type' n = html.ElementNode ->
  let children := fst (processChildren n) in
  (html.DataAtom n = atom.Br -> fst (process n) = spacedIf n [NL; NL])
  /\ (html.DataAtom n = atom.Div -> fst (process n) = spacedIf n children)
  /\ (html.DataAtom n = atom.A -> fst (process n) = spacedIf n children)
  /\ (html.DataAtom n = atom.Span -> fst (process n) = spacedIf n children)
  /\ (html.DataAtom n = atom.Tt ->
      fst (process n) = spacedIf n (str "`" ++ children ++ str "`"))
  /\ (html.DataAtom n = atom.I ->
      fst (process n) = spacedIf n (str "_" ++ children ++ str "_"))
  /\ (html.DataAtom n = atom.Img -> fst (process n) = [])
  /\ (html.DataAtom n = atom.Img -> snd (process n) = []).
Proof.
  intros T children. rewrite (process_element_spacedIf n T).
  repeat split; intros A; unfold transformElement; rewrite ?A;
    rewrite ?fst_bind; try reflexivity.
  - unfold spacedIf. cbn [ret fst].
    destruct (hasClass n (str "spaced")); reflexivity.
  - rewrite process_unfold. unfold processNode, transformElement.
    rewrite T, A. unfold bind, ret.
    destruct (hasClass n (str "spaced")); reflexivity.
Qed.

Lemma inline_conversion_witness :
  fst (process (el_i [] [text (str "word")])) = str "_word_".
Proof.
  exact (proj1 (proj2 (proj2 (proj2 (proj2 (proj2
    (inline_conversion (el_i [] [text (str "word")]) eq_refl))))))
    eq_refl).
Defined.

(** X5. A node that is neither a text nor an element converts to nothing and
    a warning that names its kind; an element whose atom main.go does not
    name converts to nothing and a warning that names its tag. *)
Theorem unknown_nodes_warn (n : html.Node) :
  (html.Type' n <> html.TextNode -> html.Type' n <> html.ElementNode ->
   process n = ([], [ClearLine; WarnUnknownType (html.Type' n)]))
  /\ (html.Type' n = html.ElementNode ->
      headingLevel (html.DataAtom n) = None ->
      ~ In (html.DataAtom n)
           [atom.Br; atom.P; atom.Div; atom.Tt; atom.I; atom.A; atom.Span;
            atom.Img] ->
      process n = ([], [ClearLine; WarnUnknownDataAtom (html.Data n)])).
Proof.
  rewrite process_unfold. unfold processNode. split.
  - intros N1 N2. destruct (html.Type' n); try reflexivity; congruence.
  - intros T L N. rewrite T. unfold transformElement.
    destruct (html.DataAtom n); try discriminate;
      try (exfalso; apply N; simpl; tauto);
      unfold bind, clearLine, emit, ret; simpl;
      destruct (hasClass n (str "spaced")); reflexivity.
Qed.

(** ** The failures of getChapters and FetchAndProcessChapter *)

(** X6. [getChapters] panics exactly when some list item it visits holds no
    link with an [href]. *)
Theorem getChapters_panics (baseUrl : gostring) (doc : gq.Document) :
  (exists msg, getChapters baseUrl doc = Panic msg) <->
  exists li, In li (listItems doc) /\ chapterLinks li = [].
Proof.
  rewrite getChapters_spec.
  destruct (forallb hasChapterLink (listItems doc)) eqn:A.
  - split.
    + intros [msg H]. destruct (listItems doc); discriminate.
    + intros (li & I & E). rewrite forallb_forall in A.
      specialize (A li I). apply hasChapterLink_true in A. contradiction.
  - split; [intros _|intros _; eexists; reflexivity].
    assert (E : exists li, In li (listItems doc)
                           /\ hasChapterLink li = false).
    { clear - A. induction (listItems doc) as [|li l IH];
        [discriminate|].
      simpl in A. apply andb_false_iff in A. destruct A as [A|A].
      - exists li. split; [left; reflexivity|exact A].
      - destruct (IH A) as (x & I & F). exists x.
        split; [right; exact I|exact F]. }
    destruct E as (li & I & F). exists li. split; [exact I|].
    destruct (chapterLinks li) eqn:C; [reflexivity|].
    unfold hasChapterLink in F. rewrite C in F. discriminate.
Qed.

(** X7. [FetchAndProcessChapter] works all or nothing.  It returns no
    error exactly when the page is fetched and read and has no content
    behind a third marker; the only errors are the one of fetching or
    reading and [ErrParsingPage].  On an error the extractor is returned as
    it was and nothing is printed.  In every case the base URL, the
    metadata and the chapter URLs stay as they were, and what was in the
    buffer stays at its front. *)
Theorem chapter_all_or_nothing
  (fetchDocument : gostring -> gq.Document + gostring)
  (e : Extractor) (chapterUrl : gostring) :
  let r := FetchAndProcessChapter fetchDocument e chapterUrl in
  let e' := fst (fst r) in
  BaseUrl e' = BaseUrl e /\ Meta e' = Meta e
  /\ ChapterUrls e' = ChapterUrls e
  /\ (exists added, W e' = W e ++ added)
  /\ (snd (fst r) = None
      <-> exists doc, fetchDocument chapterUrl = inl doc
                      /\ overrun 0 (bodyChildren doc) = false)
  /\ (forall er, snd (fst r) = Some er ->
        e' = e /\ snd r = []
        /\ (er = ErrParsingPage
            \/ exists msg, fetchDocument chapterUrl = inr msg
                           /\ er = ErrForeign msg)).
Proof.
  cbv zeta. unfold FetchAndProcessChapter.
  destruct (fetchDocument chapterUrl) as [doc|msg] eqn:F.
  - rewrite parseAdditionalPage_spec.
    destruct (overrun 0 (bodyChildren doc)) eqn:O.
    + unfold bind, ret. cbn [fst snd].
      split; [reflexivity|]. split; [reflexivity|]. split; [reflexivity|].
      split; [exists []; rewrite app_nil_r; reflexivity|].
      split.
      * split; [discriminate|].
        intros (doc' & E & O'). injection E as <-. congruence.
      * intros er H. injection H as <-.
        split; [reflexivity|]. split; [reflexivity|]. left. reflexivity.
    + unfold bind, ret. cbn [fst snd].
      destruct (streq (path.Base chapterUrl) (str "titlepage.html"));
        cbn [fst snd Fprintln withW BaseUrl Meta ChapterUrls W];
        (split; [reflexivity|]); (split; [reflexivity|]);
        (split; [reflexivity|]);
        (split; [rewrite <- ?app_assoc; eexists; reflexivity|]);
        (split; [|discriminate]);
        (split; [intros _; exists doc; split; [reflexivity|exact O]
                |reflexivity]).
  - cbn [ret fst snd].
    split; [reflexivity|]. split; [reflexivity|]. split; [reflexivity|].
    split; [exists []; rewrite app_nil_r; reflexivity|].
    split.
    + split; [discriminate|]. intros (doc & E & _). discriminate.
    + intros er H. injection H as <-.
      split; [reflexivity|]. split; [reflexivity|].
      right. exists msg. split; reflexivity.
Qed.

(** * More of the code *)

(** ** Split and Join *)

Lemma HasPrefix_true (s sep : gostring) :
  strings.HasPrefix s sep = true <-> exists t, s = sep ++ t.
Proof.
  revert s. induction sep as [|p sep IH]; intros s.
  - simpl. split; [intros _; exists s; reflexivity|reflexivity].
  - destruct s as [|c s]; simpl.
    + split; [discriminate|intros [t E]; discriminate].
    + rewrite andb_true_iff, rune_eqb_eq, IH. split.
      * intros [-> [t ->]]. exists t. reflexivity.
      * intros [t E]. injection E as -> ->. split; [reflexivity|].
        exists t. reflexivity.
Qed.

Lemma split_scan_skip (sep : gostring) (k : nat) (s cur : gostring) :
  (k <= List.length s)%nat ->
  strings.split_scan sep k cur s = strings.split_scan sep 0 cur (skipn k s).
Proof.
  revert s. induction k as [|k IH]; intros s L; [reflexivity|].
  destruct s as [|c s]; [simpl in L; lia|].
  simpl. apply IH. simpl in L. lia.
Qed.

Lemma split_scan_nonempty (sep : gostring) (k : nat) (cur s : gostring) :
  strings.split_scan sep k cur s <> [].
Proof.
  revert k cur. induction s as [|c s IH]; intros k cur; [discriminate|].
  simpl. destruct k; [|apply IH].
  destruct (strings.HasPrefix (c :: s) sep); [discriminate|apply IH].
Qed.

Lemma Join_cons (e : gostring) (rest : list gostring) (sep : gostring) :
  rest <> [] ->
  strings.Join (e :: rest) sep = e ++ sep ++ strings.Join rest sep.
Proof. destruct rest; [congruence|reflexivity]. Qed.

Lemma Join_split_scan (sep : gostring) (n : nat) :
  sep <> [] ->
  forall s cur, (List.length s <= n)%nat ->
  strings.Join (strings.split_scan sep 0 cur s) sep = rev cur ++ s.
Proof.
  intros N. induction n as [|n IH]; intros s cur L.
  - destruct s; [|simpl in L; lia]. simpl. rewrite app_nil_r. reflexivity.
  - destruct s as [|c s]; [simpl; rewrite app_nil_r; reflexivity|].
    cbn [strings.split_scan].
    destruct (strings.HasPrefix (c :: s) sep) eqn:H.
    + apply HasPrefix_true in H. destruct H as [t E].
      destruct sep as [|p sep']; [congruence|].
      simpl in E. injection E as <- ->.
      rewrite Join_cons by apply split_scan_nonempty.
      cbn [List.length].
      replace (S (List.length sep') - 1)%nat with (List.length sep') by lia.
      rewrite split_scan_skip by (rewrite length_app; lia).
      rewrite skipn_app, skipn_all, Nat.sub_diag. cbn [skipn app].
      rewrite IH by (simpl in L; rewrite length_app in L; lia).
      reflexivity.
    + rewrite IH by (simpl in L; lia).
      simpl. rewrite <- app_assoc. reflexivity.
Qed.

Lemma Join_singletons (s : gostring) :
  strings.Join (map (fun c => [c]) s) [] = s.
Proof.
  induction s as [|c s IH]; [reflexivity|].
  destruct s as [|c' s]; [reflexivity|].
  cbn [map] in *. rewrite Join_cons by discriminate.
  rewrite IH. reflexivity.
Qed.

(** X8. Joining the pieces of a split with the separator gives the string
    back, for every separator. *)
Theorem Join_Split (s sep : gostring) :
  strings.Join (strings.Split s sep) sep = s.
Proof.
  destruct sep as [|p sep]; [apply Join_singletons|].
  unfold strings.Split.
  rewrite (Join_split_scan (p :: sep) (List.length s)); [reflexivity| |lia].
  discriminate.
Qed.

Lemma splitOn_app_sep_any (c : rune) (a b : gostring) :
  splitOn c (a ++ c :: b) = splitOn c a ++ splitOn c b.
Proof.
  induction a as [|x a IH].
  - simpl. rewrite rune_eqb_refl. reflexivity.
  - simpl app. cbn [splitOn]. destruct (rune_eqb c x).
    + rewrite IH. reflexivity.
    + rewrite IH. destruct (splitOn c a) as [|h t] eqn:E;
        [exfalso; exact (splitOn_nonempty c a E)|reflexivity].
Qed.

Lemma Split_Join_rune (c : rune) (parts : list gostring) :
  parts <> [] -> (forall p, In p parts -> ~ In c p) ->
  splitOn c (strings.Join parts [c]) = parts.
Proof.
  induction parts as [|e rest IH]; intros N F; [congruence|].
  destruct rest as [|e' rest].
  - simpl. apply splitOn_without_sep. apply F. left. reflexivity.
  - rewrite Join_cons by discriminate. cbn [app].
    rewrite splitOn_app_sep_any, IH;
      [|discriminate|intros p I; apply F; right; exact I].
    rewrite splitOn_without_sep by (apply F; left; reflexivity).
    reflexivity.
Qed.

(** X9. Splitting on a one-rune separator takes a joined list apart
    again, when the list is not empty and no part holds the separator;
    and the pieces of any split hold no separator. *)
Theorem Split_Join (c : rune) (parts : list gostring) (s : gostring) :
  (parts <> [] -> (forall p, In p parts -> ~ In c p) ->
   strings.Split (strings.Join parts [c]) [c] = parts)
  /\ (forall p, In p (strings.Split s [c]) -> ~ In c p)
  /\ strings.Split s [c] <> [].
Proof.
  rewrite !Split_rune. split; [|split].
  - apply Split_Join_rune.
  - intros p. apply splitOn_no_sep_inside.
  - apply splitOn_nonempty.
Qed.

(** ** hasClass *)

Lemma Join_middle (l1 l2 : list gostring) (c sep : gostring) :
  strings.Join (l1 ++ c :: l2) sep =
  match l1 with [] => [] | _ :: _ => strings.Join l1 sep ++ sep end
  ++ c
  ++ match l2 with [] => [] | _ :: _ => sep ++ strings.Join l2 sep end.
Proof.
  induction l1 as [|e l1 IH].
  - simpl app. destruct l2 as [|e' l2].
    + simpl. rewrite app_nil_r. reflexivity.
    + rewrite Join_cons by discriminate. reflexivity.
  - simpl app. rewrite Join_cons by (destruct l1; discriminate).
    rewrite IH. destruct l1 as [|e' l1].
    + simpl. rewrite <- !app_assoc. reflexivity.
    + rewrite <- !app_assoc. reflexivity.
Qed.

Lemma In_splitOn_word (word s : gostring) :
  ~ In SP word -> (In word (splitOn SP s) <-> isWordOf word s).
Proof.
  intros N. split.
  - intros H. apply in_split in H. destruct H as (l1 & l2 & E).
    pose proof (Join_Split s [SP]) as J. rewrite Split_rune, E in J.
    rewrite Join_middle in J.
    eexists _, _. split; [symmetry; exact J|]. split.
    + destruct l1; [left; reflexivity|right; eexists; reflexivity].
    + destruct l2; [left; reflexivity|right; eexists; reflexivity].
  - intros (l & r & E & [->|[l' ->]] & [->|[r' ->]]); subst s.
    + simpl. rewrite app_nil_r, splitOn_without_sep by exact N.
      left. reflexivity.
    + simpl app. rewrite splitOn_app_sep_any, splitOn_without_sep by exact N.
      left. reflexivity.
    + rewrite app_nil_r, <- app_assoc. simpl app.
      rewrite splitOn_app_sep_any, (splitOn_without_sep SP word N).
      apply in_or_app. right. left. reflexivity.
    + rewrite <- app_assoc. simpl app.
      rewrite splitOn_app_sep_any. apply in_or_app. right.
      rewrite splitOn_app_sep_any, (splitOn_without_sep SP word N).
      left. reflexivity.
Qed.

Lemma hasClassIn_first (attrs : list html.Attribute) (class : gostring) :
  hasClassIn attrs class = true <->
  exists pre a post,
    attrs = pre ++ a :: post
    /\ (forall x, In x pre -> html.Key x <> str "class")
    /\ html.Key a = str "class"
    /\ In class (splitOn SP (html.Val a)).
Proof.
  induction attrs as [|v attrs IH].
  - simpl. split; [discriminate|].
    intros (pre & a & post & E & _). destruct pre; discriminate.
  - cbn [hasClassIn]. change (str " ") with [SP]. rewrite Split_rune.
    destruct (streq (html.Key v) (str "class")) eqn:K.
    + apply streq_eq in K. split.
      * intros H. apply existsb_exists in H. destruct H as (cl & I & E).
        apply streq_eq in E. subst cl.
        exists [], v, attrs. repeat split; try assumption.
        intros x [].
      * intros (pre & a & post & E & F & Ka & I).
        destruct pre as [|x pre].
        -- simpl in E. injection E as -> ->.
           apply existsb_exists. exists class.
           split; [exact I|apply streq_refl].
        -- simpl in E. injection E as Ev _. subst x.
           exfalso. apply (F v); [left; reflexivity|exact K].
    + apply streq_neq in K. rewrite IH. split.
      * intros (pre & a & post & E & F & R). exists (v :: pre), a, post.
        split; [rewrite E; reflexivity|].
        split; [|exact R]. intros x [<-|I]; [exact K|exact (F x I)].
      * intros (pre & a & post & E & F & Ka & I).
        destruct pre as [|x pre].
        -- simpl in E. injection E as -> ->. congruence.
        -- simpl in E. injection E as -> ->. exists pre, a, post.
           repeat split; try assumption.
           intros y Iy. apply F. right. exact Iy.
Qed.

(** X10. An element carries a class, for [hasClass], exactly when the
    value of its first attribute named "class" holds the class as a whole
    word between single spaces (at the start or behind a space, at the end
    or before a space); later class attributes are not looked at.  So
    "spaced" is not found in "letterspaced" or in "spaced2". *)
Theorem hasClass_whole_word (n : html.Node) (class : gostring) :
  ~ In SP class ->
  (hasClass n class = true <->
   exists pre a post,
     html.Attr n = pre ++ a :: post
     /\ (forall x, In x pre -> html.Key x <> str "class")
     /\ html.Key a = str "class"
     /\ isWordOf class (html.Val a)).
Proof.
  intros N. unfold hasClass. rewrite hasClassIn_first.
  split; intros (pre & a & post & E & F & K & I);
    exists pre, a, post; repeat split; try assumption;
    apply (In_splitOn_word class (html.Val a) N); exact I.
Qed.

Lemma hasClass_whole_word_witness :
  hasClass (el_p [attr (str "id") (str "x");
                  attr (str "class") (str "big spaced")] [])
           (str "spaced") = true.
Proof.
  apply (hasClass_whole_word _ (str "spaced")).
  - simpl. intros H. repeat (destruct H as [H|H]; [discriminate|]).
    exact H.
  - exists [attr (str "id") (str "x")],
           (attr (str "class") (str "big spaced")), [].
    split; [reflexivity|]. split.
    + intros x [<-|[]]. discriminate.
    + split; [reflexivity|].
      exists (str "big "), []. split; [reflexivity|].
      split; [right; exists (str "big"); reflexivity|left; reflexivity].
Defined.

(** ** path.Base *)

Lemma TrimRight_decompose (c : rune) (p : gostring) :
  exists k, p = strings.TrimRight p [c] ++ repeat c k.
Proof.
  induction p as [|x p [k E]] using rev_ind.
  - exists O. reflexivity.
  - rewrite TrimRight_snoc. destruct (rune_eqb x c) eqn:X.
    + apply rune_eqb_eq in X. subst x. exists (S k).
      rewrite E at 1. rewrite <- app_assoc. cbn [repeat].
      rewrite repeat_cons. reflexivity.
    + exists O. simpl. rewrite app_nil_r. reflexivity.
Qed.

Lemma TrimRight_repeat (c x : rune) (s : gostring) (k : nat) :
  x <> c -> strings.TrimRight ((s ++ [x]) ++ repeat c k) [c] = s ++ [x].
Proof.
  intros N. induction k as [|k IH].
  - simpl. rewrite app_nil_r, TrimRight_snoc.
    apply rune_eqb_neq in N. rewrite N. reflexivity.
  - cbn [repeat]. rewrite repeat_cons, app_assoc, TrimRight_snoc.
    rewrite rune_eqb_refl. exact IH.
Qed.

Lemma existsb_slash_false (s : gostring) :
  existsb (rune_eqb SLASH) s = false <-> ~ In SLASH s.
Proof.
  split.
  - intros H I. assert (E : existsb (rune_eqb SLASH) s = true).
    { apply existsb_exists. exists SLASH.
      split; [exact I|apply rune_eqb_refl]. }
    congruence.
  - intros N. destruct (existsb (rune_eqb SLASH) s) eqn:E; [|reflexivity].
    apply existsb_exists in E. destruct E as (x & I & X).
    apply rune_eqb_eq in X. subst x. contradiction.
Qed.

Lemma afterLastSlash_decompose (p : gostring) :
  exists pre,
    p = pre ++ path.afterLastSlash p
    /\ ~ In SLASH (path.afterLastSlash p)
    /\ (pre = [] \/ exists q, pre = q ++ [SLASH]).
Proof.
  induction p as [|c p (pre & E & N & S)].
  - exists []. repeat split; [intros []|left; reflexivity].
  - cbn [path.afterLastSlash].
    destruct (existsb (rune_eqb SLASH) p) eqn:X.
    + exists (c :: pre). split; [simpl; rewrite <- E; reflexivity|].
      split; [exact N|]. right. destruct S as [->|[q ->]].
      * simpl in E. rewrite <- E in N.
        apply existsb_slash_false in N. congruence.
      * exists (c :: q). reflexivity.
    + apply existsb_slash_false in X.
      destruct (rune_eqb c SLASH) eqn:C.
      * apply rune_eqb_eq in C. subst c. exists [SLASH].
        repeat split; [exact X|right; exists []; reflexivity].
      * apply rune_eqb_neq in C. exists [].
        repeat split; [|left; reflexivity].
        intros [I|I]; [congruence|exact (X I)].
Qed.

Lemma afterLastSlash_plain (name : gostring) :
  ~ In SLASH name -> path.afterLastSlash name = name.
Proof.
  intros N. destruct name as [|c name]; [reflexivity|].
  cbn [path.afterLastSlash].
  assert (X : existsb (rune_eqb SLASH) name = false)
    by (apply existsb_slash_false; intros I; apply N; right; exact I).
  rewrite X.
  assert (C : rune_eqb c SLASH = false)
    by (apply rune_eqb_neq; intros ->; apply N; left; reflexivity).
  rewrite C. reflexivity.
Qed.

Lemma afterLastSlash_behind (q name : gostring) :
  ~ In SLASH name -> path.afterLastSlash (q ++ SLASH :: name) = name.
Proof.
  intros N. induction q as [|x q IH].
  - simpl app. cbn [path.afterLastSlash].
    apply existsb_slash_false in N. rewrite N, rune_eqb_refl. reflexivity.
  - simpl app. cbn [path.afterLastSlash].
    assert (X : existsb (rune_eqb SLASH) (q ++ SLASH :: name) = true).
    { apply existsb_exists. exists SLASH.
      split; [apply in_or_app; right; left; reflexivity|].
      apply rune_eqb_refl. }
    rewrite X. exact IH.
Qed.

(** X11. [path.Base] returns a given name (not empty, without a slash)
    exactly on the paths that are this name, at the start or behind a
    slash, followed by nothing but slashes.  The separator of the title
    page is therefore written for "titlepage.html", ".../titlepage.html"
    and ".../titlepage.html/", and not when a query or a fragment follows
    the name. *)
Theorem Base_last_element (p name : gostring) :
  name <> [] -> ~ In SLASH name -> p <> [] \/ name <> str "." ->
  (path.Base p = name <-> isLastElementOf name p)
  /\ (streq (path.Base p) name = true <-> isLastElementOf name p).
Proof.
  intros N S D.
  assert (M : path.Base p = name <-> isLastElementOf name p).
  { destruct p as [|c0 p0] eqn:P.
    - destruct D as [D|D]; [congruence|]. split.
      + simpl. intros E. congruence.
      + intros (pre & k & E & _). destruct pre; [|discriminate].
        destruct name; [congruence|discriminate].
    - rewrite <- P. clear D. split.
      + intros B. unfold path.Base in B. rewrite P in B. rewrite <- P in B.
        destruct (TrimRight_decompose SLASH p) as [k E].
        destruct (afterLastSlash_decompose (strings.TrimRight p [SLASH]))
          as (pre & E2 & _ & Pre).
        destruct (path.afterLastSlash (strings.TrimRight p [SLASH]))
          as [|a l] eqn:A.
        * exfalso. apply S. rewrite <- B. left. reflexivity.
        * exists pre, k. rewrite <- B. split; [|exact Pre].
          rewrite E at 1. rewrite E2 at 1. rewrite <- app_assoc.
          reflexivity.
      + intros (pre & k & E & Pre).
        destruct (exists_last N) as (n' & x & En).
        assert (X : x <> SLASH).
        { intros ->. apply S. rewrite En. apply in_or_app. right.
          left. reflexivity. }
        assert (T : strings.TrimRight p [SLASH] = pre ++ name).
        { rewrite E, En, !app_assoc. apply TrimRight_repeat. exact X. }
        unfold path.Base. rewrite P. rewrite <- P. cbv zeta. rewrite T.
        assert (A : path.afterLastSlash (pre ++ name) = name).
        { destruct Pre as [->|[q ->]].
          - apply afterLastSlash_plain. exact S.
          - rewrite <- app_assoc. apply afterLastSlash_behind. exact S. }
        rewrite A. destruct name; [congruence|reflexivity]. }
  split; [exact M|]. rewrite streq_eq. exact M.
Qed.

Lemma Base_last_element_witness :
  path.Base (str "https://projekt-gutenberg.org/a/b/titlepage.html/")
  = str "titlepage.html".
Proof.
  apply (Base_last_element
           (str "https://projekt-gutenberg.org/a/b/titlepage.html/")
           (str "titlepage.html")).
  - discriminate.
  - simpl. intros H. repeat (destruct H as [H|H]; [discriminate|]).
    exact H.
  - left. discriminate.
  - exists (str "https://projekt-gutenberg.org/a/b/"), 1%nat.
    split; [reflexivity|].
    right. exists (str "https://projekt-gutenberg.org/a/b"). reflexivity.
Defined.

(** ** More on the text case and the "spaced" effect *)

Lemma squeeze_length (b : bool) (s : gostring) :
  (List.length (squeeze b s) <= List.length s)%nat.
Proof.
  revert b. induction s as [|c s IH]; intros b; [apply Nat.le_refl|].
  simpl. destruct (rune_eqb c SP); [destruct b|]; simpl;
    try (apply le_n_S; apply IH).
  apply Nat.le_trans with (List.length s); [apply IH|lia].
Qed.

(** X12. Converting a text a second time changes nothing, and the
    conversion never makes a text longer. *)
Theorem processText_idempotent (data : gostring) :
  processText (processText data) = processText data
  /\ (List.length (processText data) <= List.length data)%nat.
Proof.
  split.
  - pose proof (processText_no_newline data) as N.
    pose proof (processText_valid data) as V.
    rewrite (processText_squeeze (processText data)).
    rewrite (stripNewlines_id _ N).
    assert (R : runesOf (processText data) = processText data).
    { apply runesOf_id. apply forallb_forall.
      rewrite Forall_forall in V. exact V. }
    rewrite R, processText_squeeze.
    apply squeeze_id. apply squeeze_no_double_space.
  - rewrite processText_squeeze.
    apply Nat.le_trans with (List.length (runesOf (stripNewlines data)));
      [apply squeeze_length|].
    apply Nat.le_trans with (List.length (stripNewlines data));
      [apply runesOf_length|].
    unfold stripNewlines. apply filter_length_le.
Qed.

Lemma everyOther_intersperse (sep : rune) (s : gostring) :
  everyOther (intersperse sep s) = s.
Proof.
  induction s as [|c s IH]; [reflexivity|].
  destruct s as [|c' s]; [reflexivity|].
  change (intersperse sep (c :: c' :: s))
    with (c :: sep :: intersperse sep (c' :: s)).
  cbn [everyOther]. rewrite IH. reflexivity.
Qed.

(** X13. The "spaced" effect loses nothing: the runes at the even places
    of its result are the string it was applied to. *)
Theorem addSpaced_everyOther (r : gostring) :
  everyOther (addSpaced r) = r.
Proof. rewrite addSpaced_intersperse. apply everyOther_intersperse. Qed.

(** ** Invariants of [process] *)

Lemma processChildren_loop (kids : list html.Node) (a : gostring)
  (out : list ConsoleEvent) :
  fold_left (fun acc i => r <- acc ;; p <- process i ;; ret (r ++ p))
            kids (a, out)
  = (a ++ flat_map (fun c => fst (process c)) kids,
     out ++ flat_map (fun c => snd (process c)) kids).
Proof.
  assert (Step : forall a out c,
             (r <- (a, out) ;; p <- process c ;; ret (r ++ p))
             = (a ++ fst (process c), out ++ snd (process c))).
  { intros a0 out0 c. unfold bind, ret. destruct (process c) as [p w].
    cbn [fst snd]. rewrite app_nil_r. reflexivity. }
  revert a out. induction kids as [|c kids IH]; intros a out.
  - simpl. rewrite !app_nil_r. reflexivity.
  - cbn [fold_left flat_map]. rewrite Step, IH, <- !app_assoc.
    reflexivity.
Qed.

(** The closure [processChildren] returns the conversions of the children
    one after the other, and so for their warnings. *)
Lemma processChildren_flat (n : html.Node) :
  processChildren n
  = (flat_map (fun c => fst (process c)) (html.Kids n),
     flat_map (fun c => snd (process c)) (html.Kids n)).
Proof. unfold processChildren, ret. apply processChildren_loop. Qed.

Lemma intersperse_In (sep x : rune) (s : gostring) :
  In x (intersperse sep s) -> x = sep \/ In x s.
Proof.
  induction s as [|c s IH]; [intros []|].
  destruct s as [|c' s].
  - intros [<-|[]]. right. left. reflexivity.
  - change (intersperse sep (c :: c' :: s))
      with (c :: sep :: intersperse sep (c' :: s)).
    intros [<-|[<-|H]].
    + right. left. reflexivity.
    + left. reflexivity.
    + destruct (IH H) as [E|I]; [left; exact E|right; right; exact I].
Qed.

(** X14. Only line breaks, headings and paragraphs put newlines into the
    Markdown: a node with no [br], [h1]..[h6] or [p] element at or below it
    converts to a string without a newline, whatever its texts hold. *)
Theorem newlines_only_from_blocks (n : html.Node) :
  hasLineBreak n = false -> ~ In NL (fst (process n)).
Proof.
  induction n as [t a d attrs kids IH] using Node_forall_ind.
  intros H. cbn [hasLineBreak html.Kids html.DataAtom] in H.
  apply orb_false_iff in H. destruct H as [Hn Hk].
  set (n := html.mkNode t a d attrs kids) in *.
  assert (C : ~ In NL (fst (processChildren n))).
  { rewrite processChildren_flat. cbn [fst]. intros I.
    apply in_flat_map in I. destruct I as (c & Ic & Inl).
    rewrite Forall_forall in IH. apply (IH c Ic); [|exact Inl].
    destruct (hasLineBreak c) eqn:E; [|reflexivity].
    assert (X : existsb hasLineBreak kids = true)
      by (apply existsb_exists; exists c; split; assumption).
    unfold n in Hk. cbn [html.Kids] in Hk. congruence. }
  destruct t eqn:T;
    try (rewrite process_unfold; unfold processNode; subst n;
         cbn [html.Type']; intros []).
  - rewrite process_unfold. unfold processNode. subst n. cbn [html.Type'].
    apply processText_no_newline.
  - rewrite (process_element_spacedIf n eq_refl).
    assert (F : ~ In NL (fst (transformElement n
                                (fun _ => processChildren n)))).
    { unfold html.isElementNode in Hn. subst n.
      cbn [html.Type' html.DataAtom andb] in Hn.
      unfold transformElement. cbn [html.DataAtom].
      destruct a; try discriminate; rewrite ?fst_bind; cbn [ret fst];
        intros I; repeat (apply in_app_or in I; destruct I as [I|I]);
        try exact (C I);
        simpl in I; repeat (destruct I as [I|I]; [discriminate|]);
        exact I. }
    unfold spacedIf. destruct (hasClass n (str "spaced")); [|exact F].
    intros I. apply intersperse_In in I. destruct I as [E|I];
      [discriminate|exact (F I)].
Qed.

Lemma newlines_only_from_blocks_witness :
  ~ In NL (fst (process (el_a [] [text ([NL] ++ str "a" ++ [NL]);
                                  el_i class_spaced [text (str "b")]]))).
Proof. apply newlines_only_from_blocks. reflexivity. Defined.

Lemma snd_bind {T U} (m : Console T) (f : T -> Console U) :
  snd (bind m f) = snd m ++ snd (f (fst m)).
Proof.
  unfold bind. destruct m as [v out1]. simpl.
  destruct (f v). reflexivity.
Qed.

Lemma flat_map_nil {A B} (f : A -> list B) (l : list A) :
  flat_map f l = [] <-> forall x, In x l -> f x = [].
Proof.
  induction l as [|a l IH]; simpl.
  - split; [intros _ x []|reflexivity].
  - split.
    + intros H. apply app_eq_nil in H. destruct H as [H1 H2].
      intros x [<-|I]; [exact H1|]. apply IH; assumption.
    + intros H. rewrite (H a (or_introl eq_refl)). simpl.
      apply IH. intros x I. apply H. right. exact I.
Qed.

Lemma process_warnings_element (n : html.Node) :
  html.Type' n = html.ElementNode ->
  snd (process n)
  = snd (transformElement n (fun _ => processChildren n)).
Proof.
  intros T. rewrite process_unfold. unfold processNode. rewrite T.
  rewrite snd_bind.
  destruct (hasClass n (str "spaced")); cbn [ret snd];
    apply app_nil_r.
Qed.

(** X15. [process] prints nothing exactly on the quiet nodes: texts, and
    elements of the atoms main.go names whose converted children are
    quiet.  The children of a line break and of an image are not
    converted, so nothing below them is ever reported. *)
Theorem process_silent_iff_quiet (n : html.Node) :
  snd (process n) = [] <-> quiet n = true.
Proof.
  induction n as [t a d attrs kids IH] using Node_forall_ind.
  set (n := html.mkNode t a d attrs kids).
  assert (K : snd (processChildren n) = [] <-> forallb quiet kids = true).
  { rewrite processChildren_flat. cbn [snd]. rewrite flat_map_nil.
    rewrite forallb_forall. rewrite Forall_forall in IH.
    split; intros H c I; apply (IH c I); apply H; exact I. }
  destruct t eqn:T;
    try (rewrite process_unfold; unfold processNode; subst n;
         cbn [html.Type' quiet]; unfold bind, clearLine, emit, ret;
         simpl; split; discriminate).
  - rewrite process_unfold. unfold processNode. subst n.
    cbn [html.Type' quiet ret snd]. split; reflexivity.
  - rewrite (process_warnings_element n eq_refl).
    unfold transformElement. subst n.
    cbn [html.Type' html.DataAtom html.Kids quiet].
    destruct a;
      try (cbn [ret snd]; split; reflexivity);
      try (unfold bind, clearLine, emit, ret; simpl; split; discriminate);
      try (rewrite snd_bind; cbn [ret snd]; rewrite app_nil_r; exact K);
      try exact K.
    destruct (hasClass _ (str "centerbig"));
      rewrite snd_bind; cbn [ret snd]; rewrite app_nil_r; exact K.
Qed.

(** ** getMetaInfo *)

Lemma Filter_first (s pre post : gq.Selection) (m : gq.Loc)
  (sel : gq.Selector) :
  s = pre ++ m :: post ->
  (forall x, In x pre -> gq.Match sel (fst x) (snd x) = false) ->
  gq.Match sel (fst m) (snd m) = true ->
  exists rest, gq.Filter s sel = m :: rest.
Proof.
  intros -> F M. unfold gq.Filter. rewrite filter_app. cbn [filter].
  rewrite M. eexists.
  induction pre as [|x pre IH]; [reflexivity|].
  cbn [filter]. rewrite (F x (or_introl eq_refl)).
  apply IH. intros y I. apply F. right. exact I.
Qed.

Lemma Filter_none (s : gq.Selection) (sel : gq.Selector) :
  (forall x, In x s -> gq.Match sel (fst x) (snd x) = false) ->
  gq.Filter s sel = [].
Proof.
  intros F. unfold gq.Filter. induction s as [|x s IH]; [reflexivity|].
  cbn [filter]. rewrite (F x (or_introl eq_refl)).
  apply IH. intros y I. apply F. right. exact I.
Qed.

(** X16. Each field of the metadata is read from the first [meta] element
    below [head], in document order, whose [name] attribute has the value
    "author", "title" or "firstpub": it is the value of the [content]
    attribute of that element, and "Unknown" when that element has no
    [content] attribute (whatever later elements of the same name hold) or
    when there is no such element. *)
Theorem getMetaInfo_first_match (doc : gq.Document) :
  getMetaInfo doc
  = mkMetaInfo (metaField doc (str "author")) (metaField doc (str "title"))
               (metaField doc (str "firstpub"))
  /\ (forall m, In m (metaElements doc) ->
                gq.Match sel_head_meta (fst m) (snd m) = true)
  /\ (forall name,
        (forall m, In m (metaElements doc) -> hasName name m = false) ->
        metaField doc name = str "Unknown")
  /\ (forall name pre m post,
        metaElements doc = pre ++ m :: post ->
        (forall x, In x pre -> hasName name x = false) ->
        hasName name m = true ->
        metaField doc name
        = if snd (gq.getAttributeValue (str "content") (html.Attr (snd m)))
          then fst (gq.getAttributeValue (str "content")
                                         (html.Attr (snd m)))
          else str "Unknown").
Proof.
  split; [reflexivity|]. split; [|split].
  - intros m I. exact (Find_sound _ _ _ I).
  - intros name F. unfold metaField. rewrite Filter_none by exact F.
    reflexivity.
  - intros name pre m post E F M. unfold metaField.
    destruct (Filter_first _ _ _ _ _ E F M) as [rest R]. rewrite R.
    unfold gq.AttrOr, gq.Attr. destruct m as [anc n]. cbn [snd].
    destruct (gq.getAttributeValue (str "content") (html.Attr n))
      as [v ok].
    reflexivity.
Qed.

(** ** NewExtractor and FetchAndProcessIndex *)

(** X17. [NewExtractor] never panics, and an extractor it returns holds
    the writer given, no chapters, empty metadata and a base URL of the
    shape scheme, "://projekt-gutenberg.org/", author segment, "/", book
    segment, with the scheme "http" or "https", an author segment that is
    not empty and no slash within either segment. *)
Theorem NewExtractor_base_url (url_Parse : gostring -> url.ParseResult)
  (rawurl w : gostring) :
  (forall msg, NewExtractor url_Parse rawurl w <> Panic msg)
  /\ (forall e, NewExtractor url_Parse rawurl w = Ok e ->
      W e = w /\ ChapterUrls e = [] /\ Meta e = mkMetaInfo [] [] []
      /\ exists scheme seg0 seg1,
           (scheme = str "http" \/ scheme = str "https")
           /\ seg0 <> [] /\ ~ In SLASH seg0 /\ ~ In SLASH seg1
           /\ BaseUrl e = scheme ++ str "://projekt-gutenberg.org/"
                          ++ seg0 ++ str "/" ++ seg1).
Proof.
  unfold NewExtractor. rewrite getBaseUrl_spec.
  destruct (url_Parse rawurl) as [u|msg];
    [|split; [discriminate|intros e H; discriminate]].
  destruct (schemeOk u) eqn:S;
    [|split; [discriminate|intros e H; discriminate]].
  destruct (hostOk u);
    [|split; [discriminate|intros e H; discriminate]].
  cbn [andb].
  destruct (pathSegments (url.Path u)) as [|seg0 [|seg1 rest]] eqn:P;
    try (split; [discriminate|intros e H; discriminate]).
  split; [discriminate|]. intros e H. injection H as <-.
  cbn [W ChapterUrls Meta BaseUrl]. repeat split.
  exists (url.Scheme u), seg0, seg1.
  split.
  { unfold schemeOk in S. apply orb_true_iff in S.
    destruct S as [S|S]; apply streq_eq in S; [left|right]; exact S. }
  split; [exact (pathSegments_head _ _ _ P)|].
  split; [|split; [|reflexivity]];
    apply (pathSegments_no_slash (url.Path u)); rewrite P;
    [left|right; left]; reflexivity.
Qed.

(** X18. [FetchAndProcessIndex] never touches the base URL or the buffer.
    It succeeds only on a response whose status is not 404 and whose
    document yields chapters, and then stores the metadata of the document
    and a list of chapter URLs that is not empty, each the base URL, "/"
    and the link of a list item, in document order.  A response of status
    404 gives [ErrBookNotFound] whatever its body holds; no other status is
    refused.  On every failure the list of chapters stays as it was, but a
    failure of [getChapters] comes after the metadata has been stored. *)
Theorem FetchAndProcessIndex_effects
  (http_Get : gostring -> Response + gostring)
  (NewDocumentFromReader : gostring -> gq.Document + gostring)
  (e : Extractor) :
  let r := FetchAndProcessIndex http_Get NewDocumentFromReader e in
  BaseUrl (fst r) = BaseUrl e /\ W (fst r) = W e
  /\ (snd r = Ok tt ->
      exists resp doc,
        http_Get (BaseUrl e) = inl resp /\ StatusCode resp <> 404
        /\ NewDocumentFromReader (Body resp) = inl doc
        /\ Meta (fst r) = getMetaInfo doc
        /\ ChapterUrls (fst r)
           = map (chapterUrlOf (BaseUrl e)) (listItems doc)
        /\ ChapterUrls (fst r) <> [])
  /\ (snd r <> Ok tt -> ChapterUrls (fst r) = ChapterUrls e)
  /\ (forall resp, http_Get (BaseUrl e) = inl resp ->
                   StatusCode resp = 404 -> r = (e, Err ErrBookNotFound))
  /\ (forall resp doc,
        http_Get (BaseUrl e) = inl resp -> StatusCode resp <> 404 ->
        NewDocumentFromReader (Body resp) = inl doc ->
        snd r = match getChapters (BaseUrl e) doc with
                | Ok _ => Ok tt
                | Err er => Err er
                | Panic msg => Panic msg
                end
        /\ Meta (fst r) = getMetaInfo doc).
Proof.
  cbv zeta. unfold FetchAndProcessIndex.
  destruct (http_Get (BaseUrl e)) as [resp|msg];
    [|split; [reflexivity|]; split; [reflexivity|];
      split; [discriminate|]; split; [reflexivity|];
      split; [discriminate|discriminate]].
  destruct (StatusCode resp =? 404) eqn:S.
  { apply Z.eqb_eq in S.
    split; [reflexivity|]. split; [reflexivity|].
    split; [discriminate|]. split; [reflexivity|].
    split; [reflexivity|].
    intros resp' doc E C. injection E as <-. contradiction. }
  apply Z.eqb_neq in S.
  destruct (NewDocumentFromReader (Body resp)) as [doc|msg] eqn:N;
    [|split; [reflexivity|]; split; [reflexivity|];
      split; [discriminate|]; split; [reflexivity|];
      split; [intros resp' E X; injection E as <-; contradiction|];
      intros resp' doc E _ D; injection E as <-; congruence].
  cbn [BaseUrl]. pose proof (getChapters_spec (BaseUrl e) doc) as G.
  destruct (getChapters (BaseUrl e) doc) as [urls|er|msg] eqn:C;
    cbn [fst snd BaseUrl W Meta ChapterUrls];
    (split; [reflexivity|]); (split; [reflexivity|]).
  - split.
    { intros _. exists resp, doc.
      destruct (forallb hasChapterLink (listItems doc)); [|discriminate].
      destruct (listItems doc) as [|li items] eqn:L; [discriminate|].
      injection G as ->.
      split; [reflexivity|]. split; [exact S|]. split; [exact N|].
      split; [reflexivity|]. split; [reflexivity|]. discriminate. }
    split; [congruence|].
    split; [intros resp' E X; injection E as <-; contradiction|].
    intros resp' doc' E _ D. injection E as <-.
    rewrite N in D. injection D as <-. rewrite C. split; reflexivity.
  - split; [discriminate|]. split; [reflexivity|].
    split; [intros resp' E X; injection E as <-; contradiction|].
    intros resp' doc' E _ D. injection E as <-.
    rewrite N in D. injection D as <-. rewrite C. split; reflexivity.
  - split; [discriminate|]. split; [reflexivity|].
    split; [intros resp' E X; injection E as <-; contradiction|].
    intros resp' doc' E _ D. injection E as <-.
    rewrite N in D. injection D as <-. rewrite C. split; reflexivity.
Qed.

(** ** The command line *)

Lemma last_cons {A} (x d : A) (l : list A) : last (x :: l) d = last l x.
Proof.
  revert x d. induction l as [|y l IH]; intros x d; [reflexivity|].
  change (last (x :: y :: l) d) with (last (y :: l) d).
  rewrite (IH y d), (IH y x). reflexivity.
Qed.

Lemma parseArgs_tokens (arg0 : gostring) (n : nat) :
  forall args url0 dir0 url dir,
  (List.length args <= n)%nat ->
  (parseArgs arg0 args url0 dir0 = ([], inl (url, dir)) <->
   forallb benign (tokens args) = true
   /\ Forall (fun p => p = [])
             (removelast (url0 :: positionals (tokens args)))
   /\ url = last (positionals (tokens args)) url0
   /\ dir = last (dirOperands (tokens args)) dir0).
Proof.
  induction n as [|n IH]; intros args url0 dir0 url dir L.
  - destruct args; [|simpl in L; lia]. simpl. split.
    + intros E. injection E as <- <-. repeat split. constructor.
    + intros (_ & _ & -> & ->). reflexivity.
  - destruct args as [|arg rest].
    + simpl. split.
      * intros E. injection E as <- <-. repeat split. constructor.
      * intros (_ & _ & -> & ->). reflexivity.
    + cbn [parseArgs tokens]. destruct (isOption arg).
      * destruct (streq arg (str "-dir")).
        -- destruct rest as [|operand rest'].
           ++ split; [discriminate|]. intros (B & _). discriminate.
           ++ cbn [forallb benign positionals dirOperands andb].
              rewrite (IH rest' url0 operand url dir)
                by (simpl in L; lia).
              rewrite last_cons. reflexivity.
        -- destruct (streq arg (str "--help") || streq arg (str "-h")).
           ++ split; [discriminate|]. intros (B & _). discriminate.
           ++ split; [discriminate|]. intros (B & _). discriminate.
      * cbn [forallb benign positionals dirOperands andb].
        rewrite last_cons.
        destruct (streq url0 []) eqn:U.
        -- apply streq_eq in U. subst url0.
           rewrite (IH rest arg dir0 url dir) by (simpl in L; lia).
           change (removelast ([] :: arg :: positionals (tokens rest)))
             with ([] :: removelast (arg :: positionals (tokens rest))).
           split.
           ++ intros (B & F & R). split; [exact B|].
              split; [constructor; [reflexivity|exact F]|exact R].
           ++ intros (B & F & R). split; [exact B|].
              split; [inversion F; assumption|exact R].
        -- apply streq_neq in U. split; [discriminate|].
           intros (_ & F & _).
           change (removelast (url0 :: arg :: positionals (tokens rest)))
             with (url0 :: removelast (arg :: positionals (tokens rest)))
             in F.
           inversion F. contradiction.
Qed.

(** X19. The command line is accepted exactly when, read from the left,
    it holds only "-dir" with an operand and arguments that are no
    options, and every such argument but the last is the empty string;
    the URL is then the last such argument (empty when there is none) and
    the directory the operand of the last "-dir", or "." without one.  An
    operand of "-dir" is taken as it is, even when it looks like an
    option, and nothing is printed while reading. *)
Theorem parseArgs_accepts (arg0 : gostring) (args : list gostring)
  (url dir : gostring) :
  parseArgs arg0 args [] (str ".") = ([], inl (url, dir)) <->
  forallb benign (tokens args) = true
  /\ Forall (fun p => p = []) (removelast (positionals (tokens args)))
  /\ url = last (positionals (tokens args)) []
  /\ dir = last (dirOperands (tokens args)) (str ".").
Proof.
  rewrite (parseArgs_tokens arg0 (List.length args) args [] (str ".")
             url dir (Nat.le_refl _)).
  destruct (positionals (tokens args)) as [|p ps] eqn:P.
  - simpl. split; intros (B & F & R1 & R2);
      (split; [exact B|]); (split; [constructor|]); split; assumption.
  - change (removelast ([] :: p :: ps)) with ([] :: removelast (p :: ps)).
    split; intros (B & F & R); (split; [exact B|]); (split; [|exact R]).
    + inversion F; assumption.
    + constructor; [reflexivity|exact F].
Qed.

Lemma parseArgs_accepts_witness :
  parseArgs (str "prog")
            [str ""; str "-dir"; str "-h"; str "https://x"] [] (str ".")
  = ([], inl (str "https://x", str "-h")).
Proof.
  apply (parseArgs_accepts (str "prog")
           [str ""; str "-dir"; str "-h"; str "https://x"]).
  split; [reflexivity|]. split; [|split; reflexivity].
  constructor; [reflexivity|constructor].
Defined.

(** The ways in which reading the command line ends. *)
Lemma parseArgs_cases (arg0 : gostring) (n : nat) :
  forall (args : list gostring) (url0 dir0 : gostring),
    (List.length args <= n)%nat ->
    (exists url dir, parseArgs arg0 args url0 dir0 = ([], inl (url, dir)))
    \/ parseArgs arg0 args url0 dir0 = ([EvUsage arg0], inr (ExitCode 0))
    \/ (exists text,
          parseArgs arg0 args url0 dir0 = ([EvErr text], inr (ExitCode 1))).
Proof.
  induction n as [|n IH]; intros args url0 dir0 L.
  - destruct args; [|simpl in L; lia]. left. eexists _, _. reflexivity.
  - destruct args as [|arg rest]; [left; eexists _, _; reflexivity|].
    cbn [parseArgs]. destruct (isOption arg).
    + destruct (streq arg (str "-dir")).
      * destruct rest as [|operand rest'].
        -- right. right. eexists. reflexivity.
        -- apply IH. simpl in L. lia.
      * destruct (streq arg (str "--help") || streq arg (str "-h")).
        -- right. left. reflexivity.
        -- right. right. eexists. reflexivity.
    + destruct (streq url0 []).
      * apply IH. simpl in L. lia.
      * right. right. eexists. reflexivity.
Qed.

(** X20. Reading the command line ends in one of three ways: it is
    accepted without output, or the usage text is printed and the program
    ends with status 0 (a call for help), or one error line is printed and
    the program ends with status 1. *)
Theorem parseArgs_outcomes (arg0 : gostring) (args : list gostring)
  (url0 dir0 : gostring) :
  (exists url dir, parseArgs arg0 args url0 dir0 = ([], inl (url, dir)))
  \/ parseArgs arg0 args url0 dir0 = ([EvUsage arg0], inr (ExitCode 0))
  \/ (exists text,
        parseArgs arg0 args url0 dir0 = ([EvErr text], inr (ExitCode 1))).
Proof.
  exact (parseArgs_cases arg0 (List.length args) args url0 dir0
           (Nat.le_refl _)).
Qed.

(** ** The loop over the chapters *)

Lemma gets_app (a b : list MainEvent) : gets (a ++ b) = gets a ++ gets b.
Proof.
  induction a as [|ev a IH]; [reflexivity|].
  destruct ev; simpl; rewrite IH; reflexivity.
Qed.

Lemma writes_app (a b : list MainEvent) :
  writes (a ++ b) = writes a ++ writes b.
Proof.
  induction a as [|ev a IH]; [reflexivity|].
  destruct ev; simpl; rewrite IH; reflexivity.
Qed.

Lemma gets_console (evs : list ConsoleEvent) : gets (map EvConsole evs) = [].
Proof. induction evs as [|ev evs IH]; [reflexivity|exact IH]. Qed.

Lemma writes_console (evs : list ConsoleEvent) :
  writes (map EvConsole evs) = [].
Proof. induction evs as [|ev evs IH]; [reflexivity|exact IH]. Qed.

Lemma W_withW (e : Extractor) (w : gostring) : W (withW e w) = w.
Proof. reflexivity. Qed.

Lemma withW_twice (e : Extractor) (a b : gostring) :
  withW (withW e a) b = withW e b.
Proof. reflexivity. Qed.

Lemma forallb_false_split {A} (f : A -> bool) (l : list A) :
  forallb f l = false ->
  exists done bad rest,
    l = done ++ bad :: rest /\ forallb f done = true /\ f bad = false.
Proof.
  induction l as [|x l IH]; [discriminate|]. cbn [forallb].
  destruct (f x) eqn:F.
  - intros H. destruct (IH H) as (done & bad & rest & -> & D & B).
    exists (x :: done), bad, rest. cbn [forallb]. rewrite F, D.
    repeat split. exact B.
  - intros _. exists [], x, l. repeat split. exact F.
Qed.

Section Chapters.

Variable http_Get : gostring -> Response + gostring.
Variable NewDocumentFromReader : gostring -> gq.Document + gostring.

Let fetch := fetchChapter http_Get NewDocumentFromReader.
Let ok := chapterOk http_Get NewDocumentFromReader.
Let textOf := chapterText http_Get NewDocumentFromReader.
Let loop := downloadChapters http_Get NewDocumentFromReader.

(** A chapter that converts appends its text, with some warnings. *)
Lemma chapter_ok (e : Extractor) (chapterUrl : gostring) :
  ok chapterUrl = true ->
  exists warnings,
    FetchAndProcessChapter fetch e chapterUrl
    = ((withW e (W e ++ textOf chapterUrl), None), warnings).
Proof.
  unfold ok, textOf, chapterOk, chapterText, FetchAndProcessChapter, fetch.
  destruct (fetchChapter http_Get NewDocumentFromReader chapterUrl)
    as [doc|msg]; [|discriminate].
  rewrite parseAdditionalPage_spec.
  destruct (overrun 0 (bodyChildren doc)); [discriminate|]. intros _.
  unfold bind, ret. cbn [fst snd].
  destruct (streq (path.Base chapterUrl) (str "titlepage.html")).
  - eexists. unfold Fprintln, withW, separator.
    cbn [BaseUrl Meta ChapterUrls W]. rewrite <- !app_assoc. reflexivity.
  - eexists. rewrite !app_nil_r. reflexivity.
Qed.

(** A chapter that does not convert leaves the extractor as it was and
    prints nothing. *)
Lemma chapter_bad (e : Extractor) (chapterUrl : gostring) :
  ok chapterUrl = false ->
  exists er, FetchAndProcessChapter fetch e chapterUrl = ((e, Some er), []).
Proof.
  unfold ok, chapterOk, FetchAndProcessChapter, fetch.
  destruct (fetchChapter http_Get NewDocumentFromReader chapterUrl)
    as [doc|msg]; [|intros _; eexists; reflexivity].
  rewrite parseAdditionalPage_spec.
  destruct (overrun 0 (bodyChildren doc)); [|discriminate]. intros _.
  eexists. reflexivity.
Qed.

Lemma downloadChapters_ok (chapters : list gostring) :
  forall (e : Extractor) (i n : Z),
    forallb ok chapters = true ->
    snd (loop e i n chapters)
    = inl (withW e (W e ++ flat_map textOf chapters))
    /\ gets (fst (loop e i n chapters)) = chapters
    /\ writes (fst (loop e i n chapters)) = [].
Proof.
  induction chapters as [|c rest IH]; intros e i n A.
  - unfold loop. cbn [downloadChapters flat_map pret fst snd gets writes].
    rewrite app_nil_r, withW_W. repeat split.
  - cbn [forallb] in A. apply andb_true_iff in A. destruct A as [C A].
    destruct (chapter_ok e c C) as [warnings S].
    destruct (IH (withW e (W e ++ textOf c)) (i + 1) n A) as (R & G & Wr).
    unfold loop in *. cbn [downloadChapters]. fold fetch. rewrite S.
    unfold pbind, say. cbn [fst snd].
    destruct (snd (downloadChapters http_Get NewDocumentFromReader
                     (withW e (W e ++ textOf c)) (i + 1) n rest)) as [e'|x];
      [|discriminate].
    injection R as ->. cbn [fst snd flat_map].
    rewrite withW_twice, ?W_withW, <- app_assoc.
    split; [reflexivity|].
    cbn [app gets writes]. rewrite gets_app, writes_app, gets_console,
      writes_console, G, Wr. repeat split.
Qed.

Lemma downloadChapters_fail (done : list gostring) :
  forall (e : Extractor) (i n : Z) (bad : gostring) (rest : list gostring),
    forallb ok done = true -> ok bad = false ->
    snd (loop e i n (done ++ bad :: rest)) = inr (ExitCode 1)
    /\ gets (fst (loop e i n (done ++ bad :: rest))) = done ++ [bad]
    /\ writes (fst (loop e i n (done ++ bad :: rest))) = [].
Proof.
  induction done as [|c done IH]; intros e i n bad rest A B.
  - destruct (chapter_bad e bad B) as [er S].
    unfold loop. cbn [app downloadChapters]. fold fetch. rewrite S.
    repeat split.
  - cbn [forallb] in A. apply andb_true_iff in A. destruct A as [C A].
    destruct (chapter_ok e c C) as [warnings S].
    destruct (IH (withW e (W e ++ textOf c)) (i + 1) n bad rest A B)
      as (R & G & Wr).
    unfold loop in *. cbn [app downloadChapters]. fold fetch. rewrite S.
    unfold pbind, say. cbn [fst snd].
    destruct (snd (downloadChapters http_Get NewDocumentFromReader
                     (withW e (W e ++ textOf c)) (i + 1) n
                     (done ++ bad :: rest))) as [e'|x];
      [discriminate|].
    injection R as ->. cbn [fst snd].
    split; [reflexivity|].
    cbn [app gets writes]. rewrite gets_app, writes_app, gets_console,
      writes_console, G, Wr. repeat split.
Qed.

(** X21. The loop over the chapters requests them in order and stops at the
    first one that does not convert.  When all convert it returns the
    extractor with the texts of the chapters appended to the buffer in
    order, each the Markdown of its retained content, followed by the
    separator and a newline when the last element of its URL is
    "titlepage.html".  When one does not convert the program ends there
    with status 1: the chapters behind it are never requested.  In neither
    case is a file written. *)
Theorem downloadChapters_all_or_first_failure
  (e : Extractor) (i n : Z) (chapters : list gostring) :
  writes (fst (loop e i n chapters)) = []
  /\ (forallb ok chapters = true ->
      snd (loop e i n chapters)
      = inl (withW e (W e ++ flat_map textOf chapters))
      /\ gets (fst (loop e i n chapters)) = chapters)
  /\ (forall done bad rest,
        chapters = done ++ bad :: rest ->
        forallb ok done = true -> ok bad = false ->
        snd (loop e i n chapters) = inr (ExitCode 1)
        /\ gets (fst (loop e i n chapters)) = done ++ [bad]).
Proof.
  split; [|split].
  - destruct (forallb ok chapters) eqn:A.
    + apply (downloadChapters_ok chapters e i n A).
    + destruct (forallb_false_split ok chapters A)
        as (done & bad & rest & -> & D & B).
      apply (downloadChapters_fail done e i n bad rest D B).
  - intros A. destruct (downloadChapters_ok chapters e i n A) as (R & G & _).
    split; assumption.
  - intros done bad rest -> D B.
    destruct (downloadChapters_fail done e i n bad rest D B) as (R & G & _).
    split; assumption.
Qed.

End Chapters.

(** ** The run of the program *)

(** What [NewExtractor] returns. *)
Lemma NewExtractor_cases (url_Parse : gostring -> url.ParseResult)
  (rawurl w : gostring) :
  (exists er, NewExtractor url_Parse rawurl w = Err er)
  \/ (exists scheme seg0 seg1,
        (scheme = str "http" \/ scheme = str "https")
        /\ NewExtractor url_Parse rawurl w
           = Ok (mkExtractor (scheme ++ str "://projekt-gutenberg.org/"
                              ++ seg0 ++ str "/" ++ seg1)
                             (mkMetaInfo [] [] []) [] w)).
Proof.
  unfold NewExtractor. rewrite getBaseUrl_spec.
  destruct (url_Parse rawurl) as [u|msg]; [|left; eexists; reflexivity].
  destruct (schemeOk u) eqn:S; [|left; eexists; reflexivity].
  destruct (hostOk u); [|left; eexists; reflexivity].
  cbn [andb].
  destruct (pathSegments (url.Path u)) as [|seg0 [|seg1 rest]];
    try (left; eexists; reflexivity).
  right. exists (url.Scheme u), seg0, seg1. split; [|reflexivity].
  unfold schemeOk in S. apply orb_true_iff in S.
  destruct S as [S|S]; apply streq_eq in S; [left|right]; exact S.
Qed.

Lemma pbind_inl {T U} (evs : list MainEvent) (v : T) (f : T -> Prog U) :
  pbind (evs, inl v) f = (evs ++ fst (f v), snd (f v)).
Proof. reflexivity. Qed.

Lemma pbind_inr {T U} (evs : list MainEvent) (x : Exit) (f : T -> Prog U) :
  pbind (evs, inr x) f = (evs, inr x).
Proof. reflexivity. Qed.

Section Run.

Variable url_Parse : gostring -> url.ParseResult.
Variable http_Get : gostring -> Response + gostring.
Variable NewDocumentFromReader : gostring -> gq.Document + gostring.

Let ok := chapterOk http_Get NewDocumentFromReader.
Let textOf := chapterText http_Get NewDocumentFromReader.
Let index := FetchAndProcessIndex http_Get NewDocumentFromReader.
Let program := run url_Parse http_Get NewDocumentFromReader.

(** [FetchAndProcessIndex] keeps the base URL and the buffer. *)
Lemma index_frame (e : Extractor) :
  BaseUrl (fst (index e)) = BaseUrl e /\ W (fst (index e)) = W e.
Proof.
  unfold index, FetchAndProcessIndex.
  destruct (http_Get (BaseUrl e)) as [resp|msg]; [|split; reflexivity].
  destruct (StatusCode resp =? 404); [split; reflexivity|].
  destruct (NewDocumentFromReader (Body resp)) as [doc|msg];
    [|split; reflexivity].
  cbn [BaseUrl].
  destruct (getChapters (BaseUrl e) doc); split; reflexivity.
Qed.

(** The chapters of an index that was read are links below the base URL. *)
Lemma index_chapters (e : Extractor) (u : gostring) :
  snd (index e) = Ok tt -> In u (ChapterUrls (fst (index e))) ->
  exists href, u = BaseUrl e ++ str "/" ++ href.
Proof.
  unfold index, FetchAndProcessIndex.
  destruct (http_Get (BaseUrl e)) as [resp|msg]; [|discriminate].
  destruct (StatusCode resp =? 404); [discriminate|].
  destruct (NewDocumentFromReader (Body resp)) as [doc|msg];
    [|discriminate].
  cbn [BaseUrl]. rewrite getChapters_spec.
  destruct (forallb hasChapterLink (listItems doc)); [|discriminate].
  destruct (listItems doc) as [|li items]; [discriminate|].
  cbn [fst snd ChapterUrls]. intros _ I. apply in_map_iff in I.
  destruct I as (s & <- & _). eexists. reflexivity.
Qed.

(** The file of a book: the name and the data [main] writes for the
    extractor [e'] that holds the index, into the directory [dir]. *)
Let fileOf (dir : gostring) (e' : Extractor) : gostring * gostring :=
  (path.Join [dir; ToTitle (Meta e') ++ str ".md"],
   flat_map textOf (ChapterUrls e')).

(** The ways in which the program runs: it ends before any request (the
    command line is not accepted, names no URL, or the URL is refused), or
    at the index, or at a chapter, or it writes the file. *)
Lemma run_cases (Args : list gostring) :
  (gets (fst (program Args)) = [] /\ writes (fst (program Args)) = []
   /\ (snd (program Args) = ExitCode 1
       \/ (snd (program Args) = ExitCode 0
           /\ fst (program Args) = [EvUsage (hd [] Args)])
       \/ (Args = [] /\ exists msg, snd (program Args) = GoPanic msg))
   /\ (forall arg0 args url dir e,
         Args = arg0 :: args ->
         parseArgs arg0 args [] (str ".") = ([], inl (url, dir)) ->
         url <> [] -> NewExtractor url_Parse url [] = Ok e -> False))
  \/ (exists arg0 args url dir e,
        Args = arg0 :: args
        /\ parseArgs arg0 args [] (str ".") = ([], inl (url, dir))
        /\ url <> []
        /\ NewExtractor url_Parse url [] = Ok e
        /\ ((gets (fst (program Args)) = [BaseUrl e]
             /\ writes (fst (program Args)) = []
             /\ ((exists er, snd (index e) = Err er
                             /\ snd (program Args) = ExitCode 1)
                 \/ (exists msg, snd (index e) = Panic msg
                                 /\ snd (program Args) = GoPanic msg)))
            \/ (snd (index e) = Ok tt
                /\ exists done bad rest,
                     ChapterUrls (fst (index e)) = done ++ bad :: rest
                     /\ forallb ok done = true /\ ok bad = false
                     /\ gets (fst (program Args))
                        = BaseUrl e :: done ++ [bad]
                     /\ writes (fst (program Args)) = []
                     /\ snd (program Args) = ExitCode 1)
            \/ (snd (index e) = Ok tt
                /\ forallb ok (ChapterUrls (fst (index e))) = true
                /\ gets (fst (program Args))
                   = BaseUrl e :: ChapterUrls (fst (index e))
                /\ writes (fst (program Args)) = [fileOf dir (fst (index e))]
                /\ snd (program Args) = ExitCode 0))).
Proof.
  unfold program, run, main.
  destruct Args as [|arg0 args].
  { left. split; [reflexivity|]. split; [reflexivity|].
    split; [|discriminate].
    right. right. split; [reflexivity|]. eexists. reflexivity. }
  destruct args as [|arg1 args'].
  { left. split; [reflexivity|]. split; [reflexivity|].
    split; [left; reflexivity|].
    intros a0 as' u d e0 E Pq X. injection E as <- <-.
    injection Pq as <- _. contradiction X. reflexivity. }
  replace (Z.of_nat (List.length (arg0 :: arg1 :: args')) <? 2) with false
    by (symmetry; apply Z.ltb_ge; cbn [List.length]; lia).
  remember (arg1 :: args') as args eqn:EA. clear EA arg1 args'.
  destruct (parseArgs_cases arg0 (List.length args) args [] (str ".")
              (Nat.le_refl _)) as [(url & dir & P)|[P|(text & P)]];
    rewrite P;
    [|left; split; [reflexivity|]; split; [reflexivity|];
      split; [right; left; split; reflexivity|];
      intros a0 as' u d e0 E Pq; injection E as <- <-;
      rewrite P in Pq; discriminate
     |left; split; [reflexivity|]; split; [reflexivity|];
      split; [left; reflexivity|];
      intros a0 as' u d e0 E Pq; injection E as <- <-;
      rewrite P in Pq; discriminate].
  unfold pret. rewrite !pbind_inl. cbv beta iota zeta. cbn [fst snd app].
  destruct (streq url []) eqn:U.
  { left. split; [reflexivity|]. split; [reflexivity|].
    split; [left; reflexivity|].
    intros a0 as' u d e0 E Pq X. injection E as <- <-.
    rewrite P in Pq. injection Pq as <- _.
    apply streq_eq in U. contradiction. }
  unfold printInfo, say. rewrite !pbind_inl. cbn [fst snd app].
  unfold download.
  destruct (NewExtractor url_Parse url []) as [e|er|msg] eqn:N.
  2:{ left. split; [reflexivity|]. split; [reflexivity|].
      split; [left; reflexivity|].
      intros a0 as' u d e0 E Pq X. injection E as <- <-.
      rewrite P in Pq. injection Pq as <- _. rewrite N. discriminate. }
  2:{ exfalso.
      destruct (NewExtractor_cases url_Parse url [])
        as [(er & X)|(s & a & b & _ & X)]; rewrite X in N; discriminate. }
  right. exists arg0, args, url, dir, e.
  split; [reflexivity|]. split; [exact P|].
  split; [intros ->; discriminate|]. split; [exact N|].
  fold index.
  destruct (index_frame e) as [FB FW].
  assert (W0 : W e = []).
  { destruct (NewExtractor_cases url_Parse url [])
      as [(er & X)|(s & a & b & _ & X)]; rewrite X in N;
      [discriminate|]. injection N as <-. reflexivity. }
  destruct (snd (index e)) as [[]|er|msg] eqn:I.
  2:{ left. split; [reflexivity|]. split; [reflexivity|].
      left. exists er. split; reflexivity. }
  2:{ left. split; [reflexivity|]. split; [reflexivity|].
      right. exists msg. split; reflexivity. }
  right.
  set (e' := fst (index e)) in *.
  set (n := Z.of_nat (List.length (ChapterUrls e'))).
  fold (downloadChapters http_Get NewDocumentFromReader).
  destruct (forallb ok (ChapterUrls e')) eqn:A.
  - right. split; [reflexivity|]. split; [reflexivity|].
    destruct (downloadChapters_ok http_Get NewDocumentFromReader
                (ChapterUrls e') e' 0 n A) as (R & G & Wr).
    unfold printInfo, say, pbind. cbn [fst snd].
    rewrite R. cbn [fst snd app gets writes].
    rewrite gets_app, writes_app, G, Wr. cbn [app gets writes].
    rewrite app_nil_r. unfold fileOf. cbn [W withW].
    rewrite FW, W0. repeat split.
  - left. split; [reflexivity|].
    destruct (forallb_false_split ok (ChapterUrls e') A)
      as (done & bad & rest & E & D & B).
    exists done, bad, rest. split; [exact E|]. split; [exact D|].
    split; [exact B|]. rewrite E.
    destruct (downloadChapters_fail http_Get NewDocumentFromReader
                done e' 0 n bad rest D B) as (R & G & Wr).
    unfold printInfo, say, pbind. cbn [fst snd].
    rewrite R. cbn [fst snd app gets writes].
    rewrite G, Wr. repeat split.
Qed.

Lemma started_unique (a0 a0' : gostring) (as0 as0' : list gostring)
  (url url' dir dir' : gostring) (e e' : Extractor) :
  a0 :: as0 = a0' :: as0' ->
  parseArgs a0 as0 [] (str ".") = ([], inl (url, dir)) ->
  parseArgs a0' as0' [] (str ".") = ([], inl (url', dir')) ->
  NewExtractor url_Parse url [] = Ok e ->
  NewExtractor url_Parse url' [] = Ok e' ->
  dir = dir' /\ e = e'.
Proof.
  intros E P P' N N'. injection E as <- <-. rewrite P in P'.
  injection P' as <- <-. rewrite N in N'. injection N' as <-.
  split; reflexivity.
Qed.

(** X22. The program calls [os.WriteFile] exactly when the command line is
    accepted and names a URL, [NewExtractor] accepts the URL, the index is
    read and every chapter converts.  The call is then the only one, the
    program ends with status 0, the name is the directory joined with the
    title line and ".md", and the data are the texts of the chapters in the
    order of the index.  A run that ends otherwise writes nothing. *)
Theorem run_writes_file (Args : list gostring) :
  (forall f d,
     In (f, d) (writes (fst (program Args))) <->
     exists arg0 args url dir e,
       Args = arg0 :: args
       /\ parseArgs arg0 args [] (str ".") = ([], inl (url, dir))
       /\ url <> []
       /\ NewExtractor url_Parse url [] = Ok e
       /\ snd (index e) = Ok tt
       /\ forallb ok (ChapterUrls (fst (index e))) = true
       /\ f = path.Join [dir; ToTitle (Meta (fst (index e))) ++ str ".md"]
       /\ d = flat_map textOf (ChapterUrls (fst (index e))))
  /\ (List.length (writes (fst (program Args))) <= 1)%nat
  /\ (writes (fst (program Args)) <> [] ->
      snd (program Args) = ExitCode 0).
Proof.
  destruct (run_cases Args)
    as [(G & Wr & X & NS)
       |(arg0 & args & url & dir & e & EA & P & U & N &
         [(G & Wr & X)
         |[(I & done & bad & rest & EC & D & B & G & Wr & X)
          |(I & A & G & Wr & X)]])].
  - rewrite Wr. split; [|split; [simpl; lia|congruence]].
    intros f d. split; [intros []|].
    intros (a0 & as0 & u & d0 & e0 & E & P & U & N & _).
    exact (NS a0 as0 u d0 e0 E P U N).
  - rewrite Wr. split; [|split; [simpl; lia|congruence]].
    intros f d. split; [intros []|].
    intros (a0 & as0 & u & d0 & e0 & E & P0 & U0 & N0 & I0 & _).
    rewrite EA in E.
    destruct (started_unique _ _ _ _ _ _ _ _ _ _ E P P0 N N0) as [_ <-].
    destruct X as [(er & I & _)|(msg & I & _)]; rewrite I in I0;
      discriminate.
  - rewrite Wr. split; [|split; [simpl; lia|congruence]].
    intros f d. split; [intros []|].
    intros (a0 & as0 & u & d0 & e0 & E & P0 & U0 & N0 & I0 & A0 & _).
    rewrite EA in E.
    destruct (started_unique _ _ _ _ _ _ _ _ _ _ E P P0 N N0) as [_ <-].
    rewrite EC, forallb_app in A0. cbn [forallb] in A0. rewrite B in A0.
    rewrite andb_false_r in A0. discriminate.
  - rewrite Wr. split; [|split; [simpl; lia|intros _; exact X]].
    intros f d. split.
    + intros [H|[]]. injection H as <- <-.
      exists arg0, args, url, dir, e. repeat split; assumption.
    + intros (a0 & as0 & u & d0 & e0 & E & P0 & U0 & N0 & I0 & A0 & -> & ->).
      rewrite EA in E.
      destruct (started_unique _ _ _ _ _ _ _ _ _ _ E P P0 N N0) as [<- <-].
      left. reflexivity.
Qed.


Lemma links_below (base : gostring) (l : list gostring) :
  (forall u, In u l -> exists href, u = base ++ str "/" ++ href) ->
  exists hrefs, l = map (fun href => base ++ str "/" ++ href) hrefs.
Proof.
  induction l as [|u l IH]; intros H; [exists []; reflexivity|].
  destruct (H u (or_introl eq_refl)) as [href ->].
  destruct (IH (fun v I => H v (or_intror I))) as [hrefs ->].
  exists (href :: hrefs). reflexivity.
Qed.

(** X24. Whatever the command line and whatever the pages hold, every
    request of the program goes to the host projekt-gutenberg.org, by http
    or https: the first request is for the base URL (scheme, host, author
    and book segment) and every other one for the base URL, "/" and a link
    of the index. *)
Theorem run_requests (Args : list gostring) :
  (gets (fst (program Args)) = []
   \/ exists scheme seg0 seg1 hrefs,
        (scheme = str "http" \/ scheme = str "https")
        /\ gets (fst (program Args))
           = (scheme ++ str "://projekt-gutenberg.org/"
              ++ seg0 ++ str "/" ++ seg1)
             :: map (fun href =>
                       (scheme ++ str "://projekt-gutenberg.org/"
                        ++ seg0 ++ str "/" ++ seg1) ++ str "/" ++ href)
                    hrefs)
  /\ (forall u, In u (gets (fst (program Args))) ->
        strings.HasPrefix u (str "http://projekt-gutenberg.org/") = true
        \/ strings.HasPrefix u (str "https://projekt-gutenberg.org/")
           = true).
Proof.
  assert (S : gets (fst (program Args)) = []
   \/ exists scheme seg0 seg1 hrefs,
        (scheme = str "http" \/ scheme = str "https")
        /\ gets (fst (program Args))
           = (scheme ++ str "://projekt-gutenberg.org/"
              ++ seg0 ++ str "/" ++ seg1)
             :: map (fun href =>
                       (scheme ++ str "://projekt-gutenberg.org/"
                        ++ seg0 ++ str "/" ++ seg1) ++ str "/" ++ href)
                    hrefs).
  { destruct (run_cases Args)
      as [(G & _)
         |(arg0 & args & url & dir & e & EA & P & U & N & C)];
      [left; exact G|]. right.
    destruct (NewExtractor_cases url_Parse url [])
      as [(er & X)|(scheme & seg0 & seg1 & Sc & X)];
      rewrite X in N; [discriminate|]. injection N as N.
    exists scheme, seg0, seg1.
    assert (B : BaseUrl e = scheme ++ str "://projekt-gutenberg.org/"
                            ++ seg0 ++ str "/" ++ seg1)
      by (rewrite <- N; reflexivity).
    rewrite <- B. clear N X.
    destruct C as [(G & _)
                  |[(I & done & bad & rest & EC & D & Bd & G & _)
                   |(I & A & G & _)]].
    - exists []. split; [exact Sc|exact G].
    - destruct (links_below (BaseUrl e) (done ++ [bad])) as [hrefs H].
      { intros u In1. apply (index_chapters e u I). rewrite EC.
        apply in_app_or in In1. apply in_or_app.
        destruct In1 as [In1|[<-|[]]]; [left; exact In1|].
        right. left. reflexivity. }
      exists hrefs. split; [exact Sc|]. rewrite G, H. reflexivity.
    - destruct (links_below (BaseUrl e) (ChapterUrls (fst (index e))))
        as [hrefs H].
      { intros u In1. exact (index_chapters e u I In1). }
      exists hrefs. split; [exact Sc|]. rewrite G, H. reflexivity. }
  split; [exact S|].
  intros u I. destruct S as [S|(scheme & seg0 & seg1 & hrefs & Sc & S)];
    [rewrite S in I; destruct I|].
  rewrite S in I.
  assert (H : exists t, u = scheme ++ str "://projekt-gutenberg.org/" ++ t).
  { destruct I as [<-|I]; [eexists; reflexivity|].
    apply in_map_iff in I. destruct I as (href & <- & _).
    exists (seg0 ++ str "/" ++ seg1 ++ str "/" ++ href).
    rewrite <- !app_assoc. reflexivity. }
  destruct H as [t ->].
  destruct Sc as [-> | ->]; [left|right]; apply HasPrefix_true;
    exists t; reflexivity.
Qed.

End Run.

(** ** The name of the file: [path.Join] and [path.Clean] *)

Lemma TrimRight_name (q name : gostring) :
  name <> [] -> ~ In SLASH name ->
  strings.TrimRight (q ++ name) [SLASH] = q ++ name.
Proof.
  intros N S. destruct (exists_last N) as (s & x & ->).
  rewrite app_assoc, TrimRight_snoc.
  assert (X : rune_eqb x SLASH = false)
    by (apply rune_eqb_neq; intros ->; apply S; apply in_or_app; right;
        left; reflexivity).
  rewrite X. reflexivity.
Qed.

Lemma Base_plain (name : gostring) :
  name <> [] -> ~ In SLASH name -> path.Base name = name.
Proof.
  intros N S. pose proof (TrimRight_name [] name N S) as T.
  pose proof (afterLastSlash_plain name S) as A. cbn [app] in T.
  unfold path.Base. destruct name as [|c name0]; [congruence|].
  cbv zeta. rewrite T, A. reflexivity.
Qed.

Lemma Base_behind (q name : gostring) :
  name <> [] -> ~ In SLASH name -> path.Base (q ++ SLASH :: name) = name.
Proof.
  intros N S.
  pose proof (TrimRight_name (q ++ [SLASH]) name N S) as T.
  rewrite <- app_assoc in T. cbn [app] in T.
  pose proof (afterLastSlash_behind q name S) as A.
  unfold path.Base.
  destruct (q ++ SLASH :: name) as [|c p0] eqn:E;
    [destruct q; discriminate|].
  cbv zeta. rewrite T, A. destruct name; [congruence|reflexivity].
Qed.

(** What [path.Clean] keeps of a path: elements that are not empty, hold
    no slash and are not ".". *)
Lemma cleanStep_kept (rooted : bool) (out : list gostring) (elem : gostring) :
  ~ In SLASH elem ->
  Forall (fun x => x <> [] /\ ~ In SLASH x /\ x <> str ".") out ->
  Forall (fun x => x <> [] /\ ~ In SLASH x /\ x <> str ".")
         (path.cleanStep rooted out elem).
Proof.
  intros S F. unfold path.cleanStep.
  destruct (streq elem []) eqn:E0; [exact F|].
  destruct (streq elem (str ".")) eqn:E1; [exact F|]. cbn [orb].
  apply streq_neq in E0. apply streq_neq in E1.
  destruct (streq elem (str "..")).
  - destruct out as [|top below].
    + destruct rooted; [exact F|]. constructor; [|exact F].
      split; [exact E0|]. split; [exact S|exact E1].
    + destruct (streq top (str "..")).
      * constructor; [|exact F].
        split; [exact E0|]. split; [exact S|exact E1].
      * exact (Forall_inv_tail F).
  - constructor; [|exact F].
    split; [exact E0|]. split; [exact S|exact E1].
Qed.

Lemma fold_cleanStep_kept (rooted : bool) (comps : list gostring) :
  forall out,
    (forall c, In c comps -> ~ In SLASH c) ->
    Forall (fun x => x <> [] /\ ~ In SLASH x /\ x <> str ".") out ->
    Forall (fun x => x <> [] /\ ~ In SLASH x /\ x <> str ".")
           (fold_left (path.cleanStep rooted) comps out).
Proof.
  induction comps as [|c comps IH]; intros out S F; [exact F|].
  cbn [fold_left]. apply IH.
  - intros x I. apply S. right. exact I.
  - apply cleanStep_kept; [apply S; left; reflexivity|exact F].
Qed.

(** The elements kept, joined: not empty, not "." and no slash first. *)
Lemma Join_kept (out : list gostring) :
  out <> [] ->
  Forall (fun x => x <> [] /\ ~ In SLASH x /\ x <> str ".") out ->
  exists c t, strings.Join (rev out) (str "/") = c :: t
              /\ c <> SLASH /\ c :: t <> str ".".
Proof.
  intros N F0.
  destruct (rev out) as [|h l] eqn:R.
  { apply (f_equal (@rev gostring)) in R. rewrite rev_involutive in R.
    simpl in R. congruence. }
  assert (F : Forall (fun x => x <> [] /\ ~ In SLASH x /\ x <> str ".")
                    (h :: l))
    by (rewrite <- R; apply Forall_rev; exact F0).
  pose proof (Forall_inv F) as (H0 & HS & HD).
  destruct h as [|c h']; [congruence|].
  assert (C : c <> SLASH) by (intros ->; apply HS; left; reflexivity).
  destruct l as [|h2 l].
  - exists c, h'. repeat split; assumption.
  - rewrite Join_cons by discriminate.
    exists c, (h' ++ str "/" ++ strings.Join (h2 :: l) (str "/")).
    split; [reflexivity|]. split; [exact C|].
    intros X. injection X as _ X. destruct h'; discriminate.
Qed.

Lemma Clean_unfold (c : rune) (p : gostring) :
  path.Clean (c :: p) =
  let out := fold_left (path.cleanStep (rune_eqb c SLASH))
                       (splitOn SLASH (c :: p)) [] in
  let body := strings.Join (rev out) (str "/") in
  if rune_eqb c SLASH then str "/" ++ body
  else match body with [] => str "." | _ :: _ => body end.
Proof.
  unfold path.Clean. change (str "/") with [SLASH].
  rewrite Split_rune. reflexivity.
Qed.

Lemma cleanStep_name (rooted : bool) (out : list gostring)
  (name : gostring) :
  name <> [] -> name <> str "." -> name <> str ".." ->
  path.cleanStep rooted out name = name :: out.
Proof.
  intros N0 N1 N2. unfold path.cleanStep.
  destruct (streq name []) eqn:E0; [apply streq_eq in E0; congruence|].
  destruct (streq name (str ".")) eqn:E1;
    [apply streq_eq in E1; congruence|].
  destruct (streq name (str "..")) eqn:E2;
    [apply streq_eq in E2; congruence|].
  reflexivity.
Qed.

Lemma Join_dir_name (dir name : gostring) :
  name <> [] -> ~ In SLASH name -> name <> str "." -> name <> str ".." ->
  path.Join [dir; name] =
  if streq dir [] || streq (path.Clean dir) (str ".") then name
  else if streq (path.Clean dir) (str "/") then str "/" ++ name
  else path.Clean dir ++ str "/" ++ name.
Proof.
  intros N0 NS N1 N2.
  destruct dir as [|c d].
  { cbn [path.Join streq orb]. destruct name as [|x name'] eqn:E;
      [congruence|]. rewrite <- E in *.
    cbn [strings.Join]. rewrite E at 1. rewrite Clean_unfold, <- E.
    cbv zeta. rewrite (splitOn_without_sep SLASH name NS).
    cbn [fold_left]. rewrite cleanStep_name by assumption.
    cbn [rev app strings.Join].
    assert (X : rune_eqb x SLASH = false)
      by (apply rune_eqb_neq; intros ->; apply NS; rewrite E; left;
          reflexivity).
    rewrite X, E. reflexivity. }
  cbn [path.Join streq orb].
  change (strings.Join [c :: d; name] (str "/"))
    with (c :: (d ++ SLASH :: name)).
  rewrite !Clean_unfold. cbv zeta.
  change (c :: d ++ SLASH :: name) with ((c :: d) ++ SLASH :: name).
  rewrite splitOn_app_sep_any, (splitOn_without_sep SLASH name NS).
  rewrite fold_left_app. cbn [fold_left].
  set (out := fold_left (path.cleanStep (rune_eqb c SLASH))
                        (splitOn SLASH (c :: d)) []).
  rewrite cleanStep_name by assumption.
  cbn [rev]. rewrite Join_middle.
  assert (F : Forall (fun x => x <> [] /\ ~ In SLASH x /\ x <> str ".") out).
  { apply fold_cleanStep_kept; [|constructor].
    intros x I. exact (splitOn_no_sep_inside SLASH _ x I). }
  rewrite app_nil_r.
  destruct out as [|top below] eqn:O.
  - cbn [rev strings.Join app]. destruct (rune_eqb c SLASH).
    + reflexivity.
    + destruct name; [congruence|reflexivity].
  - rewrite <- O in *.
    destruct (Join_kept out) as (x & t & J & X & D);
      [rewrite O; discriminate|exact F|].
    assert (R : rev out <> []).
    { intros R. rewrite R in J. discriminate. }
    destruct (rev out) as [|r0 rs] eqn:RO; [congruence|].
    rewrite J. destruct (rune_eqb c SLASH).
    + replace (streq (str "/" ++ x :: t) (str ".")) with false
        by reflexivity.
      replace (streq (str "/" ++ x :: t) (str "/")) with false
        by (symmetry; apply streq_neq; discriminate).
      cbn [orb]. rewrite <- !app_assoc. reflexivity.
    + replace (streq (x :: t) (str ".")) with false
        by (symmetry; apply streq_neq; exact D).
      replace (streq (x :: t) (str "/")) with false
        by (symmetry; apply streq_neq; intros Y; injection Y as Y _;
            exact (X Y)).
      cbn [orb]. rewrite <- !app_assoc. reflexivity.
Qed.

(** X25. The name of the file [main] writes, for a name that is not empty,
    "." or ".." and holds no slash (as the title line with ".md" when the
    metadata hold no slash): it is the cleaned directory, a slash and the
    name; the name alone when the directory is empty or cleans to "." (the
    default); and "/" and the name when the directory cleans to "/".  So
    the last element of the file name is the name given. *)
Theorem Join_dir_file (dir name : gostring) :
  name <> [] -> ~ In SLASH name -> name <> str "." -> name <> str ".." ->
  path.Join [dir; name]
  = (if streq dir [] || streq (path.Clean dir) (str ".") then name
     else if streq (path.Clean dir) (str "/") then str "/" ++ name
     else path.Clean dir ++ str "/" ++ name)
  /\ path.Base (path.Join [dir; name]) = name.
Proof.
  intros N0 NS N1 N2. split; [exact (Join_dir_name dir name N0 NS N1 N2)|].
  rewrite (Join_dir_name dir name N0 NS N1 N2).
  destruct (streq dir [] || streq (path.Clean dir) (str "."));
    [exact (Base_plain name N0 NS)|].
  destruct (streq (path.Clean dir) (str "/")).
  - exact (Base_behind [] name N0 NS).
  - exact (Base_behind (path.Clean dir) name N0 NS).
Qed.

Lemma Join_dir_file_witness :
  path.Join [str "./out//"; str "Goethe -- Faust, 1808.md"]
  = str "out/Goethe -- Faust, 1808.md"
  /\ path.Base (path.Join [str "./out//"; str "Goethe -- Faust, 1808.md"])
     = str "Goethe -- Faust, 1808.md".
Proof.
  apply (Join_dir_file (str "./out//") (str "Goethe -- Faust, 1808.md"));
    [discriminate| |discriminate|discriminate].
  intros I. simpl in I.
  repeat (destruct I as [I|I]; [discriminate|]). exact I.
Defined.

(** ** A run from the command line to the file *)

(** The example run: the index of the book is requested, then its one
    chapter, and the file holds the heading of the chapter. *)
Example faust_run :
  run url_Parse_faust http_Get_faust parse_faust [str "prog"; faustRawUrl]
  = ([EvInfo (str "Book URL: " ++ faustRawUrl);
      EvGet faustBaseUrl;
      EvInfo (str "Book: Goethe -- Faust, 1808");
      EvConsole ClearLine;
      EvProgress 1 1;
      EvGet (faustBaseUrl ++ str "/teil1.html");
      EvWriteFile (str "Goethe -- Faust, 1808.md") (str "# Faust" ++ [NL]);
      EvConsole ClearLine;
      EvInfo (str "Saved as: Goethe -- Faust, 1808.md")],
     ExitCode 0).
Proof. vm_compute. reflexivity. Qed.

(** [process] makes strings of code points only: what the "spaced" effect
    converts to runes is such a string. *)
Lemma process_valid (n : html.Node) :
  forall x, In x (fst (process n)) -> utf8.ValidRune x = true.
Proof.
  induction n as [t a d attrs kids IH] using Node_forall_ind.
  set (n := html.mkNode t a d attrs kids) in *.
  assert (C : forall x, In x (fst (processChildren n)) ->
                        utf8.ValidRune x = true).
  { rewrite processChildren_flat. cbn [fst]. intros x I.
    apply in_flat_map in I. destruct I as (c & Ic & Ix).
    rewrite Forall_forall in IH. exact (IH c Ic x Ix). }
  destruct t eqn:T;
    try (rewrite process_unfold; unfold processNode; subst n;
         cbn [html.Type']; intros x []).
  - rewrite process_unfold. unfold processNode. subst n. cbn [html.Type'].
    cbn [ret fst]. pose proof (processText_valid (html.Data
      (html.mkNode html.TextNode a d attrs kids))) as V.
    rewrite Forall_forall in V. exact V.
  - rewrite (process_element_spacedIf n eq_refl).
    assert (F : forall x,
               In x (fst (transformElement n (fun _ => processChildren n)))
               -> utf8.ValidRune x = true).
    { unfold transformElement.
      destruct (html.DataAtom n); try destruct (hasClass n (str "centerbig"));
        rewrite ?fst_bind; cbn [ret fst];
        intros x I; repeat (apply in_app_or in I; destruct I as [I|I]);
        try exact (C x I);
        simpl in I; repeat (destruct I as [<-|I]; [reflexivity|]);
        destruct I. }
    unfold spacedIf. destruct (hasClass n (str "spaced")); [|exact F].
    intros x I. apply intersperse_In in I. destruct I as [->|I];
      [reflexivity|exact (F x I)].
Qed.
